(** * torch/jit/frontend.py: the Python-AST to tree-view builder

    A shallow embedding of the translation of Python syntax trees into
    TorchScript tree views ([StmtBuilder], [ExprBuilder], [WithItemBuilder],
    [build_param_list], [find_before]) together with the properties of
    that translation.

    Python integers are [Z], a raised exception is the [Raises] branch of
    [outcome], and [None] in an optional field is [None] of [option].

    A Python [str] is a [string] whose characters are its code points;
    the embedding holds the code points below 256, which is enough to
    tell a [str] from its UTF-8 bytes ([encode_utf8]).  Columns of the
    syntax tree and offsets of ranges count bytes of the encoded source;
    [len] and the slices of a [str] count code points. *)

From Stdlib Require Import ZArith List String Ascii Bool Lia.
From Stdlib Require Import Numbers.DecimalString.
Import ListNotations.

Local Open Scope string_scope.
Local Open Scope Z_scope.

Set Warnings "-register-all".

(** ** Python built-ins used by the module *)

(** [len(s)]: the number of code points of a [str], and the number of
    bytes of an encoded one. *)
Definition len (s : string) : Z := Z.of_nat (String.length s).

(** [s.encode('utf-8')]: one byte for a code point below 128, two bytes
    for a code point from 128 to 255. *)
Fixpoint encode_utf8 (s : string) : string :=
  match s with
  | EmptyString => EmptyString
  | String c s' =>
      let n := nat_of_ascii c in
      if (n <? 128)%nat then String c (encode_utf8 s')
      else String (ascii_of_nat (192 + n / 64))
             (String (ascii_of_nat (128 + n mod 64)) (encode_utf8 s'))
  end.

(** [str(n)] for an [int]. *)
Definition str_of_int (n : Z) : string := NilZero.string_of_int (Z.to_int n).

(** [s.startswith(p)]. *)
Definition startswith (s p : string) : bool := String.prefix p s.

(** [s[:pos]]: a negative bound counts from the end, a bound past the end
    is clipped. *)
Definition slice_to (s : string) (pos : Z) : string :=
  let n := if pos <? 0 then Z.max 0 (len s + pos) else pos in
  String.substring 0 (Z.to_nat n) s.

(** Greatest offset at which [sub] occurs in [s], counted from [i]. *)
Fixpoint rindex_from (s sub : string) (i : nat) : option nat :=
  let here := if String.prefix sub s then Some i else None in
  match s with
  | EmptyString => here
  | String _ s' =>
      match rindex_from s' sub (S i) with
      | Some j => Some j
      | None => here
      end
  end.

(** [s.rindex(sub)]; [None] stands for the [ValueError] of a missing
    substring. *)
Definition rindex (s sub : string) : option Z :=
  option_map Z.of_nat (rindex_from s sub 0).

(** [s[index]] on encoded bytes: a negative index counts from the end,
    [None] stands for [IndexError]. *)
Definition get_char (s : string) (index : Z) : option ascii :=
  let i := if index <? 0 then index + len s else index in
  if i <? 0 then None else String.get (Z.to_nat i) s.

(** Membership in [string.whitespace]. *)
Definition in_whitespace (c : ascii) : bool :=
  let n := nat_of_ascii c in
  (Nat.eqb n 32 || Nat.eqb n 9 || Nat.eqb n 10 || Nat.eqb n 13
   || Nat.eqb n 11 || Nat.eqb n 12)%bool.

(** Lookup in a table keyed by node class, [dict.get(key, default)]. *)
Fixpoint table_get (tbl : list (string * string)) (key default : string) : string :=
  match tbl with
  | [] => default
  | (k, v) :: tbl' => if String.eqb k key then v else table_get tbl' key default
  end.

(** ** Ranges and the source context *)

Record Range : Type := mkRange { start : Z; end_ : Z }.

Record SourceContext : Type := mkSourceContext {
  source : string;
  filename : string;
  file_lineno : Z;
  leading_whitespace_len : Z;
  uses_true_division : bool
}.

(** Byte offset of the first character of the 0-based line [k]. *)
Fixpoint offset_for_line (s : string) (k : nat) {struct s} : Z :=
  match k, s with
  | O, _ => 0
  | S _, EmptyString => 0
  | S k', String c s' =>
      1 + offset_for_line s' (if Ascii.eqb c "010"%char then k' else k)
  end.

(** Modelled from the spec: [SourceContext.make_range] is inherited from
    the native range factory, which is not part of this module.  The
    context "maps (line, column) pairs and raw byte offsets to Range
    values": lines count from 1 and start at their byte offset in the
    encoded source, columns are shifted by the leading whitespace that
    was removed before parsing. *)
Definition make_range (ctx : SourceContext) (lineno col_start col_end : Z) : Range :=
  let line_start :=
    offset_for_line (encode_utf8 (source ctx)) (Z.to_nat (lineno - 1)) in
  mkRange (line_start + (col_start + leading_whitespace_len ctx))
          (line_start + (col_end + leading_whitespace_len ctx)).

(** Modelled from the spec: [SourceContext.make_raw_range], the range
    between two raw byte offsets. *)
Definition make_raw_range (ctx : SourceContext) (start_ end__ : Z) : Range :=
  mkRange start_ end__.

(** ** Exceptions *)

(** [FrontendError] and its subclasses carry a range and a message; the
    remaining constructors are the host exceptions the module can
    raise. *)
Inductive exn : Type :=
| FrontendError (source_range : option Range) (msg : string)
| NotSupportedError (source_range : option Range) (msg : string)
| UnsupportedNodeError (source_range : Range) (msg : string)
| AssertionError (msg : string)
| ValueError (msg : string)
| TypeError (msg : string)
| AttributeError (msg : string)
| IndexError (msg : string).

(** [isinstance(e, NotSupportedError)]: the class and its subclass. *)
Definition is_NotSupportedError (e : exn) : bool :=
  match e with
  | NotSupportedError _ _ | UnsupportedNodeError _ _ => true
  | _ => false
  end.

(** [isinstance(e, FrontendError)]: the three diagnostic classes. *)
Definition is_FrontendError (e : exn) : bool :=
  match e with
  | FrontendError _ _ | NotSupportedError _ _ | UnsupportedNodeError _ _ => true
  | _ => false
  end.

Inductive outcome (A : Type) : Type :=
| Ok (a : A)
| Raises (e : exn).
Arguments Ok {A} a.
Arguments Raises {A} e.

Definition bind {A B : Type} (m : outcome A) (k : A -> outcome B) : outcome B :=
  match m with
  | Ok a => k a
  | Raises e => Raises e
  end.

Notation "x <- m ;; k" := (bind m (fun x => k))
  (at level 61, m at next level, right associativity).
Notation "' pat <- m ;; k" := (bind m (fun x => match x with pat => k end))
  (at level 61, pat pattern, m at next level, right associativity).

(** A list comprehension over a builder: elements are built left to
    right and the first exception ends the comprehension. *)
Definition mapM {A B : Type} (f : A -> outcome B) : list A -> outcome (list B) :=
  fix go (l : list A) : outcome (list B) :=
    match l with
    | [] => Ok []
    | a :: l' => b <- f a ;; bs <- go l' ;; Ok (b :: bs)
    end.

(** [f(x) if x is not None else None]. *)
Definition optM {A B : Type} (f : A -> outcome B) (o : option A) : outcome (option B) :=
  match o with
  | None => Ok None
  | Some a => b <- f a ;; Ok (Some b)
  end.

(** ** The Python syntax tree (module [ast])

    Every node carries [lineno] and [col_offset].  Optional fields of the
    grammar are [option]s.  Node classes for which no builder has a
    handler are kept by class name ([OtherExpr], [OtherStmt]). *)

Module ast.

Inductive operator : Type :=
| Add | Sub | Mult | MatMult | Div | Mod | Pow
| LShift | RShift | BitOr | BitXor | BitAnd | FloorDiv.

Inductive unaryop : Type := Invert | Not | UAdd | USub.

Inductive boolop : Type := And | Or.

Inductive cmpop : Type :=
| Eq | NotEq | Lt | LtE | Gt | GtE | Is | IsNot | In | NotIn.

(** Values held by [Num], [NameConstant] and [Constant] nodes.  A float,
    a complex number and a bytes object are kept by their [str()]
    rendering, the only thing the builder reads of them. *)
Inductive constant : Type :=
| CNone
| CBool (b : bool)
| CInt (n : Z)
| CFloat (rendering : string)
| CComplex (rendering : string)
| CStr (s : string)
| CBytes (rendering : string)
| CEllipsis.

(** A [Compare] node as the parser builds it has at least one operator
    and one comparator: [op1] and [comparator1] are the first of each,
    [ops] and [comparators] the remaining ones. *)
Inductive expr : Type :=
| Attribute (lineno col_offset : Z) (value : expr) (attr : string)
| Call (lineno col_offset : Z) (func : expr) (args : list expr)
       (starargs : option expr) (keywords : list keyword)
| Ellipsis (lineno col_offset : Z)
| Name (lineno col_offset : Z) (id : string)
| NameConstant (lineno col_offset : Z) (value : constant)
| BinOp (lineno col_offset : Z) (left : expr) (op : operator) (right : expr)
| UnaryOp (lineno col_offset : Z) (op : unaryop) (operand : expr)
| BoolOp (lineno col_offset : Z) (op : boolop) (values : list expr)
| IfExp (lineno col_offset : Z) (test body orelse : expr)
| Compare (lineno col_offset : Z) (left : expr)
          (op1 : cmpop) (comparator1 : expr)
          (ops : list cmpop) (comparators : list expr)
| Subscript (lineno col_offset : Z) (value : expr) (slice_ : slice)
| List (lineno col_offset : Z) (elts : list expr)
| Tuple (lineno col_offset : Z) (elts : list expr)
| Dict (lineno col_offset : Z) (keys : list (option expr)) (values : list expr)
| Num (lineno col_offset : Z) (n : constant)
| Constant (lineno col_offset : Z) (value : constant)
| Str (lineno col_offset : Z) (s : string)
| JoinedStr (lineno col_offset : Z) (values : list expr)
| FormattedValue (lineno col_offset : Z) (value : expr) (conversion : Z)
                 (format_spec : option expr)
| ListComp (lineno col_offset : Z) (elt : expr) (generators : list comprehension)
| Starred (lineno col_offset : Z) (value : expr)
| OtherExpr (class_name : string) (lineno col_offset : Z)
with slice : Type :=
| Index (value : expr)
| Slice (lower upper step : option expr)
| ExtSlice (dims : list slice)
| SliceEllipsis
with keyword : Type :=
| mk_keyword (arg : option string) (value : expr)
with comprehension : Type :=
| mk_comprehension (target iter : expr) (ifs : list expr).

Record arg : Type := mk_arg {
  arg_lineno : Z;
  arg_col_offset : Z;
  arg_name : string;
  annotation : option expr
}.

Record arguments : Type := mk_arguments {
  args : list arg;
  vararg : option arg;
  kwonlyargs : list arg;
  kw_defaults : list (option expr);
  kwarg : option arg
}.

Inductive withitem : Type :=
| mk_withitem (context_expr : expr) (optional_vars : option expr).

Inductive stmt : Type :=
| Expr (lineno col_offset : Z) (value : expr)
| Assign (lineno col_offset : Z) (targets : list expr) (value : expr)
| AnnAssign (lineno col_offset : Z) (target annotation : expr) (value : option expr)
| Delete (lineno col_offset : Z) (targets : list expr)
| Return (lineno col_offset : Z) (value : option expr)
| Raise (lineno col_offset : Z) (exc : option expr)
| Assert (lineno col_offset : Z) (test : expr) (msg : option expr)
| AugAssign (lineno col_offset : Z) (target : expr) (op : operator) (value : expr)
| While (lineno col_offset : Z) (test : expr) (body orelse : list stmt)
| For (lineno col_offset : Z) (target iter : expr) (body orelse : list stmt)
| If (lineno col_offset : Z) (test : expr) (body orelse : list stmt)
| Print (lineno col_offset : Z) (dest : option expr) (values : list expr)
| Pass (lineno col_offset : Z)
| Break (lineno col_offset : Z)
| Continue (lineno col_offset : Z)
| With (lineno col_offset : Z) (items : list withitem) (body : list stmt)
| OtherStmt (class_name : string) (lineno col_offset : Z).

(** [node.__class__.__name__] *)
Definition expr_class_name (e : expr) : string :=
  match e with
  | Attribute _ _ _ _ => "Attribute"
  | Call _ _ _ _ _ _ => "Call"
  | Ellipsis _ _ => "Ellipsis"
  | Name _ _ _ => "Name"
  | NameConstant _ _ _ => "NameConstant"
  | BinOp _ _ _ _ _ => "BinOp"
  | UnaryOp _ _ _ _ => "UnaryOp"
  | BoolOp _ _ _ _ => "BoolOp"
  | IfExp _ _ _ _ _ => "IfExp"
  | Compare _ _ _ _ _ _ _ => "Compare"
  | Subscript _ _ _ _ => "Subscript"
  | List _ _ _ => "List"
  | Tuple _ _ _ => "Tuple"
  | Dict _ _ _ _ => "Dict"
  | Num _ _ _ => "Num"
  | Constant _ _ _ => "Constant"
  | Str _ _ _ => "Str"
  | JoinedStr _ _ _ => "JoinedStr"
  | FormattedValue _ _ _ _ _ => "FormattedValue"
  | ListComp _ _ _ _ => "ListComp"
  | Starred _ _ _ => "Starred"
  | OtherExpr c _ _ => c
  end.

Definition expr_lineno (e : expr) : Z :=
  match e with
  | Attribute l _ _ _ | Call l _ _ _ _ _ | Ellipsis l _ | Name l _ _
  | NameConstant l _ _ | BinOp l _ _ _ _ | UnaryOp l _ _ _ | BoolOp l _ _ _
  | IfExp l _ _ _ _ | Compare l _ _ _ _ _ _ | Subscript l _ _ _ | List l _ _
  | Tuple l _ _ | Dict l _ _ _ | Num l _ _ | Constant l _ _ | Str l _ _
  | JoinedStr l _ _ | FormattedValue l _ _ _ _ | ListComp l _ _ _
  | Starred l _ _ | OtherExpr _ l _ => l
  end.

Definition expr_col_offset (e : expr) : Z :=
  match e with
  | Attribute _ c _ _ | Call _ c _ _ _ _ | Ellipsis _ c | Name _ c _
  | NameConstant _ c _ | BinOp _ c _ _ _ | UnaryOp _ c _ _ | BoolOp _ c _ _
  | IfExp _ c _ _ _ | Compare _ c _ _ _ _ _ | Subscript _ c _ _ | List _ c _
  | Tuple _ c _ | Dict _ c _ _ | Num _ c _ | Constant _ c _ | Str _ c _
  | JoinedStr _ c _ | FormattedValue _ c _ _ _ | ListComp _ c _ _
  | Starred _ c _ | OtherExpr _ _ c => c
  end.

(** [op.__name__] for the operator classes. *)
Definition operator_name (op : operator) : string :=
  match op with
  | Add => "Add" | Sub => "Sub" | Mult => "Mult" | MatMult => "MatMult"
  | Div => "Div" | Mod => "Mod" | Pow => "Pow" | LShift => "LShift"
  | RShift => "RShift" | BitOr => "BitOr" | BitXor => "BitXor"
  | BitAnd => "BitAnd" | FloorDiv => "FloorDiv"
  end.

Definition unaryop_name (op : unaryop) : string :=
  match op with
  | Invert => "Invert" | Not => "Not" | UAdd => "UAdd" | USub => "USub"
  end.

Definition boolop_name (op : boolop) : string :=
  match op with And => "And" | Or => "Or" end.

Definition cmpop_name (op : cmpop) : string :=
  match op with
  | Eq => "Eq" | NotEq => "NotEq" | Lt => "Lt" | LtE => "LtE" | Gt => "Gt"
  | GtE => "GtE" | Is => "Is" | IsNot => "IsNot" | In => "In" | NotIn => "NotIn"
  end.

End ast.

(** ** Tree views

    The output trees, with the constructor signatures the module calls
    them with. *)

Inductive ident_t : Type :=
| Ident (r : Range) (name : string).

Inductive Expr : Type :=
| Var (name : ident_t)
| EmptyTypeAnnotation (r : Range)
| Apply (func : Expr) (args : list Expr) (kwargs : list attribute_t)
| Dots (r : Range)
| Select (base : Expr) (field : ident_t)
| TrueLiteral (r : Range)
| FalseLiteral (r : Range)
| NoneLiteral (r : Range)
| Starred (r : Range) (e : Expr)
| ListLiteral (r : Range) (elts : list Expr)
| TupleLiteral (r : Range) (elts : list Expr)
| DictLiteral (r : Range) (keys values : list Expr)
| Const (r : Range) (value : string)
| StringLiteral (r : Range) (value : string)
| ListComp (r : Range) (elt target iter : Expr)
| BinOp (kind : string) (lhs rhs : Expr)
| UnaryOp (r : Range) (kind : string) (e : Expr)
| SliceExpr (r : Range) (lower upper step : option Expr)
| Subscript (base : Expr) (subscript_exprs : list Expr)
| TernaryIf (cond true_expr false_expr : Expr)
with attribute_t : Type :=
| Attribute (name : ident_t) (value : Expr).

Inductive param_t : Type :=
| Param (type : Expr) (name : ident_t) (kwarg_only : bool).

Inductive withitem_t : Type :=
| WithItem (r : Range) (target : Expr) (var : option Expr).

Inductive Stmt : Type :=
| ExprStmt (e : Expr)
| Assign (lhs : list Expr) (rhs : Expr) (type : option Expr)
| Delete (e : Expr)
| Return (r : Range) (value : option Expr)
| Raise (r : Range) (e : Expr)
| Assert (r : Range) (test : Expr) (msg : option Expr)
| AugAssign (lhs : Expr) (kind : string) (rhs : Expr)
| While (r : Range) (cond : Expr) (body : list Stmt)
| For (r : Range) (targets itrs : list Expr) (body : list Stmt)
| If (r : Range) (cond : Expr) (true_branch false_branch : list Stmt)
| Pass (r : Range)
| Break (r : Range)
| Continue (r : Range)
| With (r : Range) (targets : list withitem_t) (body : list Stmt).

Definition ident_range (i : ident_t) : Range :=
  match i with Ident r _ => r end.

(** The smallest range that holds two ranges. *)
Definition merge (a b : Range) : Range :=
  mkRange (Z.min (start a) (start b)) (Z.max (end_ a) (end_ b)).

Definition merge_all (r : Range) (rs : list Range) : Range :=
  fold_left merge rs r.

(** Modelled from the spec: the tree-view classes are native and not part
    of this module.  "Every produced IR node ... carries exactly one"
    range, and "Range values are derived": a native view reports the
    smallest range that holds the range it is built with and the ranges
    of the views under it, identifiers included; a view built without a
    range is built with the range of one of the views under it. *)
Fixpoint range (e : Expr) : Range :=
  match e with
  | Var name => ident_range name
  | EmptyTypeAnnotation r => r
  | Apply func args kwargs =>
      merge_all (range func)
        (map range args
         ++ map (fun kw => match kw with
                           | Attribute name value =>
                               merge (ident_range name) (range value)
                           end) kwargs)%list
  | Dots r => r
  | Select base field => merge (range base) (ident_range field)
  | TrueLiteral r | FalseLiteral r | NoneLiteral r => r
  | Starred r e => merge r (range e)
  | ListLiteral r elts | TupleLiteral r elts => merge_all r (map range elts)
  | DictLiteral r keys values =>
      merge_all r (map range keys ++ map range values)%list
  | Const r _ | StringLiteral r _ => r
  | ListComp r elt target iter =>
      merge_all r [range elt; range target; range iter]
  | BinOp _ lhs rhs => merge (range lhs) (range rhs)
  | UnaryOp r _ e => merge r (range e)
  | SliceExpr r lower upper step =>
      merge_all r
        (match lower with Some e => [range e] | None => [] end
         ++ match upper with Some e => [range e] | None => [] end
         ++ match step with Some e => [range e] | None => [] end)%list
  | Subscript base subscript_exprs =>
      merge_all (range base) (map range subscript_exprs)
  | TernaryIf cond true_expr false_expr =>
      merge_all (range cond) [range true_expr; range false_expr]
  end.

Definition withitem_range (item : withitem_t) : Range :=
  match item with
  | WithItem r target var =>
      merge_all r (range target
                   :: match var with Some e => [range e] | None => [] end)
  end.

(** Modelled from the spec: the range of a statement view, by the same
    rule. *)
Fixpoint stmt_range (s : Stmt) : Range :=
  match s with
  | ExprStmt e => range e
  | Assign lhs rhs type =>
      merge_all (range rhs)
        (map range lhs ++ match type with Some e => [range e] | None => [] end)%list
  | Delete e => range e
  | Return r value =>
      merge_all r (match value with Some e => [range e] | None => [] end)
  | Raise r e => merge r (range e)
  | Assert r test msg =>
      merge_all r (range test
                   :: match msg with Some e => [range e] | None => [] end)
  | AugAssign lhs _ rhs => merge (range lhs) (range rhs)
  | While r cond body => merge_all r (range cond :: map stmt_range body)
  | For r targets itrs body =>
      merge_all r (map range targets ++ map range itrs ++ map stmt_range body)%list
  | If r cond true_branch false_branch =>
      merge_all r (range cond :: map stmt_range true_branch
                   ++ map stmt_range false_branch)%list
  | Pass r | Break r | Continue r => r
  | With r targets body =>
      merge_all r (map withitem_range targets ++ map stmt_range body)%list
  end.

(** ** Module-level tables and errors *)

Definition _reserved_prefix : string := "__jit".

Definition pretty_node_names : list (string * string) :=
  [ ("FunctionDef", "function definitions");
    ("For", "for loops");
    ("Delete", "del statements");
    ("ClassDef", "class definitions");
    ("With", "with statements");
    ("Raise", "raise statements");
    ("Assert", "assertions");
    ("Import", "import statements");
    ("ImportFrom", "import statements");
    ("Global", "global variables");
    ("Break", "break statements");
    ("Continue", "continue statements");
    ("AsyncFunctionDef", "async function definitions");
    ("AsyncFor", "async for loops");
    ("AsyncWith", "async with statements");
    ("Try", "try blocks");
    ("Nonlocal", "nonlocal variables");
    ("AnnAssign", "annotated assignments") ].

Definition node_start_tokens : list (string * string) :=
  [ ("FunctionDef", "def");
    ("For", "for");
    ("Delete", "del");
    ("ClassDef", "class");
    ("With", "with");
    ("Raise", "raise");
    ("Assert", "assert");
    ("Import", "import");
    ("ImportFrom", "from");
    ("Global", "global");
    ("Break", "break");
    ("Continue", "continue");
    ("AsyncFunctionDef", "async def");
    ("AsyncFor", "async for");
    ("AsyncWith", "async with");
    ("Try", "try");
    ("Nonlocal", "nonlocal") ].

(** [UnsupportedNodeError(ctx, offending_node, reason)]: the exception
    that leaves the constructor call.  [position] is the node's
    [(lineno, col_offset)], absent when the offending node is [None], in
    which case reading [offending_node.lineno] raises [AttributeError]
    before any frontend error exists. *)
Definition new_UnsupportedNodeError (ctx : SourceContext) (node_type : string)
    (position : option (Z * Z)) (reason : string) : exn :=
  let range_len := len (table_get node_start_tokens node_type " ") in
  match position with
  | None => AttributeError "'NoneType' object has no attribute 'lineno'"
  | Some (lineno, col_offset) =>
      let source_range := make_range ctx lineno col_offset (col_offset + range_len) in
      let feature_name := table_get pretty_node_names node_type node_type in
      let msg := feature_name ++ " "
                 ++ (if String.eqb reason "" then "" else reason ++ " ")
                 ++ "aren't supported" in
      UnsupportedNodeError source_range msg
  end.

(** [Builder.__call__] on a field that may hold [None]: [None] has no
    handler in any builder, so the miss path runs on it. *)
Definition Builder_call {N T : Type} (dispatch : SourceContext -> N -> outcome T)
    (ctx : SourceContext) (node : option N) : outcome T :=
  match node with
  | Some n => dispatch ctx n
  | None => Raises (new_UnsupportedNodeError ctx "NoneType" None "")
  end.

(** [len(x)] where [x] may be [None]. *)
Definition len_opt (x : option string) : outcome Z :=
  match x with
  | Some s => Ok (len s)
  | None => Raises (TypeError "object of type 'NoneType' has no len()")
  end.

Definition find_before (ctx : SourceContext) (pos : Z) (substr : string)
    (offsets : Z * Z) : outcome Range :=
  match rindex (slice_to (source ctx) pos) substr with
  | None => Raises (ValueError "substring not found")
  | Some new_pos =>
      Ok (make_raw_range ctx (new_pos + fst offsets)
                             (new_pos + len substr + snd offsets))
  end.

Fixpoint zip3 {A B C : Type} (a : list A) (b : list B) (c : list C)
  : list (A * B * C) :=
  match a, b, c with
  | x :: a', y :: b', z :: c' => (x, y, z) :: zip3 a' b' c'
  | _, _, _ => []
  end.

(** [str(value)] of a constant. *)
Definition str_of_constant (v : ast.constant) : string :=
  match v with
  | ast.CNone => "None"
  | ast.CBool true => "True"
  | ast.CBool false => "False"
  | ast.CInt n => str_of_int n
  | ast.CFloat s | ast.CComplex s | ast.CStr s | ast.CBytes s => s
  | ast.CEllipsis => "Ellipsis"
  end.

(** ** ExprBuilder *)

Module ExprBuilder.

Definition binop_map (op : ast.operator) : option string :=
  match op with
  | ast.Add => Some "+"
  | ast.Sub => Some "-"
  | ast.Mult => Some "*"
  | ast.Div => Some "/"
  | ast.Pow => Some "**"
  | ast.Mod => Some "%"
  | ast.FloorDiv => Some "//"
  | ast.BitAnd => Some "&"
  | ast.BitXor => Some "^"
  | ast.BitOr => Some "|"
  | ast.LShift => Some "<<"
  | ast.RShift => Some ">>"
  | ast.MatMult => Some "@"
  end.

Definition unop_map (op : ast.unaryop) : option string :=
  match op with
  | ast.Not => Some "not"
  | ast.USub => Some "-"
  | ast.Invert => Some "~"
  | ast.UAdd => None
  end.

Definition boolop_map (op : ast.boolop) : option string :=
  match op with
  | ast.And => Some "and"
  | ast.Or => Some "or"
  end.

Definition cmpop_map (op : ast.cmpop) : option string :=
  match op with
  | ast.Eq => Some "=="
  | ast.NotEq => Some "!="
  | ast.LtE => Some "<="
  | ast.Lt => Some "<"
  | ast.GtE => Some ">="
  | ast.Gt => Some ">"
  | ast.Is => Some "is"
  | ast.IsNot => Some "is not"
  | ast.In => Some "in"
  | ast.NotIn => Some "not in"
  end.

Definition is_Div (op : ast.operator) : bool :=
  match op with ast.Div => true | _ => false end.

Definition is_NotIn (op : ast.cmpop) : bool :=
  match op with ast.NotIn => true | _ => false end.

(** *** Handlers of leaf nodes *)

Definition build_Ellipsis (ctx : SourceContext) (lineno col_offset : Z) : outcome Expr :=
  let r := make_range ctx lineno col_offset (col_offset + 3) in
  Ok (Dots r).

Definition build_Name (ctx : SourceContext) (lineno col_offset : Z) (id : string)
  : outcome Expr :=
  let r := make_range ctx lineno col_offset (col_offset + len id) in
  if startswith id _reserved_prefix then
    Raises (NotSupportedError (Some r)
              ("names of variables used in JIT-ed functions can't start with "
               ++ _reserved_prefix))
  else if String.eqb id "True" then Ok (TrueLiteral r)
  else if String.eqb id "False" then Ok (FalseLiteral r)
  else if String.eqb id "None" then Ok (NoneLiteral r)
  else Ok (Var (Ident r id)).

Definition build_NameConstant (ctx : SourceContext) (lineno col_offset : Z)
    (value : ast.constant) : outcome Expr :=
  let r := make_range ctx lineno col_offset
             (col_offset + len (str_of_constant value)) in
  match value with
  | ast.CBool true => Ok (TrueLiteral r)
  | ast.CBool false => Ok (FalseLiteral r)
  | ast.CNone => Ok (NoneLiteral r)
  | _ => Raises (ValueError ("Name constant value unsupported: "
                             ++ str_of_constant value))
  end.

Definition build_Num (ctx : SourceContext) (lineno col_offset : Z)
    (n : ast.constant) : outcome Expr :=
  let value := str_of_constant n in
  let r := make_range ctx lineno col_offset (col_offset + len value) in
  Ok (Const r value).

Definition build_Str (ctx : SourceContext) (lineno col_offset : Z) (s : string)
  : outcome Expr :=
  let value := s in
  let r := make_range ctx lineno col_offset (col_offset + 1) in
  Ok (StringLiteral r value).

Definition build_Constant (ctx : SourceContext) (lineno col_offset : Z)
    (value : ast.constant) : outcome Expr :=
  match value with
  | ast.CNone | ast.CBool _ => build_NameConstant ctx lineno col_offset value
  | ast.CInt _ | ast.CFloat _ => build_Num ctx lineno col_offset value
  | ast.CStr s => build_Str ctx lineno col_offset s
  | ast.CEllipsis => build_Ellipsis ctx lineno col_offset
  | ast.CComplex _ | ast.CBytes _ =>
      let error_range := make_range ctx lineno col_offset
                           (col_offset + len (str_of_constant value)) in
      Raises (FrontendError (Some error_range) "Unknown Constant expression type")
  end.

(** The whitespace-skipping loop of [build_Attribute].  Each turn reads
    one character further, so a [fuel] of the number of characters from
    [start_pos] to the end of the source is never used up: reading past
    the end raises [IndexError] first ([skip_whitespace_fuel]). *)
Fixpoint skip_whitespace (src : string) (fuel : nat) (start_pos : Z) : outcome Z :=
  match get_char src start_pos with
  | None => Raises (IndexError "index out of range")
  | Some c =>
      if in_whitespace c then
        match fuel with
        | O => Raises (IndexError "index out of range")
        | S fuel' => skip_whitespace src fuel' (start_pos + 1)
        end
      else Ok start_pos
  end.

(** *** Handlers of composite nodes

    As in the module, the handlers reach their sub-expressions through
    the dispatcher [build_expr]. *)

Section Handlers.

Variable build_expr : SourceContext -> ast.expr -> outcome Expr.

Definition build_Attribute (ctx : SourceContext) (value : ast.expr) (attr : string)
  : outcome Expr :=
  base <- build_expr ctx value ;;
  let src := encode_utf8 (source ctx) in
  let start_pos := end_ (range base) + 1 in
  start_pos <- skip_whitespace src (Z.to_nat (len src - start_pos)) start_pos ;;
  let end_pos := start_pos + len attr in
  let name_range := make_raw_range ctx start_pos end_pos in
  Ok (Select base (Ident name_range attr)).

Definition build_keyword (ctx : SourceContext) (kw : ast.keyword) : outcome attribute_t :=
  match kw with
  | ast.mk_keyword arg value =>
      kw_expr <- build_expr ctx value ;;
      match arg with
      | None | Some EmptyString =>
          Raises (NotSupportedError (Some (range kw_expr))
                    "keyword-arg expansion is not supported")
      | Some name => Ok (Attribute (Ident (range kw_expr) name) kw_expr)
      end
  end.

Definition build_Call (ctx : SourceContext) (func : ast.expr) (args : list ast.expr)
    (starargs : option ast.expr) (keywords : list ast.keyword) : outcome Expr :=
  func <- build_expr ctx func ;;
  args <- mapM (build_expr ctx) args ;;
  args <- match starargs with
          | Some starargs =>
              stararg_expr <- build_expr ctx starargs ;;
              Ok (args ++ [Starred (range stararg_expr) stararg_expr])%list
          | None => Ok args
          end ;;
  kwargs <- mapM (build_keyword ctx) keywords ;;
  Ok (Apply func args kwargs).

Definition build_BinOp (ctx : SourceContext) (left : ast.expr) (op : ast.operator)
    (right : ast.expr) : outcome Expr :=
  lhs <- build_expr ctx left ;;
  rhs <- build_expr ctx right ;;
  if is_Div op && negb (uses_true_division ctx) then
    let err_range := make_raw_range ctx (end_ (range lhs)) (start (range rhs)) in
    Raises (FrontendError (Some err_range)
              ("Division of ints in TorchScript uses Python 3 true "
               ++ "division semantics. Please put `from __future__ "
               ++ "import division` at the top of your file"))
  else
    match binop_map op with
    | None =>
        let err_range := make_raw_range ctx (end_ (range lhs)) (start (range rhs)) in
        Raises (NotSupportedError (Some err_range)
                  ("unsupported binary operator: " ++ ast.operator_name op))
    | Some op_token => Ok (BinOp op_token lhs rhs)
    end.

Definition build_UnaryOp (ctx : SourceContext) (lineno col_offset : Z)
    (op : ast.unaryop) (operand : ast.expr) : outcome Expr :=
  sub_expr <- build_expr ctx operand ;;
  let op_token := unop_map op in
  op_token_len <- len_opt op_token ;;
  let r := make_range ctx lineno col_offset (col_offset + op_token_len) in
  match op_token with
  | None =>
      let err_range := make_raw_range ctx (start r) (end_ (range sub_expr)) in
      Raises (NotSupportedError (Some err_range)
                ("unsupported unary operator: " ++ ast.unaryop_name op))
  | Some op_token => Ok (UnaryOp r op_token sub_expr)
  end.

Definition build_BoolOp (ctx : SourceContext) (op : ast.boolop)
    (values : list ast.expr) : outcome Expr :=
  if Z.of_nat (List.length values) <? 2 then
    Raises (AssertionError ("expected at least 2 values in BoolOp, but got "
                            ++ str_of_int (Z.of_nat (List.length values))))
  else
    sub_exprs <- mapM (build_expr ctx) values ;;
    match sub_exprs with
    | sub0 :: sub1 :: _ =>
        match boolop_map op with
        | None =>
            let err_range := make_raw_range ctx (end_ (range sub0)) (start (range sub1)) in
            Raises (NotSupportedError (Some err_range)
                      ("unsupported boolean operator: " ++ ast.boolop_name op))
        | Some op_token =>
            Ok (fold_left (fun lhs rhs => BinOp op_token lhs rhs) (tl sub_exprs) sub0)
        end
    | _ => Raises (IndexError "list index out of range")
    end.

Definition build_IfExp (ctx : SourceContext) (test body orelse : ast.expr)
  : outcome Expr :=
  test <- build_expr ctx test ;;
  body <- build_expr ctx body ;;
  orelse <- build_expr ctx orelse ;;
  Ok (TernaryIf test body orelse).

(** One turn of the loop of [build_Compare] up to [cmp_expr]. *)
Definition build_cmp_expr (ctx : SourceContext) (lhs : Expr) (op : ast.cmpop)
    (rhs : Expr) : outcome Expr :=
  let op_token := cmpop_map op in
  let r := make_raw_range ctx (end_ (range lhs)) (start (range rhs)) in
  match op_token with
  | None =>
      Raises (NotSupportedError (Some r)
                ("unsupported comparison operator: " ++ ast.cmpop_name op))
  | Some op_token =>
      if is_NotIn op then
        let in_expr := BinOp "in" lhs rhs in
        Ok (UnaryOp r "not" in_expr)
      else Ok (BinOp op_token lhs rhs)
  end.

(** The turns of the loop after the first, where [result] is set. *)
Fixpoint build_Compare_loop (ctx : SourceContext) (result : Expr)
    (turns : list (Expr * ast.cmpop * Expr)) : outcome Expr :=
  match turns with
  | [] => Ok result
  | (lhs, op_, rhs) :: turns' =>
      cmp_expr <- build_cmp_expr ctx lhs op_ rhs ;;
      build_Compare_loop ctx (BinOp "and" result cmp_expr) turns'
  end.

(** [operands] is [[left; comparator1] ++ comparators] built in order;
    the first turn of the loop, the one that finds [result is None], is
    written out. *)
Definition build_Compare (ctx : SourceContext) (left : ast.expr)
    (op1 : ast.cmpop) (comparator1 : ast.expr)
    (ops : list ast.cmpop) (comparators : list ast.expr) : outcome Expr :=
  operand0 <- build_expr ctx left ;;
  operand1 <- build_expr ctx comparator1 ;;
  operands' <- mapM (build_expr ctx) comparators ;;
  cmp_expr <- build_cmp_expr ctx operand0 op1 operand1 ;;
  build_Compare_loop ctx cmp_expr (zip3 (operand1 :: operands') ops operands').

(** The nested helpers of [build_Subscript]. *)
Definition build_SliceExpr (ctx : SourceContext) (base : Expr)
    (lower upper step : option ast.expr) : outcome Expr :=
  lower <- optM (build_expr ctx) lower ;;
  upper <- optM (build_expr ctx) upper ;;
  step <- optM (build_expr ctx) step ;;
  Ok (SliceExpr (range base) lower upper step).

Definition is_Tuple_or_List (e : ast.expr) : bool :=
  match e with
  | ast.Tuple _ _ _ | ast.List _ _ _ => true
  | _ => false
  end.

Definition build_Index (ctx : SourceContext) (base : Expr) (value : ast.expr)
  : outcome Expr :=
  if is_Tuple_or_List value then
    Raises (NotSupportedError (Some (range base))
              ("slicing multiple dimensions with "
               ++ "sequences not supported yet"))
  else build_expr ctx value.

Definition build_ExtSlice_dim (ctx : SourceContext) (base : Expr) (dim : ast.slice)
  : outcome Expr :=
  match dim with
  | ast.Index value => build_Index ctx base value
  | ast.Slice lower upper step => build_SliceExpr ctx base lower upper step
  | ast.SliceEllipsis => Ok (Dots (range base))
  | ast.ExtSlice _ =>
      Raises (NotSupportedError (Some (range base))
                ("slicing multiple dimensions with "
                 ++ "<class '_ast.ExtSlice'> not supported"))
  end.

Definition build_ExtSlice (ctx : SourceContext) (base : Expr) (dims : list ast.slice)
  : outcome (list Expr) :=
  mapM (build_ExtSlice_dim ctx base) dims.

Definition build_Subscript (ctx : SourceContext) (value : ast.expr)
    (slice_ : ast.slice) : outcome Expr :=
  base <- build_expr ctx value ;;
  match slice_ with
  | ast.Index (ast.Tuple _ _ elts) =>
      indices <- mapM (build_expr ctx) elts ;;
      Ok (Subscript base indices)
  | ast.Index value =>
      index <- build_expr ctx value ;;
      Ok (Subscript base [index])
  | ast.Slice lower upper step =>
      slice_expr <- build_SliceExpr ctx base lower upper step ;;
      Ok (Subscript base [slice_expr])
  | ast.ExtSlice dims =>
      sub_exprs <- build_ExtSlice ctx base dims ;;
      Ok (Subscript base sub_exprs)
  | ast.SliceEllipsis =>
      Raises (NotSupportedError (Some (range base)) "ellipsis is not supported")
  end.

Definition build_List (ctx : SourceContext) (lineno col_offset : Z)
    (elts : list ast.expr) : outcome Expr :=
  let r := make_range ctx lineno col_offset (col_offset + 1) in
  elts <- mapM (build_expr ctx) elts ;;
  Ok (ListLiteral r elts).

Definition build_Tuple (ctx : SourceContext) (lineno col_offset : Z)
    (elts : list ast.expr) : outcome Expr :=
  let r := make_range ctx lineno col_offset (col_offset + 1) in
  elts <- mapM (build_expr ctx) elts ;;
  Ok (TupleLiteral r elts).

Definition build_Dict (ctx : SourceContext) (lineno col_offset : Z)
    (keys : list (option ast.expr)) (values : list ast.expr) : outcome Expr :=
  let r := make_range ctx lineno col_offset (col_offset + 1) in
  keys <- mapM (Builder_call build_expr ctx) keys ;;
  values <- mapM (build_expr ctx) values ;;
  Ok (DictLiteral r keys values).

(** The loop of [build_JoinedStr] over [expr.values], threading the
    template [s] and the arguments [args].  On Python 3.8 and later a
    string segment is a [Constant] holding a [str], which
    [isinstance(value, ast.Str)] accepts. *)
Fixpoint build_JoinedStr_loop (ctx : SourceContext) (values : list ast.expr)
    (s : string) (args : list Expr) : outcome (string * list Expr) :=
  match values with
  | [] => Ok (s, args)
  | value :: values' =>
      let r := make_range ctx (ast.expr_lineno value) (ast.expr_col_offset value)
                 (ast.expr_col_offset value + 1) in
      match value with
      | ast.FormattedValue _ _ inner conversion format_spec =>
          if negb (conversion =? -1) then
            Raises (NotSupportedError (Some r) "Don't support conversion in JoinedStr")
          else
            match format_spec with
            | Some _ =>
                Raises (NotSupportedError (Some r) "Don't support formatting in JoinedStr")
            | None =>
                arg <- build_expr ctx inner ;;
                build_JoinedStr_loop ctx values' (s ++ "{}") (args ++ [arg])%list
            end
      | ast.Str _ _ seg | ast.Constant _ _ (ast.CStr seg) =>
          build_JoinedStr_loop ctx values' (s ++ seg) args
      | _ => Raises (NotSupportedError (Some r) "Unsupported value in JoinedStr")
      end
  end.

Definition build_JoinedStr (ctx : SourceContext) (lineno col_offset : Z)
    (values : list ast.expr) : outcome Expr :=
  '(s, args) <- build_JoinedStr_loop ctx values "" [] ;;
  let r := make_range ctx lineno col_offset (col_offset + 1) in
  Ok (Apply (Select (StringLiteral r s) (Ident r "format")) args []).

Definition build_ListComp (ctx : SourceContext) (lineno col_offset : Z)
    (elt : ast.expr) (generators : list ast.comprehension) : outcome Expr :=
  let r := make_range ctx lineno col_offset col_offset in
  if Z.of_nat (List.length generators) >? 1 then
    Raises (NotSupportedError (Some r)
              "multiple comprehension generators not supported yet")
  else
    match generators with
    | [] => Raises (IndexError "list index out of range")
    | ast.mk_comprehension target iter ifs :: _ =>
        if negb (Z.of_nat (List.length ifs) =? 0) then
          Raises (NotSupportedError (Some r) "comprehension ifs not supported yet")
        else
          elt_expr <- build_expr ctx elt ;;
          target_expr <- build_expr ctx target ;;
          iter_expr <- build_expr ctx iter ;;
          Ok (ListComp r elt_expr target_expr iter_expr)
    end.

Definition build_Starred (ctx : SourceContext) (lineno col_offset : Z)
    (value : ast.expr) : outcome Expr :=
  let r := make_range ctx lineno col_offset (col_offset + 1) in
  value <- build_expr ctx value ;;
  Ok (Starred r value).

End Handlers.

End ExprBuilder.

(** The dispatcher [build_expr = ExprBuilder()]: the handler of the
    node's class, and [UnsupportedNodeError] for a class without one. *)
Fixpoint build_expr (ctx : SourceContext) (node : ast.expr) {struct node}
  : outcome Expr :=
  match node with
  | ast.Attribute _ _ value attr =>
      ExprBuilder.build_Attribute build_expr ctx value attr
  | ast.Call _ _ func args starargs keywords =>
      ExprBuilder.build_Call build_expr ctx func args starargs keywords
  | ast.Ellipsis lineno col_offset =>
      ExprBuilder.build_Ellipsis ctx lineno col_offset
  | ast.Name lineno col_offset id =>
      ExprBuilder.build_Name ctx lineno col_offset id
  | ast.NameConstant lineno col_offset value =>
      ExprBuilder.build_NameConstant ctx lineno col_offset value
  | ast.BinOp _ _ left_ op right_ =>
      ExprBuilder.build_BinOp build_expr ctx left_ op right_
  | ast.UnaryOp lineno col_offset op operand =>
      ExprBuilder.build_UnaryOp build_expr ctx lineno col_offset op operand
  | ast.BoolOp _ _ op values =>
      ExprBuilder.build_BoolOp build_expr ctx op values
  | ast.IfExp _ _ test body orelse =>
      ExprBuilder.build_IfExp build_expr ctx test body orelse
  | ast.Compare _ _ left_ op1 comparator1 ops comparators =>
      ExprBuilder.build_Compare build_expr ctx left_ op1 comparator1 ops comparators
  | ast.Subscript _ _ value slice_ =>
      ExprBuilder.build_Subscript build_expr ctx value slice_
  | ast.List lineno col_offset elts =>
      ExprBuilder.build_List build_expr ctx lineno col_offset elts
  | ast.Tuple lineno col_offset elts =>
      ExprBuilder.build_Tuple build_expr ctx lineno col_offset elts
  | ast.Dict lineno col_offset keys values =>
      ExprBuilder.build_Dict build_expr ctx lineno col_offset keys values
  | ast.Num lineno col_offset n =>
      ExprBuilder.build_Num ctx lineno col_offset n
  | ast.Constant lineno col_offset value =>
      ExprBuilder.build_Constant ctx lineno col_offset value
  | ast.Str lineno col_offset s =>
      ExprBuilder.build_Str ctx lineno col_offset s
  | ast.JoinedStr lineno col_offset values =>
      ExprBuilder.build_JoinedStr build_expr ctx lineno col_offset values
  | ast.ListComp lineno col_offset elt generators =>
      ExprBuilder.build_ListComp build_expr ctx lineno col_offset elt generators
  | ast.Starred lineno col_offset value =>
      ExprBuilder.build_Starred build_expr ctx lineno col_offset value
  | ast.FormattedValue lineno col_offset _ _ _ =>
      Raises (new_UnsupportedNodeError ctx "FormattedValue"
                (Some (lineno, col_offset)) "")
  | ast.OtherExpr class_name lineno col_offset =>
      Raises (new_UnsupportedNodeError ctx class_name
                (Some (lineno, col_offset)) "")
  end.

(** ** WithItemBuilder *)

Module WithItemBuilder.

Definition build_withitem (ctx : SourceContext) (item : ast.withitem)
  : outcome withitem_t :=
  match item with
  | ast.mk_withitem context_expr optional_vars =>
      let lineno := ast.expr_lineno context_expr in
      let start_ := ast.expr_col_offset context_expr in
      let end__ := start_ + len (table_get pretty_node_names "With" "") in
      let op_vars := optional_vars in
      let r := make_range ctx lineno start_ end__ in
      target <- build_expr ctx context_expr ;;
      var <- optM (build_expr ctx) op_vars ;;
      Ok (WithItem r target var)
  end.

End WithItemBuilder.

Definition build_withitem : SourceContext -> ast.withitem -> outcome withitem_t :=
  WithItemBuilder.build_withitem.

Definition build_withitems (ctx : SourceContext) (items : list ast.withitem)
  : outcome (list withitem_t) :=
  mapM (build_withitem ctx) items.

(** ** StmtBuilder *)

(** [filter(None, stmts)]: the statements that are not [None]. *)
Fixpoint filter_None {A : Type} (l : list (option A)) : list A :=
  match l with
  | [] => []
  | Some a :: l' => a :: filter_None l'
  | None :: l' => filter_None l'
  end.

(** [build_stmts] over a given statement dispatcher. *)
Definition build_stmts_with
    (build_stmt : SourceContext -> ast.stmt -> outcome (option Stmt))
    (ctx : SourceContext) (stmts : list ast.stmt) : outcome (list Stmt) :=
  stmts <- mapM (build_stmt ctx) stmts ;;
  Ok (filter_None stmts).

Module StmtBuilder.

Definition augassign_map (op : ast.operator) : option string :=
  match op with
  | ast.Add => Some "+"
  | ast.Sub => Some "-"
  | ast.Mult => Some "*"
  | ast.Div => Some "/"
  | ast.Mod => Some "%"
  | _ => None
  end.

Definition is_Str (value : ast.expr) : bool :=
  String.eqb (ast.expr_class_name value) "Str".

Definition build_Expr (ctx : SourceContext) (value : ast.expr)
  : outcome (option Stmt) :=
  if is_Str value then
    Ok None
  else
    e <- build_expr ctx value ;;
    Ok (Some (ExprStmt e)).

Definition build_Assign (ctx : SourceContext) (targets : list ast.expr)
    (value : ast.expr) : outcome Stmt :=
  rhs <- build_expr ctx value ;;
  lhs <- mapM (build_expr ctx) targets ;;
  Ok (Assign lhs rhs None).

Definition build_AnnAssign (ctx : SourceContext) (lineno col_offset : Z)
    (target annotation : ast.expr) (value : option ast.expr) : outcome Stmt :=
  match value with
  | None =>
      Raises (new_UnsupportedNodeError ctx "AnnAssign" (Some (lineno, col_offset))
                "without assigned value")
  | Some value =>
      rhs <- build_expr ctx value ;;
      lhs <- build_expr ctx target ;;
      the_type <- build_expr ctx annotation ;;
      Ok (Assign [lhs] rhs (Some the_type))
  end.

Definition build_Delete (ctx : SourceContext) (lineno col_offset : Z)
    (targets : list ast.expr) : outcome Stmt :=
  if Z.of_nat (List.length targets) >? 1 then
    let source_range := make_range ctx lineno col_offset (col_offset + len "del") in
    Raises (NotSupportedError (Some source_range)
              "del with more than one operand is not supported")
  else
    match targets with
    | [] => Raises (IndexError "list index out of range")
    | target :: _ => e <- build_expr ctx target ;; Ok (Delete e)
    end.

Definition build_Return (ctx : SourceContext) (lineno col_offset : Z)
    (value : option ast.expr) : outcome Stmt :=
  let r := make_range ctx lineno col_offset (col_offset + len "return") in
  value <- optM (build_expr ctx) value ;;
  Ok (Return r value).

Definition build_Raise (ctx : SourceContext) (lineno col_offset : Z)
    (exc : option ast.expr) : outcome Stmt :=
  let r := make_range ctx lineno col_offset (col_offset + len "raise") in
  expr <- Builder_call build_expr ctx exc ;;
  Ok (Raise r expr).

Definition build_Assert (ctx : SourceContext) (lineno col_offset : Z)
    (test : ast.expr) (msg : option ast.expr) : outcome Stmt :=
  let r := make_range ctx lineno col_offset (col_offset + len "assert") in
  test <- build_expr ctx test ;;
  msg <- optM (build_expr ctx) msg ;;
  Ok (Assert r test msg).

Definition build_AugAssign (ctx : SourceContext) (target : ast.expr)
    (op : ast.operator) (value : ast.expr) : outcome Stmt :=
  lhs <- build_expr ctx target ;;
  rhs <- build_expr ctx value ;;
  match augassign_map op with
  | Some op_token => Ok (AugAssign lhs op_token rhs)
  | None =>
      r <- find_before ctx (start (range rhs)) "=" (-1, 0) ;;
      Raises (NotSupportedError (Some r)
                ("unsupported kind of augumented assignment: "
                 ++ ast.operator_name op))
  end.

Definition build_Print (ctx : SourceContext) (lineno col_offset : Z)
    (dest : option ast.expr) (values : list ast.expr) : outcome Stmt :=
  let r := make_range ctx lineno col_offset (col_offset + len "print") in
  match dest with
  | Some _ =>
      Raises (NotSupportedError (Some r)
                "print statements with non-default destinations aren't supported")
  | None =>
      args <- mapM (build_expr ctx) values ;;
      Ok (ExprStmt (Apply (Var (Ident r "print")) args []))
  end.

Definition build_Pass (ctx : SourceContext) (lineno col_offset : Z) : outcome Stmt :=
  let r := make_range ctx lineno col_offset (col_offset + len "pass") in
  Ok (Pass r).

Definition build_Break (ctx : SourceContext) (lineno col_offset : Z) : outcome Stmt :=
  let r := make_range ctx lineno col_offset (col_offset + len "break") in
  Ok (Break r).

Definition build_Continue (ctx : SourceContext) (lineno col_offset : Z) : outcome Stmt :=
  let r := make_range ctx lineno col_offset (col_offset + len "continue") in
  Ok (Continue r).

(** *** Handlers of statements that hold blocks *)

Section Handlers.

Variable build_stmts : SourceContext -> list ast.stmt -> outcome (list Stmt).

Definition build_While (ctx : SourceContext) (lineno col_offset : Z)
    (test : ast.expr) (body orelse : list ast.stmt) : outcome Stmt :=
  match orelse with
  | _ :: _ =>
      Raises (NotSupportedError None "else branches of while loops aren't supported")
  | [] =>
      let r := make_range ctx lineno col_offset (col_offset + len "while") in
      cond <- build_expr ctx test ;;
      body <- build_stmts ctx body ;;
      Ok (While r cond body)
  end.

Definition build_For (ctx : SourceContext) (lineno col_offset : Z)
    (target iter : ast.expr) (body : list ast.stmt) : outcome Stmt :=
  let r := make_range ctx lineno col_offset (col_offset + len "for") in
  target <- build_expr ctx target ;;
  iter <- build_expr ctx iter ;;
  body <- build_stmts ctx body ;;
  Ok (For r [target] [iter] body).

Definition build_If (ctx : SourceContext) (lineno col_offset : Z)
    (test : ast.expr) (body orelse : list ast.stmt) : outcome Stmt :=
  let r := make_range ctx lineno col_offset (col_offset + len "if") in
  cond <- build_expr ctx test ;;
  body <- build_stmts ctx body ;;
  orelse <- build_stmts ctx orelse ;;
  Ok (If r cond body orelse).

Definition build_With (ctx : SourceContext) (lineno col_offset : Z)
    (items : list ast.withitem) (body : list ast.stmt) : outcome Stmt :=
  let r := make_range ctx lineno col_offset (col_offset + len "with") in
  items <- build_withitems ctx items ;;
  body <- build_stmts ctx body ;;
  Ok (With r items body).

End Handlers.

End StmtBuilder.

(** A handler that returns a tree view. *)
Definition returns {A : Type} (m : outcome A) : outcome (option A) :=
  a <- m ;; Ok (Some a).

(** The dispatcher [build_stmt = StmtBuilder()]. *)
Fixpoint build_stmt (ctx : SourceContext) (node : ast.stmt) {struct node}
  : outcome (option Stmt) :=
  let build_stmts := build_stmts_with build_stmt in
  match node with
  | ast.Expr _ _ value => StmtBuilder.build_Expr ctx value
  | ast.Assign _ _ targets value =>
      returns (StmtBuilder.build_Assign ctx targets value)
  | ast.AnnAssign lineno col_offset target annotation value =>
      returns (StmtBuilder.build_AnnAssign ctx lineno col_offset target annotation value)
  | ast.Delete lineno col_offset targets =>
      returns (StmtBuilder.build_Delete ctx lineno col_offset targets)
  | ast.Return lineno col_offset value =>
      returns (StmtBuilder.build_Return ctx lineno col_offset value)
  | ast.Raise lineno col_offset exc =>
      returns (StmtBuilder.build_Raise ctx lineno col_offset exc)
  | ast.Assert lineno col_offset test msg =>
      returns (StmtBuilder.build_Assert ctx lineno col_offset test msg)
  | ast.AugAssign _ _ target op value =>
      returns (StmtBuilder.build_AugAssign ctx target op value)
  | ast.While lineno col_offset test body orelse =>
      returns (StmtBuilder.build_While build_stmts ctx lineno col_offset test body orelse)
  | ast.For lineno col_offset target iter body _ =>
      returns (StmtBuilder.build_For build_stmts ctx lineno col_offset target iter body)
  | ast.If lineno col_offset test body orelse =>
      returns (StmtBuilder.build_If build_stmts ctx lineno col_offset test body orelse)
  | ast.Print lineno col_offset dest values =>
      returns (StmtBuilder.build_Print ctx lineno col_offset dest values)
  | ast.Pass lineno col_offset =>
      returns (StmtBuilder.build_Pass ctx lineno col_offset)
  | ast.Break lineno col_offset =>
      returns (StmtBuilder.build_Break ctx lineno col_offset)
  | ast.Continue lineno col_offset =>
      returns (StmtBuilder.build_Continue ctx lineno col_offset)
  | ast.With lineno col_offset items body =>
      returns (StmtBuilder.build_With build_stmts ctx lineno col_offset items body)
  | ast.OtherStmt class_name lineno col_offset =>
      Raises (new_UnsupportedNodeError ctx class_name (Some (lineno, col_offset)) "")
  end.

Definition build_stmts : SourceContext -> list ast.stmt -> outcome (list Stmt) :=
  build_stmts_with build_stmt.

(** ** Parameter lists *)

Definition _vararg_kwarg_err : string :=
  "Compiled functions can't take variable number of arguments "
  ++ "or use keyword-only arguments with defaults".

Definition build_param (ctx : SourceContext) (py_arg : ast.arg)
    (self_name : option string) (kwarg_only : bool) : outcome param_t :=
  let name := ast.arg_name py_arg in
  let r := make_range ctx (ast.arg_lineno py_arg) (ast.arg_col_offset py_arg)
             (ast.arg_col_offset py_arg + len name) in
  annotation_expr <-
    match ast.annotation py_arg, self_name with
    | Some annotation, _ => build_expr ctx annotation
    | None, Some self_name =>
        if String.eqb name "self" then Ok (Var (Ident r self_name))
        else Ok (EmptyTypeAnnotation r)
    | None, None => Ok (EmptyTypeAnnotation r)
    end ;;
  Ok (Param annotation_expr (Ident r name) kwarg_only).

(** The loop of [build_param_list] over [py_args.kw_defaults]: it ends
    at the first default that is not [None]. *)
Fixpoint check_kw_defaults (ctx : SourceContext) (kw_defaults : list (option ast.expr))
  : outcome unit :=
  match kw_defaults with
  | [] => Ok tt
  | None :: kw_defaults' => check_kw_defaults ctx kw_defaults'
  | Some arg :: _ =>
      e <- build_expr ctx arg ;;
      let ctx_range := range e in
      Raises (NotSupportedError (Some ctx_range) _vararg_kwarg_err)
  end.

(** The range both variadic checks compute for the offending
    parameter. *)
Definition variadic_range (ctx : SourceContext) (expr : ast.arg) : Range :=
  make_range ctx (ast.arg_lineno expr) (ast.arg_col_offset expr - 1)
             (ast.arg_col_offset expr + len (ast.arg_name expr)).

Definition build_param_list (ctx : SourceContext) (py_args : ast.arguments)
    (self_name : option string) : outcome (list param_t) :=
  match ast.kwarg py_args with
  | Some expr =>
      Raises (NotSupportedError (Some (variadic_range ctx expr)) _vararg_kwarg_err)
  | None =>
      match ast.vararg py_args with
      | Some expr =>
          Raises (NotSupportedError (Some (variadic_range ctx expr)) _vararg_kwarg_err)
      | None =>
          _ <- check_kw_defaults ctx (ast.kw_defaults py_args) ;;
          result <- mapM (fun arg => build_param ctx arg self_name false)
                         (ast.args py_args) ;;
          result' <- mapM (fun arg => build_param ctx arg self_name true)
                          (ast.kwonlyargs py_args) ;;
          Ok (result ++ result')%list
      end
  end.

(** ** Reserved names *)

Definition _reserved_names : list string := ["print"].

Definition is_reserved_name (name : string) : bool :=
  startswith name _reserved_prefix
  || existsb (String.eqb name) _reserved_names.

(** ** Definitions

    [build_def] and the part of [get_jit_def] that follows the retrieval
    and the parsing of the source, which belong to the host
    ([inspect], [textwrap.dedent], [ast.parse]). *)

Inductive decl_t : Type :=
| Decl (r : Range) (params : list param_t) (return_type : option Expr).

Inductive def_t : Type :=
| Def (name : ident_t) (decl : decl_t) (body : list Stmt).

Module FunctionDef.

Record t : Type := mk {
  lineno : Z;
  col_offset : Z;
  name : string;
  args : ast.arguments;
  body : list ast.stmt;
  decorator_list : list ast.expr;
  returns : option ast.expr
}.

End FunctionDef.

(** [s.split(sep, 1)[0]] for the newline: the first line of [s]. *)
Fixpoint first_line (s : string) : string :=
  match s with
  | EmptyString => EmptyString
  | String c s' =>
      if Ascii.eqb c "010"%char then EmptyString else String c (first_line s')
  end.

(** The tree [ast.parse] gives for the stub that replaces an unused
    function,
    [def unused_fn(self: Any):\n\traise RuntimeError("Cannot call @unused methods")].
    The message is a [Constant] on Python 3.8 and later and a [Str]
    before. *)
Definition unused_message (constant_nodes : bool) : ast.expr :=
  if constant_nodes
  then ast.Constant 2 20 (ast.CStr "Cannot call @unused methods")
  else ast.Str 2 20 "Cannot call @unused methods".

Definition unused_fn_def (constant_nodes : bool) : FunctionDef.t :=
  FunctionDef.mk 1 0 "unused_fn"
    (ast.mk_arguments [ast.mk_arg 1 14 "self" (Some (ast.Name 1 20 "Any"))]
                      None [] [] None)
    [ast.Raise 2 1
       (Some (ast.Call 2 7 (ast.Name 2 7 "RuntimeError")
                [unused_message constant_nodes] None []))]
    [] None.

(** [arg.annotation = annotation] *)
Definition set_annotation (annotation : option ast.expr) (a : ast.arg) : ast.arg :=
  ast.mk_arg (ast.arg_lineno a) (ast.arg_col_offset a) (ast.arg_name a) annotation.

(** The rewrite [get_jit_def] applies to a function that is to be
    dropped: the body of the stub, no variadic parameters, and the
    stub's annotation on every ordinary and keyword-only parameter. *)
Definition swap_unused (constant_nodes : bool) (fn_def : FunctionDef.t)
  : FunctionDef.t :=
  let stub := unused_fn_def constant_nodes in
  let annotation :=
    match ast.args (FunctionDef.args stub) with
    | a :: _ => ast.annotation a
    | [] => None
    end in
  let py_args := FunctionDef.args fn_def in
  FunctionDef.mk
    (FunctionDef.lineno fn_def) (FunctionDef.col_offset fn_def)
    (FunctionDef.name fn_def)
    (ast.mk_arguments
       (map (set_annotation annotation) (ast.args py_args))
       None
       (map (set_annotation annotation) (ast.kwonlyargs py_args))
       (ast.kw_defaults py_args)
       None)
    (FunctionDef.body stub)
    (FunctionDef.decorator_list fn_def)
    (FunctionDef.returns fn_def).

(** What [ast.parse] can deliver at the top level of the source of a
    function: a function definition or another statement. *)
Inductive toplevel : Type :=
| TopFunctionDef (fn_def : FunctionDef.t)
| TopStmt (s : ast.stmt).

(** [get_jit_def] raises [RuntimeError] itself, or hands over to
    [build_def]. *)
Inductive jit_def_result : Type :=
| RuntimeError (msg : string)
| Built (result : outcome def_t).

Section TypeComments.

(** The parser of legacy type comments and the merge of its declaration
    into the built one are native. *)
Variable parse_type_comment : string -> outcome decl_t.
Variable merge_type_from_type_comment : decl_t -> decl_t -> bool -> outcome decl_t.

Definition build_def (ctx : SourceContext) (py_def : FunctionDef.t)
    (type_line : option string) (def_name : string) (self_name : option string)
  : outcome def_t :=
  let body := FunctionDef.body py_def in
  let r := make_range ctx
             (FunctionDef.lineno py_def
              + Z.of_nat (List.length (FunctionDef.decorator_list py_def)))
             (FunctionDef.col_offset py_def)
             (FunctionDef.col_offset py_def + len "def") in
  param_list <- build_param_list ctx (FunctionDef.args py_def) self_name ;;
  return_type <- optM (build_expr ctx) (FunctionDef.returns py_def) ;;
  let decl := Decl r param_list return_type in
  let is_method := match self_name with Some _ => true | None => false end in
  decl <- match type_line with
          | Some type_line =>
              type_comment_decl <- parse_type_comment type_line ;;
              merge_type_from_type_comment decl type_comment_decl is_method
          | None => Ok decl
          end ;;
  body <- build_stmts ctx body ;;
  Ok (Def (Ident r def_name) decl body).

(** [get_jit_def] from the parsed source on.  [source], [file_lineno]
    and [filename] come from the host's source lookup, [dedent_src] and
    [py_ast_body] from dedenting and parsing it, [type_line] from the
    type-comment scan and [drop] from [should_drop(fn)];
    [constant_nodes] tells which tree the parser gives for the stub. *)
Definition get_jit_def (source filename : string) (file_lineno : Z)
    (dedent_src : string) (py_ast_body : list toplevel)
    (type_line : option string) (drop constant_nodes : bool)
    (def_name : string) (self_name : option string) : jit_def_result :=
  match py_ast_body with
  | [TopFunctionDef fn_def] =>
      let leading_whitespace_len :=
        len (first_line source) - len (first_line dedent_src) in
      let ctx := mkSourceContext source filename file_lineno
                                 leading_whitespace_len true in
      let fn_def := if drop then swap_unused constant_nodes fn_def else fn_def in
      Built (build_def ctx fn_def type_line def_name self_name)
  | _ => RuntimeError "Expected a single top-level function"
  end.

End TypeComments.

(** * Properties *)

(** ** The outcome monad and list comprehensions *)

Lemma bind_Ok {A B : Type} (m : outcome A) (k : A -> outcome B) (a : A) :
  m = Ok a -> bind m k = k a.
Proof. intros ->. reflexivity. Qed.

Lemma bind_Ok_inv {A B : Type} (m : outcome A) (k : A -> outcome B) (b : B) :
  bind m k = Ok b -> exists a, m = Ok a /\ k a = Ok b.
Proof. destruct m as [a|e]; simpl; [eauto | discriminate]. Qed.

Lemma mapM_length {A B : Type} (f : A -> outcome B) (l : list A) (bs : list B) :
  mapM f l = Ok bs -> List.length bs = List.length l.
Proof.
  revert bs. induction l as [|a l IH]; intros bs H; simpl in H.
  - injection H as <-. reflexivity.
  - destruct (f a) as [b|e]; simpl in H; [|discriminate].
    destruct (mapM f l) as [bs'|e]; simpl in H; [|discriminate].
    injection H as <-. simpl. f_equal. now apply IH.
Qed.

Lemma mapM_app {A B : Type} (f : A -> outcome B) (l1 l2 : list A) :
  mapM f (l1 ++ l2) =
  (bs1 <- mapM f l1 ;; bs2 <- mapM f l2 ;; Ok (bs1 ++ bs2)%list).
Proof.
  induction l1 as [|a l1 IH]; simpl.
  - destruct (mapM f l2); reflexivity.
  - destruct (f a) as [b|e]; simpl; [|reflexivity].
    rewrite IH. destruct (mapM f l1) as [bs1|e]; simpl; [|reflexivity].
    destruct (mapM f l2); reflexivity.
Qed.

(** Unfolding of the dispatchers at each node class. *)
Create HintDb handlers.

#[local] Hint Unfold
  ExprBuilder.build_Attribute ExprBuilder.build_Call
  ExprBuilder.build_BinOp ExprBuilder.build_UnaryOp
  ExprBuilder.build_BoolOp ExprBuilder.build_IfExp
  ExprBuilder.build_Compare ExprBuilder.build_Subscript
  ExprBuilder.build_List ExprBuilder.build_Tuple ExprBuilder.build_Dict
  ExprBuilder.build_JoinedStr ExprBuilder.build_ListComp
  ExprBuilder.build_Starred ExprBuilder.build_Ellipsis
  ExprBuilder.build_Num ExprBuilder.build_Str
  StmtBuilder.build_Expr StmtBuilder.build_Assign
  StmtBuilder.build_AnnAssign StmtBuilder.build_Delete
  StmtBuilder.build_Return StmtBuilder.build_Raise
  StmtBuilder.build_Assert StmtBuilder.build_AugAssign
  StmtBuilder.build_While StmtBuilder.build_For StmtBuilder.build_If
  StmtBuilder.build_Print StmtBuilder.build_Pass StmtBuilder.build_Break
  StmtBuilder.build_Continue StmtBuilder.build_With : handlers.

Ltac run_handler :=
  cbn [build_expr build_stmt]; autounfold with handlers.

Tactic Notation "run_handler" "in" hyp(H) :=
  cbn [build_expr build_stmt] in H; autounfold with handlers in H.

(** ** Comparison chains *)

(** The token of each comparison operator of the grammar. *)
Definition cmp_token (op : ast.cmpop) : string :=
  match op with
  | ast.Eq => "=="
  | ast.NotEq => "!="
  | ast.Lt => "<"
  | ast.LtE => "<="
  | ast.Gt => ">"
  | ast.GtE => ">="
  | ast.Is => "is"
  | ast.IsNot => "is not"
  | ast.In => "in"
  | ast.NotIn => "not in"
  end.

Lemma cmpop_map_supported (op : ast.cmpop) :
  ExprBuilder.cmpop_map op = Some (cmp_token op).
Proof. destruct op; reflexivity. Qed.

(** The pairwise comparison of two adjacent operands as the
    specification words it: [not in] is the negation of an [in]
    comparison, located at the gap between the operands; any other
    operator is a binary node of its token. *)
Definition pairwise_comparison (lhs : Expr) (op : ast.cmpop) (rhs : Expr) : Expr :=
  match op with
  | ast.NotIn =>
      UnaryOp (mkRange (end_ (range lhs)) (start (range rhs))) "not"
              (BinOp "in" lhs rhs)
  | _ => BinOp (cmp_token op) lhs rhs
  end.

(** The left-associated conjunction of a non-empty list of
    comparisons. *)
Definition conjunction (first : Expr) (rest : list Expr) : Expr :=
  fold_left (fun result cmp_expr => BinOp "and" result cmp_expr) rest first.

Lemma build_cmp_expr_pairwise (ctx : SourceContext) (lhs rhs : Expr) (op : ast.cmpop) :
  ExprBuilder.build_cmp_expr ctx lhs op rhs = Ok (pairwise_comparison lhs op rhs).
Proof. destruct op; reflexivity. Qed.

Lemma build_Compare_loop_conjunction (ctx : SourceContext)
    (turns : list (Expr * ast.cmpop * Expr)) (result : Expr) :
  ExprBuilder.build_Compare_loop ctx result turns =
  Ok (conjunction result
        (map (fun '(lhs, op, rhs) => pairwise_comparison lhs op rhs) turns)).
Proof.
  revert result. induction turns as [|[[lhs op] rhs] turns IH]; intros result.
  - reflexivity.
  - simpl. rewrite build_cmp_expr_pairwise. simpl. apply IH.
Qed.

(** C1. A comparison chain whose operands translate is desugared into the
    left-associated conjunction, by the logical [and], of the pairwise
    comparisons of adjacent operands, and every comparison operator is
    supported; [a < b < c] yields
    [BinOp(and, BinOp(<,a,b), BinOp(<,b,c))]; [a not in b] yields
    [UnaryOp(not, BinOp(in,a,b))]. *)
Theorem build_Compare_desugars (ctx : SourceContext) (lineno col_offset : Z)
    (left_ comparator1 : ast.expr) (op1 : ast.cmpop)
    (ops : list ast.cmpop) (comparators : list ast.expr)
    (a b : Expr) (rest : list Expr) :
  build_expr ctx left_ = Ok a ->
  build_expr ctx comparator1 = Ok b ->
  mapM (build_expr ctx) comparators = Ok rest ->
  build_expr ctx (ast.Compare lineno col_offset left_ op1 comparator1 ops comparators)
  = Ok (conjunction (pairwise_comparison a op1 b)
          (map (fun '(lhs, op, rhs) => pairwise_comparison lhs op rhs)
               (zip3 (b :: rest) ops rest)))
  /\ (forall op, ExprBuilder.cmpop_map op <> None)
  /\ (forall c, ops = [ast.Lt] -> op1 = ast.Lt -> rest = [c] ->
        build_expr ctx (ast.Compare lineno col_offset left_ op1 comparator1 ops comparators)
        = Ok (BinOp "and" (BinOp "<" a b) (BinOp "<" b c)))
  /\ (op1 = ast.NotIn -> comparators = [] ->
        exists r,
          build_expr ctx (ast.Compare lineno col_offset left_ op1 comparator1 ops comparators)
          = Ok (UnaryOp r "not" (BinOp "in" a b))).
Proof.
  intros Ha Hb Hrest.
  assert (Hgen :
    build_expr ctx (ast.Compare lineno col_offset left_ op1 comparator1 ops comparators)
    = Ok (conjunction (pairwise_comparison a op1 b)
            (map (fun '(lhs, op, rhs) => pairwise_comparison lhs op rhs)
                 (zip3 (b :: rest) ops rest)))).
  { run_handler. rewrite Ha. simpl. rewrite Hb. simpl. rewrite Hrest. simpl.
    rewrite build_cmp_expr_pairwise. simpl.
    apply build_Compare_loop_conjunction. }
  split; [exact Hgen|]. split.
  - intros op. rewrite cmpop_map_supported. discriminate.
  - split.
    + intros c -> -> ->. rewrite Hgen. reflexivity.
    + intros -> ->. simpl in Hrest. injection Hrest as <-.
      eexists. rewrite Hgen. destruct ops; reflexivity.
Qed.

Definition ctx_chain : SourceContext :=
  mkSourceContext "a < b < c" "chain.py" 1 0 true.

Lemma build_Compare_desugars_witness :
  build_expr ctx_chain
    (ast.Compare 1 0 (ast.Name 1 0 "a") ast.Lt (ast.Name 1 4 "b")
                 [ast.Lt] [ast.Name 1 8 "c"])
  = Ok (BinOp "and"
          (BinOp "<" (Var (Ident (mkRange 0 1) "a")) (Var (Ident (mkRange 4 5) "b")))
          (BinOp "<" (Var (Ident (mkRange 4 5) "b")) (Var (Ident (mkRange 8 9) "c")))).
Proof.
  exact (proj1 (build_Compare_desugars ctx_chain 1 0
                  (ast.Name 1 0 "a") (ast.Name 1 4 "b") ast.Lt
                  [ast.Lt] [ast.Name 1 8 "c"]
                  (Var (Ident (mkRange 0 1) "a")) (Var (Ident (mkRange 4 5) "b"))
                  [Var (Ident (mkRange 8 9) "c")]
                  eq_refl eq_refl eq_refl)).
Defined.

(** ** Boolean-operator chains *)

Definition bool_token (op : ast.boolop) : string :=
  match op with
  | ast.And => "and"
  | ast.Or => "or"
  end.

(** The left fold of [n] operands into [n - 1] nested binary nodes of
    one operator. *)
Definition left_fold (op_token : string) (first : Expr) (rest : list Expr) : Expr :=
  fold_left (fun lhs rhs => BinOp op_token lhs rhs) rest first.

(** Number of binary nodes of [op_token] along the left spine. *)
Fixpoint left_depth (op_token : string) (e : Expr) : nat :=
  match e with
  | BinOp kind lhs _ =>
      if String.eqb kind op_token then S (left_depth op_token lhs) else O
  | _ => O
  end.

Lemma left_fold_snoc (op_token : string) (first : Expr) (rest : list Expr) (x : Expr) :
  left_fold op_token first (rest ++ [x]) = BinOp op_token (left_fold op_token first rest) x.
Proof. unfold left_fold. rewrite fold_left_app. reflexivity. Qed.

Lemma left_depth_left_fold (op_token : string) (first : Expr) (rest : list Expr) :
  left_depth op_token (left_fold op_token first rest)
  = (List.length rest + left_depth op_token first)%nat.
Proof.
  induction rest as [|x rest IH] using rev_ind.
  - reflexivity.
  - rewrite left_fold_snoc. simpl. rewrite String.eqb_refl, IH.
    rewrite length_app. simpl. lia.
Qed.

(** C2. A boolean-operator chain of [n >= 2] operands that translate is
    the left fold of the operands into nested binary nodes of the
    chain's operator, [n - 1] of them on top of the first operand, so
    that [a or b or c] yields [BinOp(or, BinOp(or, a, b), c)]; a chain
    of fewer than 2 operands raises [AssertionError], which is not a
    frontend diagnostic. *)
Theorem build_BoolOp_left_fold (ctx : SourceContext) (lineno col_offset : Z)
    (op : ast.boolop) (values : list ast.expr) :
  (forall first rest,
      mapM (build_expr ctx) values = Ok (first :: rest) ->
      (2 <= List.length values)%nat ->
      build_expr ctx (ast.BoolOp lineno col_offset op values)
      = Ok (left_fold (bool_token op) first rest)
      /\ left_depth (bool_token op) (left_fold (bool_token op) first rest)
         = (List.length values - 1 + left_depth (bool_token op) first)%nat
      /\ (forall a b c, first = a -> rest = [b; c] -> op = ast.Or ->
            build_expr ctx (ast.BoolOp lineno col_offset op values)
            = Ok (BinOp "or" (BinOp "or" a b) c)))
  /\ ((List.length values < 2)%nat ->
      exists msg,
        build_expr ctx (ast.BoolOp lineno col_offset op values)
        = Raises (AssertionError msg)
        /\ is_FrontendError (AssertionError msg) = false).
Proof.
  split.
  - intros first rest Hvalues Hlen.
    assert (Hgen : build_expr ctx (ast.BoolOp lineno col_offset op values)
                   = Ok (left_fold (bool_token op) first rest)).
    { run_handler.
      destruct (Z.of_nat (List.length values) <? 2) eqn:Hlt;
        [apply Z.ltb_lt in Hlt; lia|].
      rewrite Hvalues. simpl.
      pose proof (mapM_length _ _ _ Hvalues) as Hl.
      destruct rest as [|second rest]; [simpl in Hl; lia|].
      destruct op; reflexivity. }
    split; [exact Hgen|]. split.
    + rewrite left_depth_left_fold.
      pose proof (mapM_length _ _ _ Hvalues) as Hl. simpl in Hl. lia.
    + intros a b c -> -> ->. rewrite Hgen. reflexivity.
  - intros Hlen. eexists. split; [|reflexivity].
    run_handler.
    destruct (Z.of_nat (List.length values) <? 2) eqn:Hlt;
      [reflexivity | apply Z.ltb_ge in Hlt; lia].
Qed.

Definition ctx_or : SourceContext :=
  mkSourceContext "a or b or c" "chain.py" 1 0 true.

Lemma build_BoolOp_left_fold_witness :
  build_expr ctx_or
    (ast.BoolOp 1 0 ast.Or [ast.Name 1 0 "a"; ast.Name 1 5 "b"; ast.Name 1 10 "c"])
  = Ok (BinOp "or"
          (BinOp "or" (Var (Ident (mkRange 0 1) "a")) (Var (Ident (mkRange 5 6) "b")))
          (Var (Ident (mkRange 10 11) "c")))
  /\ (exists msg,
        build_expr ctx_or (ast.BoolOp 1 0 ast.Or [ast.Name 1 0 "a"])
        = Raises (AssertionError msg)).
Proof.
  split.
  - exact (proj1 (proj1 (build_BoolOp_left_fold ctx_or 1 0 ast.Or
                    [ast.Name 1 0 "a"; ast.Name 1 5 "b"; ast.Name 1 10 "c"])
                    (Var (Ident (mkRange 0 1) "a"))
                    [Var (Ident (mkRange 5 6) "b"); Var (Ident (mkRange 10 11) "c")]
                    eq_refl (le_S _ _ (le_n 2)))).
  - destruct (proj2 (build_BoolOp_left_fold ctx_or 1 0 ast.Or [ast.Name 1 0 "a"])
                (le_n 2)) as [msg [H _]].
    exists msg. exact H.
Defined.

(** ** Division *)

Definition true_division_msg : string :=
  "Division of ints in TorchScript uses Python 3 true division semantics. "
  ++ "Please put `from __future__ import division` at the top of your file".

(** C4. For a division whose operands translate: without the context's
    true-division flag the translation raises a [FrontendError] that is
    not a [NotSupportedError], located at the gap from the end of the
    left operand's range to the start of the right operand's range, with
    the message on true-division semantics and the import that opts in;
    with the flag it is the binary node of token [/]. *)
Theorem build_BinOp_division (ctx : SourceContext) (lineno col_offset : Z)
    (left_ right_ : ast.expr) (lhs rhs : Expr) :
  build_expr ctx left_ = Ok lhs ->
  build_expr ctx right_ = Ok rhs ->
  (uses_true_division ctx = false ->
     build_expr ctx (ast.BinOp lineno col_offset left_ ast.Div right_)
     = Raises (FrontendError (Some (mkRange (end_ (range lhs)) (start (range rhs))))
                 true_division_msg)
     /\ is_NotSupportedError
          (FrontendError (Some (mkRange (end_ (range lhs)) (start (range rhs))))
             true_division_msg) = false)
  /\ (uses_true_division ctx = true ->
        build_expr ctx (ast.BinOp lineno col_offset left_ ast.Div right_)
        = Ok (BinOp "/" lhs rhs)).
Proof.
  intros Hl Hr. split; intros Hflag.
  - split; [|reflexivity].
    run_handler. rewrite Hl, Hr. simpl. rewrite Hflag. reflexivity.
  - run_handler. rewrite Hl, Hr. simpl. rewrite Hflag. reflexivity.
Qed.

Definition ctx_div : SourceContext :=
  mkSourceContext "a / b" "div.py" 1 0 false.

Lemma build_BinOp_division_witness :
  build_expr ctx_div (ast.BinOp 1 0 (ast.Name 1 0 "a") ast.Div (ast.Name 1 4 "b"))
  = Raises (FrontendError (Some (mkRange 1 4)) true_division_msg).
Proof.
  exact (proj1 (proj1 (build_BinOp_division ctx_div 1 0
                         (ast.Name 1 0 "a") (ast.Name 1 4 "b")
                         (Var (Ident (mkRange 0 1) "a")) (Var (Ident (mkRange 4 5) "b"))
                         eq_refl eq_refl)
                      eq_refl)).
Defined.

(** ** Unary operators *)

(** C5. [not], [-] and [~] translate to a unary node located at the
    operator token.  Unary [+] has no token, and the handler measures
    the token before it tests for a missing one: once the operand has
    translated the translation raises the host [TypeError] of
    [len(None)], which is no frontend diagnostic, and the
    [NotSupportedError] written for this case is never raised. *)
Theorem build_UnaryOp_operators (ctx : SourceContext) (lineno col_offset : Z)
    (operand : ast.expr) :
  build_expr ctx (ast.UnaryOp lineno col_offset ast.Not operand)
  = (sub_expr <- build_expr ctx operand ;;
     Ok (UnaryOp (make_range ctx lineno col_offset (col_offset + 3)) "not" sub_expr))
  /\ build_expr ctx (ast.UnaryOp lineno col_offset ast.USub operand)
     = (sub_expr <- build_expr ctx operand ;;
        Ok (UnaryOp (make_range ctx lineno col_offset (col_offset + 1)) "-" sub_expr))
  /\ build_expr ctx (ast.UnaryOp lineno col_offset ast.Invert operand)
     = (sub_expr <- build_expr ctx operand ;;
        Ok (UnaryOp (make_range ctx lineno col_offset (col_offset + 1)) "~" sub_expr))
  /\ build_expr ctx (ast.UnaryOp lineno col_offset ast.UAdd operand)
     = (sub_expr <- build_expr ctx operand ;;
        Raises (TypeError "object of type 'NoneType' has no len()"))
  /\ is_FrontendError (TypeError "object of type 'NoneType' has no len()") = false.
Proof.
  repeat split; run_handler; destruct (build_expr ctx operand); reflexivity.
Qed.

(** ** Bare raise *)

(** C10. A [raise] without an exception expression returns no tree view
    and raises none of the frontend diagnostics: the handler hands the
    absent expression to the dispatcher, whose miss path reads
    [lineno] of [None] while it constructs [UnsupportedNodeError], and
    the [AttributeError] of that read is what leaves the translation. *)
Theorem build_Raise_bare (ctx : SourceContext) (lineno col_offset : Z) :
  build_stmt ctx (ast.Raise lineno col_offset None)
  = Raises (AttributeError "'NoneType' object has no attribute 'lineno'")
  /\ is_FrontendError (AttributeError "'NoneType' object has no attribute 'lineno'")
     = false
  /\ (forall (rest : list ast.stmt),
        build_stmts ctx (ast.Raise lineno col_offset None :: rest)
        = Raises (AttributeError "'NoneType' object has no attribute 'lineno'")).
Proof.
  repeat split.
Qed.

(** ** Subscripts *)

Definition sequences_msg : string :=
  "slicing multiple dimensions with sequences not supported yet".

Lemma build_ExtSlice_sequence (ctx : SourceContext) (base : Expr)
    (before after : list ast.slice) (value : ast.expr) (built : list Expr) :
  ExprBuilder.is_Tuple_or_List value = true ->
  mapM (ExprBuilder.build_ExtSlice_dim build_expr ctx base) before = Ok built ->
  ExprBuilder.build_ExtSlice build_expr ctx base (before ++ ast.Index value :: after)
  = Raises (NotSupportedError (Some (range base)) sequences_msg).
Proof.
  intros Hseq Hbefore. unfold ExprBuilder.build_ExtSlice.
  rewrite mapM_app, Hbefore. simpl.
  unfold ExprBuilder.build_Index. rewrite Hseq. reflexivity.
Qed.

Lemma build_ExtSlice_never_sequence (ctx : SourceContext) (base : Expr)
    (dims : list ast.slice) (value : ast.expr) :
  In (ast.Index value) dims ->
  ExprBuilder.is_Tuple_or_List value = true ->
  exists e, ExprBuilder.build_ExtSlice build_expr ctx base dims = Raises e.
Proof.
  intros Hin Hseq.
  destruct (in_split _ _ Hin) as [before [after ->]].
  destruct (mapM (ExprBuilder.build_ExtSlice_dim build_expr ctx base) before)
    as [built|e] eqn:Hbefore.
  - eexists. eapply build_ExtSlice_sequence; eassumption.
  - exists e. unfold ExprBuilder.build_ExtSlice. rewrite mapM_app, Hbefore.
    reflexivity.
Qed.

(** C3. With a base that translates: a tuple literal used directly as
    the index is flattened into one [Subscript] with one index per tuple
    element, whatever the position of the tuple itself, so that
    [x[(i, j)]] and [x[i, j]] translate alike; a tuple or list literal
    as an index component of an extended slice makes the translation
    fail, with [NotSupportedError] at the base's range once the
    components before it have translated. *)
Theorem build_Subscript_tuple_index (ctx : SourceContext) (lineno col_offset : Z)
    (value : ast.expr) (base : Expr) :
  build_expr ctx value = Ok base ->
  (forall l1 c1 elts indices,
      mapM (build_expr ctx) elts = Ok indices ->
      build_expr ctx (ast.Subscript lineno col_offset value
                        (ast.Index (ast.Tuple l1 c1 elts)))
      = Ok (Subscript base indices)
      /\ List.length indices = List.length elts
      /\ (forall l2 c2,
            build_expr ctx (ast.Subscript lineno col_offset value
                              (ast.Index (ast.Tuple l2 c2 elts)))
            = build_expr ctx (ast.Subscript lineno col_offset value
                                (ast.Index (ast.Tuple l1 c1 elts)))))
  /\ (forall before seq after built,
        ExprBuilder.is_Tuple_or_List seq = true ->
        mapM (ExprBuilder.build_ExtSlice_dim build_expr ctx base) before = Ok built ->
        build_expr ctx (ast.Subscript lineno col_offset value
                          (ast.ExtSlice (before ++ ast.Index seq :: after)))
        = Raises (NotSupportedError (Some (range base)) sequences_msg)
        /\ is_NotSupportedError (NotSupportedError (Some (range base)) sequences_msg)
           = true)
  /\ (forall dims seq,
        In (ast.Index seq) dims ->
        ExprBuilder.is_Tuple_or_List seq = true ->
        exists e,
          build_expr ctx (ast.Subscript lineno col_offset value (ast.ExtSlice dims))
          = Raises e).
Proof.
  intros Hbase. split; [|split].
  - intros l1 c1 elts indices Helts. split; [|split].
    + run_handler. rewrite Hbase. simpl. rewrite Helts. reflexivity.
    + eapply mapM_length; eassumption.
    + intros l2 c2. run_handler. reflexivity.
  - intros before seq after built Hseq Hbefore. split; [|reflexivity].
    run_handler. rewrite Hbase. simpl.
    erewrite build_ExtSlice_sequence; [reflexivity | assumption | eassumption].
  - intros dims seq Hin Hseq.
    destruct (build_ExtSlice_never_sequence ctx base dims seq Hin Hseq) as [e He].
    exists e. run_handler. rewrite Hbase. simpl. rewrite He. reflexivity.
Qed.

Definition ctx_subscript : SourceContext :=
  mkSourceContext "x[(i, j)]" "subscript.py" 1 0 true.

Lemma build_Subscript_tuple_index_witness :
  build_expr ctx_subscript
    (ast.Subscript 1 0 (ast.Name 1 0 "x")
       (ast.Index (ast.Tuple 1 2 [ast.Name 1 3 "i"; ast.Name 1 6 "j"])))
  = Ok (Subscript (Var (Ident (mkRange 0 1) "x"))
          [Var (Ident (mkRange 3 4) "i"); Var (Ident (mkRange 6 7) "j")]).
Proof.
  exact (proj1 (proj1 (build_Subscript_tuple_index ctx_subscript 1 0
                         (ast.Name 1 0 "x") (Var (Ident (mkRange 0 1) "x")) eq_refl)
                      1 2 [ast.Name 1 3 "i"; ast.Name 1 6 "j"]
                      [Var (Ident (mkRange 3 4) "i"); Var (Ident (mkRange 6 7) "j")]
                      eq_refl)).
Defined.

(** ** Expression statements *)

Lemma build_stmts_cons (ctx : SourceContext) (s : ast.stmt) (rest : list ast.stmt) :
  build_stmts ctx (s :: rest)
  = (built <- build_stmt ctx s ;;
     rest' <- build_stmts ctx rest ;;
     Ok (match built with Some t => t :: rest' | None => rest' end)).
Proof.
  unfold build_stmts, build_stmts_with. simpl.
  destruct (build_stmt ctx s) as [[t|]|e]; simpl; try reflexivity;
    destruct (mapM (build_stmt ctx) rest); reflexivity.
Qed.

(** A string literal held by a [Str] node is dropped, and any
    expression of another class that translates is wrapped. *)
Lemma build_Expr_Str_dropped (ctx : SourceContext) (l c l' c' : Z) (s : string)
    (rest : list ast.stmt) :
  build_stmt ctx (ast.Expr l c (ast.Str l' c' s)) = Ok None
  /\ build_stmts ctx (ast.Expr l c (ast.Str l' c' s) :: rest) = build_stmts ctx rest.
Proof.
  split; [reflexivity|].
  rewrite build_stmts_cons. cbn [build_stmt].
  unfold StmtBuilder.build_Expr. simpl.
  destruct (build_stmts ctx rest); reflexivity.
Qed.

Lemma build_Expr_wrapped (ctx : SourceContext) (l c : Z) (value : ast.expr) (e : Expr) :
  StmtBuilder.is_Str value = false ->
  build_expr ctx value = Ok e ->
  build_stmt ctx (ast.Expr l c value) = Ok (Some (ExprStmt e)).
Proof.
  intros Hstr He. cbn [build_stmt]. unfold StmtBuilder.build_Expr.
  rewrite Hstr, He. reflexivity.
Qed.

(** C6. A bare string literal that the parser delivers as a [Constant]
    node is not recognised as a documentation string: the handler tests
    the node for class [Str] only, so the statement is translated to an
    expression statement over a string literal and stays in the body,
    where a [Str] node at the same place is dropped. *)
Theorem build_Expr_Constant_str_kept (ctx : SourceContext) (l c l' c' : Z)
    (s : string) (rest : list ast.stmt) :
  build_stmt ctx (ast.Expr l c (ast.Constant l' c' (ast.CStr s)))
  = Ok (Some (ExprStmt (StringLiteral (make_range ctx l' c' (c' + 1)) s)))
  /\ build_stmts ctx (ast.Expr l c (ast.Constant l' c' (ast.CStr s)) :: rest)
     = (rest' <- build_stmts ctx rest ;;
        Ok (ExprStmt (StringLiteral (make_range ctx l' c' (c' + 1)) s) :: rest'))
  /\ build_stmts ctx (ast.Expr l c (ast.Str l' c' s) :: rest) = build_stmts ctx rest
  /\ build_expr ctx (ast.Constant l' c' (ast.CStr s))
     = build_expr ctx (ast.Str l' c' s).
Proof.
  split; [reflexivity|]. split.
  - rewrite build_stmts_cons. reflexivity.
  - split; [apply build_Expr_Str_dropped | reflexivity].
Qed.

(** ** Augmented assignment *)

Lemma prefix_char (c : ascii) (s : string) :
  String.prefix (String c "") s = true <-> String.get 0 s = Some c.
Proof.
  destruct s as [|a s]; simpl.
  - split; discriminate.
  - destruct (ascii_dec c a) as [->|Hne].
    + split; [reflexivity|]. intros _. destruct s; reflexivity.
    + split; [discriminate|]. intros H. injection H as ->. contradiction.
Qed.

Lemma rindex_from_None (c : ascii) (s : string) (i : nat) :
  rindex_from s (String c "") i = None ->
  forall k, String.get k s <> Some c.
Proof.
  revert i. induction s as [|a s IH]; intros i H k.
  - destruct k; discriminate.
  - cbn [rindex_from] in H.
    destruct (rindex_from s (String c "") (S i)) eqn:Hrest; [discriminate|].
    destruct (String.prefix (String c "") (String a s)) eqn:Hp; [discriminate|].
    destruct k as [|k].
    + intros Hget. apply prefix_char in Hget. congruence.
    + simpl. eapply IH; eassumption.
Qed.

Lemma rindex_from_Some (c : ascii) (s : string) (i j : nat) :
  rindex_from s (String c "") i = Some j ->
  (i <= j)%nat
  /\ String.get (j - i) s = Some c
  /\ (forall k, (j - i < k)%nat -> String.get k s <> Some c).
Proof.
  revert i j. induction s as [|a s IH]; intros i j H.
  - simpl in H. discriminate.
  - cbn [rindex_from] in H.
    destruct (rindex_from s (String c "") (S i)) as [j'|] eqn:Hrest.
    + injection H as <-. destruct (IH _ _ Hrest) as [Hle [Hget Hlast]].
      split; [lia|]. replace (j' - i)%nat with (S (j' - S i)) by lia.
      split; [exact Hget|].
      intros k Hk. destruct k as [|k]; [lia|]. simpl. apply Hlast. lia.
    + destruct (String.prefix (String c "") (String a s)) eqn:Hp; [|discriminate].
      injection H as <-. split; [lia|]. rewrite Nat.sub_diag.
      split; [apply prefix_char; exact Hp|].
      intros k Hk. destruct k as [|k]; [lia|]. simpl.
      eapply rindex_from_None; eassumption.
Qed.

Lemma get_substring_0 (n k : nat) (s : string) (c : ascii) :
  String.get k (String.substring 0 n s) = Some c -> String.get k s = Some c.
Proof.
  revert k s. induction n as [|n IH]; intros k s H.
  - destruct s; destruct k; discriminate.
  - destruct s as [|a s]; [exact H|].
    simpl in H. destruct k as [|k]; [exact H|]. simpl. apply IH. exact H.
Qed.

(** [rindex] of a single character: the offset holds the character and
    no later offset does; it is defined as soon as the character
    occurs. *)
Lemma rindex_char (s : string) (c : ascii) :
  (forall p, rindex s (String c "") = Some p ->
     0 <= p
     /\ String.get (Z.to_nat p) s = Some c
     /\ (forall k, (Z.to_nat p < k)%nat -> String.get k s <> Some c))
  /\ (forall k, String.get k s = Some c -> exists p, rindex s (String c "") = Some p).
Proof.
  unfold rindex. split.
  - intros p H. destruct (rindex_from s (String c "") 0) as [j|] eqn:Hj; [|discriminate].
    injection H as <-. destruct (rindex_from_Some _ _ _ _ Hj) as [_ [Hget Hlast]].
    rewrite Nat.sub_0_r in Hget, Hlast. rewrite Nat2Z.id.
    split; [lia|]. split; assumption.
  - intros k Hk. destruct (rindex_from s (String c "") 0) as [j|] eqn:Hj.
    + eexists. reflexivity.
    + exfalso. eapply rindex_from_None; eassumption.
Qed.

Lemma get_substring_0_lt (n k : nat) (s : string) (c : ascii) :
  String.get k (String.substring 0 n s) = Some c -> (k < n)%nat.
Proof.
  revert k s. induction n as [|n IH]; intros k s H.
  - destruct s; destruct k; discriminate.
  - destruct s as [|a s]; [destruct k; discriminate|].
    simpl in H. destruct k as [|k]; [lia|]. apply IH in H. lia.
Qed.

Definition augassign_msg (op : ast.operator) : string :=
  "unsupported kind of augumented assignment: " ++ ast.operator_name op.

(** For an augmented assignment whose two sides translate, in a source
    text that is its own encoding (no code point above 127), so that
    offsets in the text are offsets in its bytes: the operators with a
    token are exactly [+=], [-=], [*=], [/=] and [%=], and with one of
    them the statement translates; with any other operator, when the
    text before the start offset of the built right-hand side holds an
    [=], the translation raises [NotSupportedError] at the range
    [(p - 1, p + 1)] around the last such [=], at offset [p]: the range
    covers that byte, which lies before the right-hand side, and no [=]
    lies between it and the right-hand side. *)
Lemma build_AugAssign_operators (ctx : SourceContext) (lineno col_offset : Z)
    (target value : ast.expr) (op : ast.operator) (lhs rhs : Expr) :
  build_expr ctx target = Ok lhs ->
  build_expr ctx value = Ok rhs ->
  encode_utf8 (source ctx) = source ctx ->
  0 <= start (range rhs) ->
  (StmtBuilder.augassign_map op <> None
   <-> In op [ast.Add; ast.Sub; ast.Mult; ast.Div; ast.Mod])
  /\ (forall op_token,
        StmtBuilder.augassign_map op = Some op_token ->
        build_stmt ctx (ast.AugAssign lineno col_offset target op value)
        = Ok (Some (AugAssign lhs op_token rhs)))
  /\ (StmtBuilder.augassign_map op = None ->
      forall k,
        String.get k (slice_to (source ctx) (start (range rhs))) = Some "="%char ->
        exists p,
          rindex (slice_to (source ctx) (start (range rhs))) "=" = Some p
          /\ build_stmt ctx (ast.AugAssign lineno col_offset target op value)
             = Raises (NotSupportedError (Some (mkRange (p - 1) (p + 1)))
                         (augassign_msg op))
          /\ start (mkRange (p - 1) (p + 1)) <= p < end_ (mkRange (p - 1) (p + 1))
          /\ get_char (encode_utf8 (source ctx)) p = Some "="%char
          /\ p < start (range rhs)
          /\ Z.of_nat k <= p
          /\ (forall q, (Z.to_nat p < q)%nat ->
                String.get q (slice_to (source ctx) (start (range rhs)))
                <> Some "="%char)).
Proof.
  intros Hl Hr Hascii Hstart. split; [|split].
  - destruct op; simpl; split; intros H; try congruence; try tauto;
      repeat (destruct H as [H|H]; [discriminate|]); contradiction.
  - intros op_token Htok. run_handler. rewrite Hl, Hr. simpl. rewrite Htok.
    reflexivity.
  - intros Hnone k Hk.
    destruct (rindex_char (slice_to (source ctx) (start (range rhs))) "="%char)
      as [Hsome Hex].
    destruct (Hex k Hk) as [p Hp]. exists p.
    destruct (Hsome p Hp) as [Hp0 [Hget Hlast]].
    assert (Hbefore : p < start (range rhs)).
    { unfold slice_to in Hget. apply get_substring_0_lt in Hget.
      destruct (start (range rhs) <? 0) eqn:Hneg; [apply Z.ltb_lt in Hneg|]; lia. }
    split; [exact Hp|]. split; [|split; [|split; [|split; [|split]]]].
    + run_handler. rewrite Hl, Hr. simpl. rewrite Hnone.
      unfold find_before. rewrite Hp.
      unfold returns, make_raw_range, augassign_msg. cbn [bind fst snd].
      replace (p + -1) with (p - 1) by lia.
      replace (p + len "=" + 0) with (p + 1) by (unfold len; simpl; lia).
      reflexivity.
    + simpl. lia.
    + rewrite Hascii. unfold get_char.
      assert (Hneg : (p <? 0) = false) by (apply Z.ltb_ge; lia).
      rewrite !Hneg.
      unfold slice_to in Hget. eapply get_substring_0. exact Hget.
    + exact Hbefore.
    + destruct (Z_le_gt_dec (Z.of_nat k) p) as [Hle|Hgt]; [exact Hle|].
      exfalso. apply (Hlast k); [lia | exact Hk].
    + exact Hlast.
Qed.

Definition ctx_augassign : SourceContext :=
  mkSourceContext "x **= 2" "augassign.py" 1 0 true.

Lemma build_AugAssign_operators_witness :
  exists p,
    rindex (slice_to "x **= 2" 6) "=" = Some p
    /\ build_stmt ctx_augassign
         (ast.AugAssign 1 0 (ast.Name 1 0 "x") ast.Pow (ast.Num 1 6 (ast.CInt 2)))
       = Raises (NotSupportedError (Some (mkRange (p - 1) (p + 1)))
                   (augassign_msg ast.Pow))
    /\ get_char "x **= 2" p = Some "="%char
    /\ p < 6.
Proof.
  assert (Hstart : 0 <= 6) by lia.
  destruct (proj2 (proj2 (build_AugAssign_operators ctx_augassign 1 0
                            (ast.Name 1 0 "x") (ast.Num 1 6 (ast.CInt 2)) ast.Pow
                            (Var (Ident (mkRange 0 1) "x")) (Const (mkRange 6 7) "2")
                            eq_refl eq_refl eq_refl Hstart))
                  eq_refl 4%nat eq_refl)
    as [p [Hp [Hraise [_ [Hget [Hlt _]]]]]].
  exists p. split; [exact Hp|]. split; [exact Hraise|]. split; [exact Hget | exact Hlt].
Defined.

(** The text of a function of four lines: a comment with a letter of
    two bytes (code point 233) on the second, the statement [x **= 2]
    on the third, and an assignment on the fourth. *)
Definition ctx_augassign_comment : SourceContext :=
  mkSourceContext
    ("def f(x):" ++ String "010"%char
       ("    # " ++ String "233"%char
          (String "010"%char
             ("    x **= 2" ++ String "010"%char "    y = x"))))
    "augassign.py" 1 0 true.

(** C7. In that text the statement [x **= 2] raises [NotSupportedError]
    at the range [(25, 27)]: the right-hand side starts at byte 29, the
    text is cut after 29 code points, before the [=] of the fourth
    line, and the last [=] of the cut is the code point at 26.  The
    bytes at 25 and 26 are the two [*]; the [=] is the byte at 27,
    which the range does not cover. *)
Theorem build_AugAssign_non_ascii :
  let node :=
    ast.AugAssign 3 4 (ast.Name 3 4 "x") ast.Pow (ast.Num 3 10 (ast.CInt 2)) in
  let text := encode_utf8 (source ctx_augassign_comment) in
  StmtBuilder.augassign_map ast.Pow = None
  /\ build_expr ctx_augassign_comment (ast.Num 3 10 (ast.CInt 2))
     = Ok (Const (mkRange 29 30) "2")
  /\ rindex (source ctx_augassign_comment) "=" = Some 36
  /\ rindex (slice_to (source ctx_augassign_comment) 29) "=" = Some 26
  /\ build_stmt ctx_augassign_comment node
     = Raises (NotSupportedError (Some (mkRange 25 27)) (augassign_msg ast.Pow))
  /\ get_char text 25 = Some "*"%char
  /\ get_char text 26 = Some "*"%char
  /\ get_char text 27 = Some "="%char
  /\ ~ (start (mkRange 25 27) <= 27 < end_ (mkRange 25 27)).
Proof.
  cbv zeta. repeat split; try reflexivity. simpl. lia.
Qed.

(** ** Parameter lists *)

Definition param_kwarg_only (p : param_t) : bool :=
  match p with Param _ _ kwarg_only => kwarg_only end.

Definition param_name (p : param_t) : string :=
  match p with Param _ (Ident _ name) _ => name end.

(** The span of a parameter's name. *)
Definition name_span (ctx : SourceContext) (a : ast.arg) : Range :=
  make_range ctx (ast.arg_lineno a) (ast.arg_col_offset a)
             (ast.arg_col_offset a + len (ast.arg_name a)).

(** The bytes of a parameter's name in the encoded text. *)
Definition name_byte_span (ctx : SourceContext) (a : ast.arg) : Range :=
  make_range ctx (ast.arg_lineno a) (ast.arg_col_offset a)
             (ast.arg_col_offset a + len (encode_utf8 (ast.arg_name a))).

(** [r] covers [span]. *)
Definition covers (r span : Range) : Prop :=
  start r <= start span /\ end_ span <= end_ r.

Lemma len_encode_utf8 (s : string) : len s <= len (encode_utf8 s).
Proof.
  unfold len. induction s as [|c s IH]; simpl; [lia|].
  destruct (nat_of_ascii c <? 128)%nat; simpl; lia.
Qed.

(** The range of the variadic checks covers the bytes of the name
    exactly when the name has as many bytes as code points. *)
Lemma variadic_range_covers (ctx : SourceContext) (a : ast.arg) :
  covers (variadic_range ctx a) (name_byte_span ctx a)
  <-> len (encode_utf8 (ast.arg_name a)) = len (ast.arg_name a).
Proof.
  pose proof (len_encode_utf8 (ast.arg_name a)).
  unfold covers, variadic_range, name_byte_span, make_range. simpl. lia.
Qed.

Lemma check_kw_defaults_None (ctx : SourceContext) (kw_defaults : list (option ast.expr)) :
  Forall (fun d => d = None) kw_defaults ->
  check_kw_defaults ctx kw_defaults = Ok tt.
Proof.
  induction 1 as [|d l Hd _ IH]; [reflexivity|]. subst d. exact IH.
Qed.

Lemma check_kw_defaults_Some (ctx : SourceContext)
    (before after : list (option ast.expr)) (default : ast.expr) (e : Expr) :
  Forall (fun d => d = None) before ->
  build_expr ctx default = Ok e ->
  check_kw_defaults ctx (before ++ Some default :: after)
  = Raises (NotSupportedError (Some (range e)) _vararg_kwarg_err).
Proof.
  intros Hbefore He. induction Hbefore as [|d l Hd _ IH].
  - simpl. rewrite He. reflexivity.
  - subst d. exact IH.
Qed.

Lemma build_params_tagged (ctx : SourceContext) (self_name : option string)
    (kwarg_only : bool) (l : list ast.arg) (ps : list param_t) :
  mapM (fun a => build_param ctx a self_name kwarg_only) l = Ok ps ->
  Forall (fun p => param_kwarg_only p = kwarg_only) ps
  /\ map param_name ps = map ast.arg_name l.
Proof.
  revert ps. induction l as [|a l IH]; intros ps H; simpl in H.
  - injection H as <-. split; constructor.
  - destruct (build_param ctx a self_name kwarg_only) as [p|e] eqn:Hp;
      simpl in H; [|discriminate].
    destruct (mapM _ l) as [ps'|e]; simpl in H; [|discriminate].
    injection H as <-. destruct (IH ps' eq_refl) as [Hflags Hnames].
    unfold build_param in Hp.
    apply bind_Ok_inv in Hp. destruct Hp as [t [_ Hp]]. injection Hp as <-.
    split; [constructor; [reflexivity | exact Hflags]|].
    simpl. f_equal. exact Hnames.
Qed.

(** A variadic keyword parameter, and without one a variadic
    positional parameter, raises [NotSupportedError] at a range that
    starts one byte before the parameter's name and covers the bytes of
    the name exactly when the name has as many bytes as code points;
    without variadic parameters, the
    first keyword-only default, once it translates, raises
    [NotSupportedError] at the default expression's range; a list with
    neither variadic parameters nor keyword-only defaults, whose
    parameters translate, is the list of the ordinary parameters
    followed by the keyword-only ones, in order, each tagged with its
    keyword-only flag. *)
Lemma build_param_list_cases (ctx : SourceContext) (py_args : ast.arguments)
    (self_name : option string) :
  (forall a,
      ast.kwarg py_args = Some a ->
      build_param_list ctx py_args self_name
      = Raises (NotSupportedError (Some (variadic_range ctx a)) _vararg_kwarg_err)
      /\ start (variadic_range ctx a) = start (name_byte_span ctx a) - 1
      /\ (covers (variadic_range ctx a) (name_byte_span ctx a)
          <-> len (encode_utf8 (ast.arg_name a)) = len (ast.arg_name a)))
  /\ (forall a,
        ast.kwarg py_args = None ->
        ast.vararg py_args = Some a ->
        build_param_list ctx py_args self_name
        = Raises (NotSupportedError (Some (variadic_range ctx a)) _vararg_kwarg_err)
        /\ start (variadic_range ctx a) = start (name_byte_span ctx a) - 1
        /\ (covers (variadic_range ctx a) (name_byte_span ctx a)
            <-> len (encode_utf8 (ast.arg_name a)) = len (ast.arg_name a)))
  /\ (forall before default after e,
        ast.kwarg py_args = None ->
        ast.vararg py_args = None ->
        ast.kw_defaults py_args = (before ++ Some default :: after)%list ->
        Forall (fun d => d = None) before ->
        build_expr ctx default = Ok e ->
        build_param_list ctx py_args self_name
        = Raises (NotSupportedError (Some (range e)) _vararg_kwarg_err))
  /\ (forall ordinary kwonly,
        ast.kwarg py_args = None ->
        ast.vararg py_args = None ->
        Forall (fun d => d = None) (ast.kw_defaults py_args) ->
        mapM (fun a => build_param ctx a self_name false) (ast.args py_args)
        = Ok ordinary ->
        mapM (fun a => build_param ctx a self_name true) (ast.kwonlyargs py_args)
        = Ok kwonly ->
        build_param_list ctx py_args self_name = Ok (ordinary ++ kwonly)%list
        /\ Forall (fun p => param_kwarg_only p = false) ordinary
        /\ Forall (fun p => param_kwarg_only p = true) kwonly
        /\ map param_name (ordinary ++ kwonly)%list
           = map ast.arg_name (ast.args py_args ++ ast.kwonlyargs py_args)%list).
Proof.
  split; [|split; [|split]].
  - intros a Hkw. split; [|split; [|apply variadic_range_covers]].
    + unfold build_param_list. rewrite Hkw. reflexivity.
    + unfold variadic_range, name_byte_span, make_range. simpl. lia.
  - intros a Hkw Hva. split; [|split; [|apply variadic_range_covers]].
    + unfold build_param_list. rewrite Hkw, Hva. reflexivity.
    + unfold variadic_range, name_byte_span, make_range. simpl. lia.
  - intros before default after e Hkw Hva Hdefaults Hbefore He.
    unfold build_param_list. rewrite Hkw, Hva, Hdefaults.
    rewrite (check_kw_defaults_Some ctx before after default e Hbefore He).
    reflexivity.
  - intros ordinary kwonly Hkw Hva Hdefaults Hord Hkwonly.
    destruct (build_params_tagged _ _ _ _ _ Hord) as [Hf1 Hn1].
    destruct (build_params_tagged _ _ _ _ _ Hkwonly) as [Hf2 Hn2].
    split; [|split; [exact Hf1 | split; [exact Hf2|]]].
    + unfold build_param_list. rewrite Hkw, Hva.
      rewrite (check_kw_defaults_None ctx _ Hdefaults). simpl.
      rewrite Hord. simpl. rewrite Hkwonly. reflexivity.
    + rewrite !map_app, Hn1, Hn2. reflexivity.
Qed.

Definition ctx_params : SourceContext :=
  mkSourceContext "def f(x, **kw): pass" "params.py" 1 0 true.

Definition arg_x : ast.arg := ast.mk_arg 1 6 "x" None.
Definition arg_kw : ast.arg := ast.mk_arg 1 11 "kw" None.

Lemma build_param_list_cases_witness :
  build_param_list ctx_params (ast.mk_arguments [arg_x] None [] [] (Some arg_kw)) None
  = Raises (NotSupportedError (Some (mkRange 10 13)) _vararg_kwarg_err)
  /\ build_param_list ctx_params (ast.mk_arguments [arg_x] (Some arg_kw) [] [] None) None
     = Raises (NotSupportedError (Some (mkRange 10 13)) _vararg_kwarg_err)
  /\ build_param_list ctx_params
       (ast.mk_arguments [arg_x] None [arg_kw] [Some (ast.Num 1 14 (ast.CInt 1))] None)
       None
     = Raises (NotSupportedError (Some (mkRange 14 15)) _vararg_kwarg_err)
  /\ build_param_list ctx_params (ast.mk_arguments [arg_x] None [arg_kw] [None] None) None
     = Ok [Param (EmptyTypeAnnotation (mkRange 6 7)) (Ident (mkRange 6 7) "x") false;
           Param (EmptyTypeAnnotation (mkRange 11 13)) (Ident (mkRange 11 13) "kw") true].
Proof.
  split; [|split; [|split]].
  - exact (proj1 (proj1 (build_param_list_cases ctx_params
                           (ast.mk_arguments [arg_x] None [] [] (Some arg_kw)) None)
                        arg_kw eq_refl)).
  - exact (proj1 (proj1 (proj2 (build_param_list_cases ctx_params
                           (ast.mk_arguments [arg_x] (Some arg_kw) [] [] None) None))
                        arg_kw eq_refl eq_refl)).
  - exact (proj1 (proj2 (proj2 (build_param_list_cases ctx_params
                           (ast.mk_arguments [arg_x] None [arg_kw]
                              [Some (ast.Num 1 14 (ast.CInt 1))] None) None)))
                 [] (ast.Num 1 14 (ast.CInt 1)) [] (Const (mkRange 14 15) "1")
                 eq_refl eq_refl eq_refl (Forall_nil _) eq_refl).
  - exact (proj1 (proj2 (proj2 (proj2 (build_param_list_cases ctx_params
                           (ast.mk_arguments [arg_x] None [arg_kw] [None] None) None)))
                 [Param (EmptyTypeAnnotation (mkRange 6 7)) (Ident (mkRange 6 7) "x") false]
                 [Param (EmptyTypeAnnotation (mkRange 11 13)) (Ident (mkRange 11 13) "kw") true]
                 eq_refl eq_refl (Forall_cons _ eq_refl (Forall_nil _)) eq_refl eq_refl)).
Defined.

(** A declaration of [f] with one parameter, a variadic keyword
    parameter whose name is three letters, the first and the last of
    two bytes (code point 233). *)
Definition accent_name : string :=
  String "233"%char (String "t"%char (String "233"%char "")).

Definition ctx_params_accent : SourceContext :=
  mkSourceContext ("def f(" ++ "**" ++ accent_name ++ "): pass")
                  "params.py" 1 0 true.

Definition arg_accent : ast.arg := ast.mk_arg 1 8 accent_name None.

(** C8. The variadic keyword parameter of that declaration, whose name
    of three code points takes the five bytes from 8 to 13 of the text,
    raises [NotSupportedError] at the range [(7, 11)], which does not
    cover the bytes of the name. *)
Theorem build_param_list_non_ascii :
  build_param_list ctx_params_accent
    (ast.mk_arguments [] None [] [] (Some arg_accent)) None
  = Raises (NotSupportedError (Some (mkRange 7 11)) _vararg_kwarg_err)
  /\ len accent_name = 3
  /\ name_byte_span ctx_params_accent arg_accent = mkRange 8 13
  /\ String.substring 8 5 (encode_utf8 (source ctx_params_accent))
     = encode_utf8 accent_name
  /\ ~ covers (mkRange 7 11) (name_byte_span ctx_params_accent arg_accent).
Proof.
  repeat split; try reflexivity. unfold covers. simpl. lia.
Qed.

(** ** Ranges computed from token locations *)

(** The width each expression handler adds to the node's column when it
    computes a range from the node's own location; [None] for the
    classes whose view is built without a range of its own. *)
Definition token_width (node : ast.expr) : option Z :=
  match node with
  | ast.Ellipsis _ _ => Some 3
  | ast.Name _ _ id => Some (len id)
  | ast.NameConstant _ _ value => Some (len (str_of_constant value))
  | ast.UnaryOp _ _ op _ => option_map len (ExprBuilder.unop_map op)
  | ast.List _ _ _ | ast.Tuple _ _ _ | ast.Dict _ _ _ _ => Some 1
  | ast.Num _ _ n => Some (len (str_of_constant n))
  | ast.Constant _ _ value =>
      match value with
      | ast.CNone | ast.CBool _ | ast.CInt _ | ast.CFloat _ =>
          Some (len (str_of_constant value))
      | ast.CStr _ => Some 1
      | ast.CEllipsis => Some 3
      | ast.CComplex _ | ast.CBytes _ => None
      end
  | ast.Str _ _ _ | ast.JoinedStr _ _ _ | ast.Starred _ _ _ => Some 1
  | ast.ListComp _ _ _ _ => Some 0
  | _ => None
  end.

(** The same for statements: the length of the leading keyword. *)
Definition stmt_token_width (node : ast.stmt) : option (Z * Z * Z) :=
  match node with
  | ast.Return l c _ => Some (l, c, len "return")
  | ast.Raise l c _ => Some (l, c, len "raise")
  | ast.Assert l c _ _ => Some (l, c, len "assert")
  | ast.While l c _ _ _ => Some (l, c, len "while")
  | ast.For l c _ _ _ _ => Some (l, c, len "for")
  | ast.If l c _ _ _ => Some (l, c, len "if")
  | ast.Print l c _ _ => Some (l, c, len "print")
  | ast.Pass l c => Some (l, c, len "pass")
  | ast.Break l c => Some (l, c, len "break")
  | ast.Continue l c => Some (l, c, len "continue")
  | ast.With l c _ _ => Some (l, c, len "with")
  | _ => None
  end.

Definition is_ListComp (node : ast.expr) : bool :=
  match node with ast.ListComp _ _ _ _ => true | _ => false end.

(** A name or a number whose spelling is the empty string. *)
Definition spelled_empty (node : ast.expr) : Prop :=
  match node with
  | ast.Name _ _ id => id = ""
  | ast.NameConstant _ _ value | ast.Num _ _ value | ast.Constant _ _ value =>
      str_of_constant value = ""
  | _ => False
  end.

(** [r] lies within the text of the source unit. *)
Definition within (ctx : SourceContext) (r : Range) : Prop :=
  0 <= start r /\ end_ r <= len (encode_utf8 (source ctx)).

(** [r] is a non-empty range within the text. *)
Definition nonempty_within (ctx : SourceContext) (r : Range) : Prop :=
  start r < end_ r /\ within ctx r.

Lemma len_nonneg (s : string) : 0 <= len s.
Proof. unfold len. lia. Qed.

Lemma len_0 (s : string) : len s = 0 -> s = "".
Proof. unfold len. destruct s; [reflexivity | simpl; lia]. Qed.

Lemma make_range_width (ctx : SourceContext) (l c w : Z) :
  end_ (make_range ctx l c (c + w)) - start (make_range ctx l c (c + w)) = w.
Proof. unfold make_range. simpl. lia. Qed.

Ltac inv_bind H :=
  repeat match type of H with
         | bind ?m _ = Ok _ =>
             let a := fresh "a" in
             let Ha := fresh "Ha" in
             apply bind_Ok_inv in H; destruct H as [a [Ha H]]
         end.

(** ** The whitespace scan of attribute names *)

Lemma get_char_Some_lt (src : string) (pos : Z) (c : ascii) :
  get_char src pos = Some c -> pos < len src.
Proof.
  unfold get_char, len. intros H.
  destruct (pos <? 0) eqn:Hneg; [apply Z.ltb_lt in Hneg; lia|].
  apply Z.ltb_ge in Hneg.
  destruct (pos <? 0); [discriminate|].
  assert (Hget : forall (n : nat) (s : string), String.get n s <> None ->
                 (n < String.length s)%nat).
  { intros n s. revert n. induction s as [|a s IH]; intros n Hn.
    - destruct n; contradiction.
    - destruct n as [|n]; simpl in *; [lia|]. apply IH in Hn. lia. }
  assert (Z.to_nat pos < String.length src)%nat by (apply Hget; congruence).
  lia.
Qed.

(** The fuel the attribute handler gives the scan is never used up:
    any greater fuel gives the same outcome. *)
Lemma skip_whitespace_fuel (src : string) (fuel : nat) (start_pos : Z) :
  (Z.to_nat (len src - start_pos) <= fuel)%nat ->
  ExprBuilder.skip_whitespace src fuel start_pos
  = ExprBuilder.skip_whitespace src (Z.to_nat (len src - start_pos)) start_pos.
Proof.
  remember (Z.to_nat (len src - start_pos)) as n eqn:Hn.
  revert fuel start_pos Hn.
  induction n as [|n IH]; intros fuel start_pos Hn Hfuel.
  - destruct fuel as [|fuel]; [reflexivity|]. simpl.
    destruct (get_char src start_pos) as [c|] eqn:Hc; [|reflexivity].
    apply get_char_Some_lt in Hc. lia.
  - destruct fuel as [|fuel]; [lia|]. simpl.
    destruct (get_char src start_pos) as [c|] eqn:Hc; [|reflexivity].
    destruct (in_whitespace c); [|reflexivity].
    apply IH; lia.
Qed.

(** * Further properties of the builders *)

(** ** Induction over syntax trees *)

Local Open Scope list_scope.

Scheme All for list.
Scheme All for option.

Scheme expr_nested_ind := Induction for ast.expr Sort Prop
  with slice_nested_ind := Induction for ast.slice Sort Prop
  with keyword_nested_ind := Induction for ast.keyword Sort Prop
  with comprehension_nested_ind := Induction for ast.comprehension Sort Prop.

Lemma list_all_In {A : Type} (P : A -> Prop) (l : list A) :
  list_all A P l -> forall a, In a l -> P a.
Proof.
  induction 1 as [|a Ha l _ IH]; intros b Hb; [contradiction|].
  destruct Hb as [<-|Hb]; [exact Ha | exact (IH b Hb)].
Qed.

Definition option_list {A : Type} (o : option A) : list A :=
  match o with Some a => [a] | None => [] end.

Lemma option_all_In {A : Type} (P : A -> Prop) (o : option A) :
  option_all A P o -> forall a, In a (option_list o) -> P a.
Proof.
  destruct 1 as [a Ha|]; intros b Hb; [|contradiction].
  destruct Hb as [<-|[]]. exact Ha.
Qed.

(** The expressions directly under a slice. *)
Fixpoint slice_exprs (s : ast.slice) : list ast.expr :=
  match s with
  | ast.Index value => [value]
  | ast.Slice lower upper step =>
      option_list lower ++ option_list upper ++ option_list step
  | ast.ExtSlice dims => List.concat (map slice_exprs dims)
  | ast.SliceEllipsis => []
  end.

Definition keyword_value (kw : ast.keyword) : ast.expr :=
  match kw with ast.mk_keyword _ value => value end.

Definition comprehension_exprs (g : ast.comprehension) : list ast.expr :=
  match g with ast.mk_comprehension target iter ifs => target :: iter :: ifs end.

(** The expressions directly under an expression. *)
Definition children (e : ast.expr) : list ast.expr :=
  match e with
  | ast.Attribute _ _ value _ => [value]
  | ast.Call _ _ func args starargs keywords =>
      func :: args ++ option_list starargs ++ map keyword_value keywords
  | ast.BinOp _ _ left_ _ right_ => [left_; right_]
  | ast.UnaryOp _ _ _ operand => [operand]
  | ast.BoolOp _ _ _ values => values
  | ast.IfExp _ _ test body orelse => [test; body; orelse]
  | ast.Compare _ _ left_ _ comparator1 _ comparators =>
      left_ :: comparator1 :: comparators
  | ast.Subscript _ _ value slice_ => value :: slice_exprs slice_
  | ast.List _ _ elts | ast.Tuple _ _ elts => elts
  | ast.Dict _ _ keys values => List.concat (map option_list keys) ++ values
  | ast.JoinedStr _ _ values => values
  | ast.FormattedValue _ _ value _ format_spec => value :: option_list format_spec
  | ast.ListComp _ _ elt generators =>
      elt :: List.concat (map comprehension_exprs generators)
  | ast.Starred _ _ value => [value]
  | ast.Ellipsis _ _ | ast.Name _ _ _ | ast.NameConstant _ _ _ | ast.Num _ _ _
  | ast.Constant _ _ _ | ast.Str _ _ _ | ast.OtherExpr _ _ _ => []
  end.

(** [d] lies strictly under [e]. *)
Inductive subexpr : ast.expr -> ast.expr -> Prop :=
| subexpr_child (c e : ast.expr) : In c (children e) -> subexpr c e
| subexpr_under (d c e : ast.expr) :
    subexpr d c -> In c (children e) -> subexpr d e.

Lemma subexpr_trans (d c e : ast.expr) : subexpr d c -> subexpr c e -> subexpr d e.
Proof.
  intros Hdc Hce. induction Hce as [c e Hin | c c' e Hcc' IH Hin].
  - eapply subexpr_under; eassumption.
  - eapply subexpr_under; [apply IH; exact Hdc | exact Hin].
Qed.

Lemma list_option_all_In {A : Type} (P : A -> Prop) (l : list (option A)) :
  list_all (option A) (option_all A P) l ->
  forall k a, In k l -> In a (option_list k) -> P a.
Proof.
  induction 1 as [|k Hk l _ IH]; intros k' a Hk' Ha; [contradiction|].
  destruct Hk' as [<-|Hk']; [|exact (IH k' a Hk' Ha)].
  eapply option_all_In; eassumption.
Qed.

Ltac split_in :=
  repeat match goal with
         | H : In _ (_ :: _) |- _ => destruct H as [H|H]; [subst|]
         | H : In _ [] |- _ => contradiction H
         | H : In _ (_ ++ _) |- _ => apply in_app_or in H; destruct H as [H|H]
         | H : In _ (map _ _) |- _ =>
             apply in_map_iff in H; destruct H as [? [? H]]; subst
         | H : In _ (List.concat _) |- _ =>
             apply in_concat in H; destruct H as [? [? H]]
         end.

Lemma expr_children_ind (P : ast.expr -> Prop) :
  (forall e, (forall c, In c (children e) -> P c) -> P e) ->
  forall e, P e.
Proof.
  intros Hstep.
  apply (expr_nested_ind P
           (fun s => forall c, In c (slice_exprs s) -> P c)
           (fun kw => P (keyword_value kw))
           (fun g => forall c, In c (comprehension_exprs g) -> P c));
    intros; cbn [keyword_value];
    first [ assumption | apply Hstep; intros c Hc | idtac ];
    repeat match goal with
           | H : list_all _ _ _ |- _ =>
               let H' := fresh in
               first [ pose proof (list_option_all_In _ _ H) as H'
                     | pose proof (list_all_In _ _ H) as H' ];
               clear H
           | H : option_all _ _ _ |- _ =>
               let H' := fresh in pose proof (option_all_In _ _ H) as H'; clear H
           end;
    cbn [children slice_exprs keyword_value comprehension_exprs] in *;
    split_in; eauto.
  eapply list_option_all_In; eassumption.
Qed.

(** Induction on an expression with the hypothesis for everything under
    it. *)
Lemma expr_subexpr_ind (P : ast.expr -> Prop) :
  (forall e, (forall d, subexpr d e -> P d) -> P e) ->
  forall e, P e.
Proof.
  intros Hstep.
  assert (Hunder : forall e d, subexpr d e -> P d).
  { induction e as [e IH] using expr_children_ind.
    intros d Hd. destruct Hd as [c e Hin | d c e Hdc Hin].
    - apply Hstep. apply IH. exact Hin.
    - eapply IH; eassumption. }
  intros e. apply Hstep. apply Hunder.
Qed.

(** ** List comprehensions over a builder *)

Lemma mapM_Forall {A B : Type} (f : A -> outcome B) (Q : B -> Prop)
    (l : list A) (bs : list B) :
  (forall a, In a l -> forall b, f a = Ok b -> Q b) ->
  mapM f l = Ok bs -> Forall Q bs.
Proof.
  revert bs. induction l as [|a l IH]; intros bs Hl H; simpl in H.
  - injection H as <-. constructor.
  - destruct (f a) as [b|e] eqn:Hb; simpl in H; [|discriminate].
    destruct (mapM f l) as [bs'|e] eqn:Hbs; simpl in H; [|discriminate].
    injection H as <-. constructor.
    + eapply Hl; [left; reflexivity | exact Hb].
    + apply IH; [|reflexivity]. intros a' Ha'. apply Hl. right. exact Ha'.
Qed.

Lemma mapM_Raises {A B : Type} (f : A -> outcome B) (l : list A) (e : exn) :
  mapM f l = Raises e -> exists a, In a l /\ f a = Raises e.
Proof.
  induction l as [|a l IH]; intros H; simpl in H; [discriminate|].
  destruct (f a) as [b|e'] eqn:Hb; simpl in H.
  - destruct (mapM f l) as [bs'|e'] eqn:Hbs; simpl in H; [discriminate|].
    injection H as ->. destruct (IH eq_refl) as [a' [Hin Ha']].
    exists a'. split; [right; exact Hin | exact Ha'].
  - injection H as ->. exists a. split; [left; reflexivity | exact Hb].
Qed.

Lemma bind_Raises_inv {A B : Type} (m : outcome A) (k : A -> outcome B) (e : exn) :
  bind m k = Raises e -> m = Raises e \/ exists a, m = Ok a /\ k a = Raises e.
Proof.
  destruct m as [a|e']; simpl; intros H; [right; eauto|].
  left. injection H as ->. reflexivity.
Qed.

(** ** Shape of the produced expressions *)

(** [P] holds at every node of a tree view. *)
Fixpoint Expr_all (P : Expr -> bool) (t : Expr) : bool :=
  P t &&
  match t with
  | Var _ | EmptyTypeAnnotation _ | Dots _ | TrueLiteral _ | FalseLiteral _
  | NoneLiteral _ | Const _ _ | StringLiteral _ _ => true
  | Apply func args kwargs =>
      Expr_all P func && forallb (Expr_all P) args
      && forallb (fun kw => match kw with Attribute _ value => Expr_all P value end)
                 kwargs
  | Select base _ => Expr_all P base
  | Starred _ e => Expr_all P e
  | ListLiteral _ elts | TupleLiteral _ elts => forallb (Expr_all P) elts
  | DictLiteral _ keys values =>
      forallb (Expr_all P) keys && forallb (Expr_all P) values
  | ListComp _ elt target iter =>
      Expr_all P elt && Expr_all P target && Expr_all P iter
  | BinOp _ lhs rhs => Expr_all P lhs && Expr_all P rhs
  | UnaryOp _ _ e => Expr_all P e
  | SliceExpr _ lower upper step =>
      match lower with Some e => Expr_all P e | None => true end
      && match upper with Some e => Expr_all P e | None => true end
      && match step with Some e => Expr_all P e | None => true end
  | Subscript base subscript_exprs =>
      Expr_all P base && forallb (Expr_all P) subscript_exprs
  | TernaryIf cond true_expr false_expr =>
      Expr_all P cond && Expr_all P true_expr && Expr_all P false_expr
  end.

(** The tokens of binary nodes: the binary operators, the boolean
    operators and the comparisons except [not in]. *)
Definition binary_tokens : list string :=
  ["+"; "-"; "*"; "/"; "**"; "%"; "//"; "&"; "^"; "|"; "<<"; ">>"; "@";
   "and"; "or";
   "=="; "!="; "<="; "<"; ">="; ">"; "is"; "is not"; "in"]%string.

Definition unary_tokens : list string := ["not"; "-"; "~"]%string.

(** A variable is neither a name with the reserved prefix nor one of the
    literal names; an operator node carries a token of the tables. *)
Definition node_ok (t : Expr) : bool :=
  match t with
  | Var (Ident _ name) =>
      negb (startswith name _reserved_prefix)
      && negb (existsb (String.eqb name) ["True"; "False"; "None"]%string)
  | BinOp kind _ _ => existsb (String.eqb kind) binary_tokens
  | UnaryOp _ kind _ => existsb (String.eqb kind) unary_tokens
  | _ => true
  end.

Definition well_formed (t : Expr) : Prop := Expr_all node_ok t = true.

Lemma forallb_Forall_wf (ts : list Expr) :
  Forall well_formed ts -> forallb (Expr_all node_ok) ts = true.
Proof.
  induction 1 as [|t ts Ht _ IH]; [reflexivity|]. simpl. rewrite Ht, IH. reflexivity.
Qed.

Lemma well_formed_left_fold (op_token : string) (first : Expr) (rest : list Expr) :
  existsb (String.eqb op_token) binary_tokens = true ->
  well_formed first -> Forall well_formed rest ->
  well_formed (left_fold op_token first rest).
Proof.
  intros Htok Hfirst Hrest. revert first Hfirst.
  induction Hrest as [|t ts Ht _ IH]; intros first Hfirst; [exact Hfirst|].
  apply IH. unfold well_formed in *. cbn [Expr_all node_ok].
  rewrite Htok, Hfirst, Ht. reflexivity.
Qed.

Lemma well_formed_pairwise (lhs rhs : Expr) (op : ast.cmpop) :
  well_formed lhs -> well_formed rhs ->
  well_formed (pairwise_comparison lhs op rhs).
Proof.
  unfold well_formed. intros Hl Hr. destruct op; simpl; rewrite Hl, Hr; reflexivity.
Qed.

Lemma well_formed_zip3 (xs ys : list Expr) (ops : list ast.cmpop) :
  Forall well_formed xs -> Forall well_formed ys ->
  Forall well_formed
    (map (fun '(lhs, op, rhs) => pairwise_comparison lhs op rhs) (zip3 xs ops ys)).
Proof.
  intros Hxs. revert ops ys. induction Hxs as [|x xs Hx _ IH]; intros ops ys Hys.
  - constructor.
  - destruct ops as [|op ops]; [constructor|].
    destruct Hys as [|y ys Hy Hys]; [constructor|].
    simpl. constructor; [apply well_formed_pairwise; assumption | apply IH; assumption].
Qed.

Section WellFormed.

Variable ctx : SourceContext.

Let built_well_formed (c : ast.expr) : Prop :=
  forall b, build_expr ctx c = Ok b -> well_formed b.

Lemma well_formed_mapM (l : list ast.expr) (bs : list Expr) :
  (forall c, In c l -> built_well_formed c) ->
  mapM (build_expr ctx) l = Ok bs ->
  forallb (Expr_all node_ok) bs = true.
Proof.
  intros Hl H. apply forallb_Forall_wf. eapply mapM_Forall; [|exact H]. exact Hl.
Qed.

Lemma well_formed_optM (o : option ast.expr) (b : option Expr) :
  (forall c, In c (option_list o) -> built_well_formed c) ->
  optM (build_expr ctx) o = Ok b ->
  match b with Some e => Expr_all node_ok e | None => true end = true.
Proof.
  intros Ho H. destruct o as [c|]; simpl in H.
  - inv_bind H. injection H as <-. apply (Ho c); [left; reflexivity | assumption].
  - injection H as <-. reflexivity.
Qed.

Lemma well_formed_SliceExpr (base : Expr) (lower upper step : option ast.expr)
    (t : Expr) :
  (forall c, In c (option_list lower ++ option_list upper ++ option_list step) ->
             built_well_formed c) ->
  ExprBuilder.build_SliceExpr build_expr ctx base lower upper step = Ok t ->
  well_formed t.
Proof.
  intros Hc H. unfold ExprBuilder.build_SliceExpr in H. inv_bind H.
  injection H as <-. unfold well_formed. cbn [Expr_all node_ok].
  rewrite (well_formed_optM lower a), (well_formed_optM upper a0),
    (well_formed_optM step a1); try assumption; try reflexivity;
    intros c Hin; apply Hc; rewrite !in_app_iff; auto.
Qed.

Lemma well_formed_ExtSlice (base : Expr) (dims : list ast.slice) (ts : list Expr) :
  well_formed base ->
  (forall c, In c (List.concat (map slice_exprs dims)) -> built_well_formed c) ->
  ExprBuilder.build_ExtSlice build_expr ctx base dims = Ok ts ->
  forallb (Expr_all node_ok) ts = true.
Proof.
  intros Hbase Hc H. apply forallb_Forall_wf.
  eapply mapM_Forall; [|exact H].
  intros d Hd t Ht.
  assert (Hd' : forall c, In c (slice_exprs d) -> built_well_formed c).
  { intros c Hin. apply Hc. apply in_concat. exists (slice_exprs d).
    split; [apply in_map; exact Hd | exact Hin]. }
  destruct d as [value|lower upper step|dims'|]; simpl in Ht.
  - unfold ExprBuilder.build_Index in Ht.
    destruct (ExprBuilder.is_Tuple_or_List value); [discriminate|].
    apply (Hd' value); [left; reflexivity | exact Ht].
  - eapply well_formed_SliceExpr; eassumption.
  - discriminate.
  - injection Ht as <-. reflexivity.
Qed.

Lemma well_formed_keywords (keywords : list ast.keyword) (kwargs : list attribute_t) :
  (forall c, In c (map keyword_value keywords) -> built_well_formed c) ->
  mapM (ExprBuilder.build_keyword build_expr ctx) keywords = Ok kwargs ->
  forallb (fun kw => match kw with Attribute _ value => Expr_all node_ok value end)
          kwargs = true.
Proof.
  intros Hc H. apply forallb_forall. apply Forall_forall.
  eapply mapM_Forall; [|exact H].
  intros [arg value] Hkw kw Hbuilt. unfold ExprBuilder.build_keyword in Hbuilt.
  inv_bind Hbuilt.
  assert (Hwf : well_formed a).
  { apply (Hc value); [|assumption]. apply in_map_iff.
    exists (ast.mk_keyword arg value). split; [reflexivity | exact Hkw]. }
  destruct arg as [[|ch name]|]; try discriminate.
  injection Hbuilt as <-. exact Hwf.
Qed.

Lemma well_formed_JoinedStr_loop (values : list ast.expr) (s s' : string)
    (args args' : list Expr) :
  (forall l c inner conversion format_spec,
      In (ast.FormattedValue l c inner conversion format_spec) values ->
      built_well_formed inner) ->
  ExprBuilder.build_JoinedStr_loop build_expr ctx values s args = Ok (s', args') ->
  Forall well_formed args -> Forall well_formed args'.
Proof.
  revert s args. induction values as [|value values IH]; intros s args Hv H Hargs.
  - simpl in H. injection H as <- <-. exact Hargs.
  - assert (Hv' : forall l c inner conversion format_spec,
               In (ast.FormattedValue l c inner conversion format_spec) values ->
               built_well_formed inner)
      by (intros; eapply Hv; right; eassumption).
    cbn [ExprBuilder.build_JoinedStr_loop] in H.
    destruct value; try discriminate.
    + destruct value; try discriminate. eapply IH; eassumption.
    + eapply IH; eassumption.
    + destruct (negb (conversion =? -1)); [discriminate|].
      destruct format_spec; [discriminate|].
      inv_bind H. eapply IH; [exact Hv' | exact H|].
      apply Forall_app. split; [exact Hargs|]. constructor; [|constructor].
      eapply Hv; [left; reflexivity | eassumption].
Qed.

End WellFormed.

Ltac wf_child IHc :=
  match goal with
  | H : build_expr _ ?c = Ok ?b |- _ =>
      match goal with
      | _ : Expr_all node_ok b = true |- _ => fail 1
      | _ =>
          let Hwf := fresh "Hwf" in
          assert (Hwf : Expr_all node_ok b = true)
            by (apply (IHc c); [simpl; rewrite ?in_app_iff; simpl; tauto | exact H])
      end
  end.

(** Every tree view that [build_expr] returns is well formed: at every
    depth, no variable carries a name with the reserved prefix or one of
    the names [True], [False] and [None], every binary node carries a
    token of the operator tables (never [not in]), and every unary node
    one of [not], [-] and [~]. *)
Theorem build_expr_well_formed (ctx : SourceContext) (node : ast.expr) (t : Expr) :
  build_expr ctx node = Ok t -> well_formed t.
Proof.
  revert t. induction node as [node IH] using expr_subexpr_ind. intros t H.
  assert (IHc : forall c, In c (children node) ->
                forall b, build_expr ctx c = Ok b -> well_formed b)
    by (intros c Hc b Hb; eapply IH; [apply subexpr_child; exact Hc | exact Hb]).
  unfold well_formed in *.
  destruct node; run_handler in H; cbn [children] in IHc.
  - (* Attribute *)
    inv_bind H. injection H as <-. repeat wf_child IHc.
    cbn [Expr_all node_ok]. assumption.
  - (* Call *)
    inv_bind H. injection H as <-. repeat wf_child IHc.
    cbn [Expr_all node_ok]. rewrite Hwf. cbn [andb].
    rewrite (well_formed_keywords ctx keywords a2);
      [| intros c Hc; apply IHc; simpl; rewrite !in_app_iff; auto | assumption].
    rewrite andb_true_r.
    assert (Hargs : forallb (Expr_all node_ok) a0 = true).
    { eapply well_formed_mapM; [|eassumption].
      intros c Hc. apply IHc. simpl. rewrite !in_app_iff. auto. }
    destruct starargs as [starargs|].
    + inv_bind Ha1. injection Ha1 as <-. rewrite forallb_app, Hargs. simpl.
      rewrite andb_true_r.
      apply (IHc starargs); [simpl; rewrite !in_app_iff; simpl; auto | assumption].
    + injection Ha1 as <-. exact Hargs.
  - (* Ellipsis *)
    injection H as <-. reflexivity.
  - (* Name *)
    unfold ExprBuilder.build_Name in H.
    destruct (startswith id _reserved_prefix) eqn:Hres; [discriminate|].
    destruct (String.eqb id "True") eqn:HT; [injection H as <-; reflexivity|].
    destruct (String.eqb id "False") eqn:HF; [injection H as <-; reflexivity|].
    destruct (String.eqb id "None") eqn:HN; injection H as <-; [reflexivity|].
    cbn [Expr_all node_ok existsb]. rewrite Hres, HT, HF, HN. reflexivity.
  - (* NameConstant *)
    unfold ExprBuilder.build_NameConstant in H.
    destruct value as [|[|]| | | | | |]; try discriminate;
      injection H as <-; reflexivity.
  - (* BinOp *)
    inv_bind H. repeat wf_child IHc.
    destruct (ExprBuilder.is_Div op && negb (uses_true_division ctx));
      [discriminate|].
    destruct op; simpl in H; injection H as <-;
      cbn [Expr_all]; rewrite Hwf, Hwf0; reflexivity.
  - (* UnaryOp *)
    inv_bind H. repeat wf_child IHc.
    destruct op; simpl in H; try discriminate; injection H as <-;
      cbn [Expr_all]; rewrite Hwf; reflexivity.
  - (* BoolOp *)
    destruct (Z.of_nat (List.length values) <? 2); [discriminate|].
    inv_bind H.
    assert (Hall : Forall (fun b => Expr_all node_ok b = true) a)
      by (eapply mapM_Forall; [|eassumption]; exact IHc).
    destruct a as [|sub0 [|sub1 rest]]; try discriminate.
    inversion Hall as [|? ? Hsub0 Hrest]; subst.
    destruct op; simpl in H; injection H as <-;
      apply (well_formed_left_fold _ sub0 (sub1 :: rest)); auto.
  - (* IfExp *)
    inv_bind H. injection H as <-. repeat wf_child IHc.
    cbn [Expr_all node_ok]. rewrite Hwf, Hwf0, Hwf1. reflexivity.
  - (* Compare *)
    inv_bind H. repeat wf_child IHc.
    assert (Hrest : Forall well_formed a1)
      by (eapply mapM_Forall; [|eassumption];
          intros c Hc; apply IHc; simpl; auto).
    rewrite build_cmp_expr_pairwise in Ha2. injection Ha2 as <-.
    rewrite build_Compare_loop_conjunction in H. injection H as <-.
    refine (well_formed_left_fold "and" _ _ eq_refl _ _).
    + apply well_formed_pairwise; assumption.
    + apply (well_formed_zip3 (a0 :: a1) a1 ops); [constructor|]; assumption.
  - (* Subscript *)
    inv_bind H. repeat wf_child IHc.
    destruct slice_ as [value|lower upper step|dims|].
    + assert (Hplain : forall index,
                build_expr ctx value = Ok index ->
                Expr_all node_ok (Subscript a [index]) = true).
      { intros index Hindex. cbn [Expr_all node_ok forallb].
        rewrite Hwf, (IHc value); [reflexivity | simpl; auto | exact Hindex]. }
      destruct value; try (inv_bind H; injection H as <-; apply Hplain; assumption).
      inv_bind H. injection H as <-. cbn [Expr_all node_ok]. rewrite Hwf.
      eapply well_formed_mapM; [|eassumption].
      intros c Hc b Hb. eapply IH; [|exact Hb].
      apply (subexpr_under c (ast.Tuple lineno0 col_offset0 elts));
        [apply subexpr_child; exact Hc | simpl; auto].
    + inv_bind H. injection H as <-. cbn [Expr_all node_ok forallb].
      rewrite Hwf. simpl.
      rewrite (well_formed_SliceExpr ctx a lower upper step a0);
        [reflexivity | | assumption].
      intros c Hc. apply IHc. right. exact Hc.
    + inv_bind H. injection H as <-. cbn [Expr_all node_ok]. rewrite Hwf.
      eapply well_formed_ExtSlice; [exact Hwf | | eassumption].
      intros c Hc. apply IHc. right. exact Hc.
    + discriminate.
  - (* List *)
    inv_bind H. injection H as <-. cbn [Expr_all node_ok].
    eapply well_formed_mapM; eassumption.
  - (* Tuple *)
    inv_bind H. injection H as <-. cbn [Expr_all node_ok].
    eapply well_formed_mapM; eassumption.
  - (* Dict *)
    inv_bind H. injection H as <-. cbn [Expr_all node_ok].
    rewrite (well_formed_mapM ctx values a0);
      [| intros c Hc; apply IHc; rewrite in_app_iff; auto | assumption].
    rewrite andb_true_r. apply forallb_Forall_wf.
    eapply mapM_Forall; [|eassumption].
    intros [k|] Hk b Hb; simpl in Hb; [|discriminate].
    apply (IHc k); [|exact Hb]. rewrite in_app_iff. left.
    apply in_concat. exists [k]. split; [|left; reflexivity].
    apply in_map_iff. exists (Some k). split; [reflexivity | exact Hk].
  - (* Num *)
    injection H as <-. reflexivity.
  - (* Constant *)
    unfold ExprBuilder.build_Constant in H.
    destruct value as [|[|]| | | | | |]; try discriminate;
      injection H as <-; reflexivity.
  - (* Str *)
    injection H as <-. reflexivity.
  - (* JoinedStr *)
    inv_bind H. destruct a as [s args]. injection H as <-.
    cbn [Expr_all node_ok forallb]. simpl. rewrite andb_true_r.
    apply forallb_Forall_wf.
    eapply well_formed_JoinedStr_loop; [|eassumption | constructor].
    intros l c inner conversion format_spec Hin b Hb.
    eapply IH; [|exact Hb].
    eapply subexpr_under; [apply subexpr_child | exact Hin]. left. reflexivity.
  - (* FormattedValue *)
    discriminate.
  - (* ListComp *)
    destruct (Z.of_nat (List.length generators) >? 1); [discriminate|].
    destruct generators as [|[target iter ifs] generators]; [discriminate|].
    destruct (negb (Z.of_nat (List.length ifs) =? 0)); [discriminate|].
    inv_bind H. injection H as <-. repeat wf_child IHc.
    cbn [Expr_all node_ok]. rewrite Hwf, Hwf0, Hwf1. reflexivity.
  - (* Starred *)
    inv_bind H. injection H as <-. repeat wf_child IHc.
    cbn [Expr_all node_ok]. assumption.
  - (* OtherExpr *)
    discriminate.
Qed.

Lemma build_expr_well_formed_witness :
  well_formed
    (BinOp "and"
       (BinOp "<" (Var (Ident (mkRange 0 1) "a")) (Var (Ident (mkRange 4 5) "b")))
       (BinOp "<" (Var (Ident (mkRange 4 5) "b")) (Var (Ident (mkRange 8 9) "c")))).
Proof.
  exact (build_expr_well_formed ctx_chain
           (ast.Compare 1 0 (ast.Name 1 0 "a") ast.Lt (ast.Name 1 4 "b")
                        [ast.Lt] [ast.Name 1 8 "c"])
           _ eq_refl).
Defined.

(** ** Where the exceptions of the expression builder come from *)

(** [p] holds at [e] or at an expression under it. *)
Definition occurs (p : ast.expr -> bool) (e : ast.expr) : Prop :=
  p e = true \/ exists d, subexpr d e /\ p d = true.

Lemma occurs_under (p : ast.expr -> bool) (c e : ast.expr) :
  subexpr c e -> occurs p c -> occurs p e.
Proof.
  intros Hce [Hc|[d [Hdc Hd]]]; right.
  - exists c. split; assumption.
  - exists d. split; [eapply subexpr_trans; eassumption | exact Hd].
Qed.

Definition short_BoolOp (e : ast.expr) : bool :=
  match e with
  | ast.BoolOp _ _ _ values => (List.length values <? 2)%nat
  | _ => false
  end.

Definition odd_NameConstant (e : ast.expr) : bool :=
  match e with
  | ast.NameConstant _ _ (ast.CNone | ast.CBool _) => false
  | ast.NameConstant _ _ _ => true
  | _ => false
  end.

Definition unary_plus (e : ast.expr) : bool :=
  match e with ast.UnaryOp _ _ ast.UAdd _ => true | _ => false end.

Definition is_None {A : Type} (o : option A) : bool :=
  match o with None => true | Some _ => false end.

Definition dict_unpacking (e : ast.expr) : bool :=
  match e with ast.Dict _ _ keys _ => existsb is_None keys | _ => false end.

Definition no_generator (e : ast.expr) : bool :=
  match e with ast.ListComp _ _ _ [] => true | _ => false end.

Definition is_Attribute (e : ast.expr) : bool :=
  match e with ast.Attribute _ _ _ _ => true | _ => false end.

Definition division (e : ast.expr) : bool :=
  match e with ast.BinOp _ _ _ ast.Div _ => true | _ => false end.

Definition unknown_Constant (e : ast.expr) : bool :=
  match e with
  | ast.Constant _ _ (ast.CComplex _ | ast.CBytes _) => true
  | _ => false
  end.

Definition no_handler (e : ast.expr) : bool :=
  match e with
  | ast.OtherExpr _ _ _ | ast.FormattedValue _ _ _ _ _ => true
  | _ => false
  end.

Definition unnamed_keyword (kw : ast.keyword) : bool :=
  match kw with
  | ast.mk_keyword None _ | ast.mk_keyword (Some EmptyString) _ => true
  | _ => false
  end.

(** The nodes whose handlers raise [NotSupportedError] themselves. *)
Definition restricted_shape (e : ast.expr) : bool :=
  match e with
  | ast.Name _ _ id => startswith id _reserved_prefix
  | ast.Call _ _ _ _ _ keywords => existsb unnamed_keyword keywords
  | ast.Subscript _ _ _ _ | ast.JoinedStr _ _ _ | ast.ListComp _ _ _ _ => true
  | _ => false
  end.

(** What the tree must hold for [build_expr] to raise [e]. *)
Definition caused_by (ctx : SourceContext) (e : exn) (node : ast.expr) : Prop :=
  match e with
  | FrontendError _ _ =>
      (uses_true_division ctx = false /\ occurs division node)
      \/ occurs unknown_Constant node
  | NotSupportedError _ _ => occurs restricted_shape node
  | UnsupportedNodeError _ _ => occurs no_handler node
  | AssertionError _ => occurs short_BoolOp node
  | ValueError _ => occurs odd_NameConstant node
  | TypeError _ => occurs unary_plus node
  | AttributeError _ => occurs dict_unpacking node
  | IndexError _ => occurs no_generator node \/ occurs is_Attribute node
  end.

Lemma caused_by_under (ctx : SourceContext) (e : exn) (c node : ast.expr) :
  subexpr c node -> caused_by ctx e c -> caused_by ctx e node.
Proof.
  intros Hsub. destruct e; simpl;
    repeat match goal with
           | |- _ \/ _ -> _ => intros [H|H]; [left|right]; revert H
           | |- _ /\ _ -> _ => intros [H0 H]; split; [exact H0|]; revert H
           end;
    apply occurs_under; exact Hsub.
Qed.

Section Provenance.

Variable ctx : SourceContext.
Variable e : exn.
Variable G : Prop.

Lemma mapM_build_Raises (l : list ast.expr) :
  (forall c, In c l -> build_expr ctx c = Raises e -> G) ->
  mapM (build_expr ctx) l = Raises e -> G.
Proof.
  intros Hl H. destruct (mapM_Raises _ _ _ H) as [c [Hin Hc]]. eauto.
Qed.

Lemma optM_build_Raises (o : option ast.expr) :
  (forall c, In c (option_list o) -> build_expr ctx c = Raises e -> G) ->
  optM (build_expr ctx) o = Raises e -> G.
Proof.
  intros Ho H. destruct o as [c|]; simpl in H; [|discriminate].
  destruct (build_expr ctx c) as [b|e'] eqn:Hc; simpl in H; [discriminate|].
  injection H as ->. apply (Ho c); [left; reflexivity | exact Hc].
Qed.

Lemma build_SliceExpr_Raises (base : Expr) (lower upper step : option ast.expr) :
  (forall c, In c (option_list lower ++ option_list upper ++ option_list step) ->
             build_expr ctx c = Raises e -> G) ->
  ExprBuilder.build_SliceExpr build_expr ctx base lower upper step = Raises e -> G.
Proof.
  intros Hc H. unfold ExprBuilder.build_SliceExpr in H.
  apply bind_Raises_inv in H. destruct H as [H | [? [_ H]]].
  { eapply optM_build_Raises; [|exact H].
    intros c Hin. apply Hc. rewrite !in_app_iff. auto. }
  apply bind_Raises_inv in H. destruct H as [H | [? [_ H]]].
  { eapply optM_build_Raises; [|exact H].
    intros c Hin. apply Hc. rewrite !in_app_iff. auto. }
  apply bind_Raises_inv in H. destruct H as [H | [? [_ H]]]; [|discriminate].
  eapply optM_build_Raises; [|exact H].
  intros c Hin. apply Hc. rewrite !in_app_iff. auto.
Qed.

Lemma build_ExtSlice_Raises (base : Expr) (dims : list ast.slice) :
  (forall c, In c (List.concat (map slice_exprs dims)) ->
             build_expr ctx c = Raises e -> G) ->
  (forall r msg, e = NotSupportedError r msg -> G) ->
  ExprBuilder.build_ExtSlice build_expr ctx base dims = Raises e -> G.
Proof.
  intros Hc Hlocal H. destruct (mapM_Raises _ _ _ H) as [d [Hd Hraise]].
  assert (Hd' : forall c, In c (slice_exprs d) -> build_expr ctx c = Raises e -> G).
  { intros c Hin. apply Hc. apply in_concat. exists (slice_exprs d).
    split; [apply in_map; exact Hd | exact Hin]. }
  destruct d as [value|lower upper step|dims'|]; simpl in Hraise.
  - unfold ExprBuilder.build_Index in Hraise.
    destruct (ExprBuilder.is_Tuple_or_List value).
    + injection Hraise as <-. eapply Hlocal. reflexivity.
    + apply (Hd' value); [left; reflexivity | exact Hraise].
  - eapply build_SliceExpr_Raises; eassumption.
  - injection Hraise as <-. eapply Hlocal. reflexivity.
  - discriminate.
Qed.

Lemma build_keywords_Raises (keywords : list ast.keyword) :
  (forall c, In c (map keyword_value keywords) -> build_expr ctx c = Raises e -> G) ->
  (forall r msg, e = NotSupportedError r msg ->
                 existsb unnamed_keyword keywords = true -> G) ->
  mapM (ExprBuilder.build_keyword build_expr ctx) keywords = Raises e -> G.
Proof.
  intros Hc Hlocal H. destruct (mapM_Raises _ _ _ H) as [[arg value] [Hkw Hraise]].
  unfold ExprBuilder.build_keyword in Hraise.
  destruct (build_expr ctx value) as [b|e'] eqn:Hvalue; simpl in Hraise.
  - assert (Hun : existsb unnamed_keyword keywords = true).
    { apply existsb_exists. exists (ast.mk_keyword arg value). split; [exact Hkw|].
      destruct arg as [[|ch name]|]; try reflexivity. discriminate. }
    destruct arg as [[|ch name]|]; try discriminate;
      injection Hraise as <-; eapply Hlocal; try reflexivity; exact Hun.
  - injection Hraise as ->. apply (Hc value); [|exact Hvalue].
    apply in_map_iff. exists (ast.mk_keyword arg value). split; [reflexivity | exact Hkw].
Qed.

Lemma build_JoinedStr_loop_Raises (values : list ast.expr) (s : string)
    (args : list Expr) :
  (forall l c inner conversion format_spec,
      In (ast.FormattedValue l c inner conversion format_spec) values ->
      build_expr ctx inner = Raises e -> G) ->
  (forall r msg, e = NotSupportedError r msg -> G) ->
  ExprBuilder.build_JoinedStr_loop build_expr ctx values s args = Raises e -> G.
Proof.
  revert s args. induction values as [|value values IH]; intros s args Hv Hlocal H.
  - discriminate.
  - assert (Hv' : forall l c inner conversion format_spec,
               In (ast.FormattedValue l c inner conversion format_spec) values ->
               build_expr ctx inner = Raises e -> G)
      by (intros; eapply Hv; [right|]; eassumption).
    cbn [ExprBuilder.build_JoinedStr_loop] in H.
    destruct value;
      try (injection H as <-; eapply Hlocal; reflexivity).
    + destruct value; try (injection H as <-; eapply Hlocal; reflexivity).
      eapply IH; eassumption.
    + eapply IH; eassumption.
    + destruct (negb (conversion =? -1));
        [injection H as <-; eapply Hlocal; reflexivity|].
      destruct format_spec; [injection H as <-; eapply Hlocal; reflexivity|].
      apply bind_Raises_inv in H. destruct H as [H | [? [_ H]]].
      * eapply Hv; [left; reflexivity | exact H].
      * eapply IH; eassumption.
Qed.

End Provenance.

Lemma skip_whitespace_Raises (src : string) (fuel : nat) (start_pos : Z) (e : exn) :
  ExprBuilder.skip_whitespace src fuel start_pos = Raises e ->
  e = IndexError "index out of range".
Proof.
  revert start_pos. induction fuel as [|fuel IH]; intros pos H; simpl in H;
    (destruct (get_char src pos) as [ch|]; [destruct (in_whitespace ch)|]);
    try discriminate; try (injection H as <-; reflexivity).
  eapply IH. exact H.
Qed.

Ltac raise_step H :=
  apply bind_Raises_inv in H;
  let a := fresh "a" in
  let Ha := fresh "Ha" in
  destruct H as [H | [a [Ha H]]].

Ltac in_children := simpl; rewrite ?in_app_iff; simpl; tauto.

Ltac here := first [ left; reflexivity | left; assumption ].

(** An exception that [build_expr] raises is traced to a node of the
    tree: a [FrontendError] of the base class to a division translated
    without the true-division flag or to a complex or bytes constant, a
    [NotSupportedError] to a reserved name, a call with an unnamed
    keyword, a subscript, a formatted string or a list comprehension,
    an [UnsupportedNodeError] to a node without a handler, and each host
    exception to the one shape that provokes it. *)
Theorem build_expr_Raises_caused_by (ctx : SourceContext) (node : ast.expr) (e : exn) :
  build_expr ctx node = Raises e -> caused_by ctx e node.
Proof.
  revert e. induction node as [node IH] using expr_subexpr_ind. intros e H.
  assert (Hsub : forall c, subexpr c node ->
                 build_expr ctx c = Raises e -> caused_by ctx e node)
    by (intros c Hc Hraise; eapply caused_by_under; [exact Hc | apply IH; assumption]).
  assert (Hchild : forall c, In c (children node) ->
                   build_expr ctx c = Raises e -> caused_by ctx e node)
    by (intros c Hc; apply Hsub; apply subexpr_child; exact Hc).
  clear IH.
  destruct node; run_handler in H; cbn [children] in Hchild.
  - (* Attribute *)
    raise_step H; [eapply Hchild; [|exact H]; in_children|].
    raise_step H; [|discriminate].
    apply skip_whitespace_Raises in H. subst e. right. left. reflexivity.
  - (* Call *)
    raise_step H; [eapply Hchild; [|exact H]; in_children|].
    raise_step H.
    { eapply mapM_build_Raises; [|exact H]. intros c Hc. apply Hchild. in_children. }
    raise_step H.
    { destruct starargs as [starargs|]; [|discriminate].
      raise_step H; [|discriminate]. eapply Hchild; [|exact H]. in_children. }
    raise_step H; [|discriminate].
    eapply build_keywords_Raises; [| |exact H].
    + intros c Hc. apply Hchild. in_children.
    + intros r msg -> Hun. left. exact Hun.
  - (* Ellipsis *)
    discriminate.
  - (* Name *)
    unfold ExprBuilder.build_Name in H.
    destruct (startswith id _reserved_prefix) eqn:Hres.
    + injection H as <-. left. exact Hres.
    + destruct (String.eqb id "True"); [discriminate|].
      destruct (String.eqb id "False"); [discriminate|].
      destruct (String.eqb id "None"); discriminate.
  - (* NameConstant *)
    unfold ExprBuilder.build_NameConstant in H.
    destruct value as [|[|]| | | | | |]; try discriminate;
      injection H as <-; left; reflexivity.
  - (* BinOp *)
    raise_step H; [eapply Hchild; [|exact H]; in_children|].
    raise_step H; [eapply Hchild; [|exact H]; in_children|].
    destruct op; simpl in H; try discriminate.
    destruct (uses_true_division ctx) eqn:Hflag; simpl in H; [discriminate|].
    injection H as <-. left. split; [exact Hflag | left; reflexivity].
  - (* UnaryOp *)
    raise_step H; [eapply Hchild; [|exact H]; in_children|].
    destruct op; simpl in H; try discriminate.
    injection H as <-. left. reflexivity.
  - (* BoolOp *)
    destruct (Z.of_nat (List.length values) <? 2) eqn:Hlen.
    + injection H as <-. left. simpl. apply Nat.ltb_lt. apply Z.ltb_lt in Hlen. lia.
    + raise_step H; [eapply mapM_build_Raises; [|exact H]; exact Hchild|].
      apply mapM_length in Ha. apply Z.ltb_ge in Hlen.
      destruct a as [|sub0 [|sub1 rest]]; simpl in Ha; try lia.
      destruct op; discriminate.
  - (* IfExp *)
    raise_step H; [eapply Hchild; [|exact H]; in_children|].
    raise_step H; [eapply Hchild; [|exact H]; in_children|].
    raise_step H; [eapply Hchild; [|exact H]; in_children|].
    discriminate.
  - (* Compare *)
    raise_step H; [eapply Hchild; [|exact H]; in_children|].
    raise_step H; [eapply Hchild; [|exact H]; in_children|].
    raise_step H.
    { eapply mapM_build_Raises; [|exact H]. intros c Hc. apply Hchild. in_children. }
    rewrite build_cmp_expr_pairwise in H. simpl in H.
    rewrite build_Compare_loop_conjunction in H. discriminate.
  - (* Subscript *)
    raise_step H; [eapply Hchild; [|exact H]; in_children|].
    destruct slice_ as [value|lower upper step|dims|].
    + assert (Hplain : (index <- build_expr ctx value ;; Ok (Subscript a [index]))
                       = Raises e -> caused_by ctx e
                           (ast.Subscript lineno col_offset node (ast.Index value))).
      { intros Hp. raise_step Hp; [|discriminate].
        eapply Hchild; [|exact Hp]. in_children. }
      destruct value; try (apply Hplain; exact H).
      raise_step H; [|discriminate].
      eapply mapM_build_Raises; [|exact H].
      intros c Hc. apply Hsub.
      apply (subexpr_under c (ast.Tuple lineno0 col_offset0 elts));
        [apply subexpr_child; exact Hc | in_children].
    + raise_step H; [|discriminate].
      eapply build_SliceExpr_Raises; [|exact H].
      intros c Hc. apply Hchild. right. exact Hc.
    + raise_step H; [|discriminate].
      eapply build_ExtSlice_Raises; [| |exact H].
      * intros c Hc. apply Hchild. right. exact Hc.
      * intros r msg ->. left. reflexivity.
    + injection H as <-. left. reflexivity.
  - (* List *)
    raise_step H; [|discriminate].
    eapply mapM_build_Raises; [|exact H]. exact Hchild.
  - (* Tuple *)
    raise_step H; [|discriminate].
    eapply mapM_build_Raises; [|exact H]. exact Hchild.
  - (* Dict *)
    raise_step H.
    { destruct (mapM_Raises _ _ _ H) as [[k|] [Hk Hraise]]; simpl in Hraise.
      - eapply Hchild; [|exact Hraise]. rewrite in_app_iff. left.
        apply in_concat. exists [k]. split; [|left; reflexivity].
        apply in_map_iff. exists (Some k). split; [reflexivity | exact Hk].
      - injection Hraise as <-. left. simpl. apply existsb_exists.
        exists None. split; [exact Hk | reflexivity]. }
    raise_step H; [|discriminate].
    eapply mapM_build_Raises; [|exact H].
    intros c Hc. apply Hchild. rewrite in_app_iff. right. exact Hc.
  - (* Num *)
    discriminate.
  - (* Constant *)
    unfold ExprBuilder.build_Constant in H.
    destruct value as [|[|]| | | | | |]; try discriminate;
      injection H as <-; right; left; reflexivity.
  - (* Str *)
    discriminate.
  - (* JoinedStr *)
    raise_step H; [|destruct a; discriminate].
    eapply build_JoinedStr_loop_Raises; [| |exact H].
    + intros l c inner conversion format_spec Hin. apply Hsub.
      eapply subexpr_under; [apply subexpr_child | exact Hin]. left. reflexivity.
    + intros r msg ->. left. reflexivity.
  - (* FormattedValue *)
    injection H as <-. left. reflexivity.
  - (* ListComp *)
    destruct (Z.of_nat (List.length generators) >? 1);
      [injection H as <-; left; reflexivity|].
    destruct generators as [|[target iter ifs] generators];
      [injection H as <-; left; left; reflexivity|].
    destruct (negb (Z.of_nat (List.length ifs) =? 0));
      [injection H as <-; left; reflexivity|].
    raise_step H; [eapply Hchild; [|exact H]; in_children|].
    raise_step H; [eapply Hchild; [|exact H]; in_children|].
    raise_step H; [eapply Hchild; [|exact H]; in_children|].
    discriminate.
  - (* Starred *)
    raise_step H; [|discriminate]. eapply Hchild; [|exact H]. in_children.
  - (* OtherExpr *)
    injection H as <-. left. reflexivity.
Qed.

Lemma build_expr_Raises_caused_by_witness :
  occurs unary_plus (ast.BinOp 1 0 (ast.Name 1 0 "a") ast.Add
                       (ast.UnaryOp 1 4 ast.UAdd (ast.Name 1 5 "b"))).
Proof.
  exact (build_expr_Raises_caused_by ctx_chain
           (ast.BinOp 1 0 (ast.Name 1 0 "a") ast.Add
              (ast.UnaryOp 1 4 ast.UAdd (ast.Name 1 5 "b")))
           (TypeError "object of type 'NoneType' has no len()") eq_refl).
Defined.

(** ** Statement blocks *)

Lemma filter_None_app {A : Type} (l1 l2 : list (option A)) :
  filter_None (l1 ++ l2) = filter_None l1 ++ filter_None l2.
Proof.
  induction l1 as [|[a|] l1 IH]; simpl; [reflexivity | f_equal; exact IH | exact IH].
Qed.

(** Translating a block is translating its parts in order: the block
    [stmts1 ++ stmts2] gives the statements of [stmts1] followed by
    those of [stmts2], and the exception of [stmts1], or else of
    [stmts2], when one of them raises. *)
Theorem build_stmts_app (ctx : SourceContext) (stmts1 stmts2 : list ast.stmt) :
  build_stmts ctx (stmts1 ++ stmts2)
  = (built1 <- build_stmts ctx stmts1 ;;
     built2 <- build_stmts ctx stmts2 ;;
     Ok (built1 ++ built2)).
Proof.
  unfold build_stmts, build_stmts_with. rewrite mapM_app.
  destruct (mapM (build_stmt ctx) stmts1) as [bs1|e]; simpl; [|reflexivity].
  destruct (mapM (build_stmt ctx) stmts2) as [bs2|e]; simpl; [|reflexivity].
  rewrite filter_None_app. reflexivity.
Qed.

Lemma mapM_first_error {A B : Type} (f : A -> outcome B) (l : list A) (e : exn) :
  mapM f l = Raises e <->
  exists before a after bs,
    l = before ++ a :: after /\ mapM f before = Ok bs /\ f a = Raises e.
Proof.
  split.
  - induction l as [|a l IH]; intros H; simpl in H; [discriminate|].
    destruct (f a) as [b|e'] eqn:Hb; simpl in H.
    + destruct (mapM f l) as [bs|e'] eqn:Hbs; simpl in H; [discriminate|].
      injection H as ->. destruct (IH eq_refl) as [before [a' [after [bs [-> [Hpre Ha']]]]]].
      exists (a :: before), a', after, (b :: bs). split; [reflexivity|].
      split; [simpl; rewrite Hb, Hpre; reflexivity | exact Ha'].
    + injection H as ->. exists [], a, l, []. repeat split. exact Hb.
  - intros [before [a [after [bs [-> [Hpre Ha]]]]]].
    rewrite mapM_app, Hpre. simpl. rewrite Ha. reflexivity.
Qed.

(** A block raises [e] exactly when one of its statements raises [e]
    and all the statements before it translate: the first failing
    statement decides, and nothing after it is looked at. *)
Theorem build_stmts_first_error (ctx : SourceContext) (stmts : list ast.stmt) (e : exn) :
  build_stmts ctx stmts = Raises e <->
  exists before s after built,
    stmts = before ++ s :: after
    /\ build_stmts ctx before = Ok built
    /\ build_stmt ctx s = Raises e.
Proof.
  unfold build_stmts, build_stmts_with. split.
  - intros H.
    destruct (mapM (build_stmt ctx) stmts) as [bs|e'] eqn:Hm; simpl in H;
      [discriminate|].
    injection H as ->. apply mapM_first_error in Hm.
    destruct Hm as [before [s [after [bs [-> [Hpre Hs]]]]]].
    exists before, s, after, (filter_None bs). split; [reflexivity|].
    split; [rewrite Hpre; reflexivity | exact Hs].
  - intros [before [s [after [built [-> [Hpre Hs]]]]]].
    destruct (mapM (build_stmt ctx) before) as [bs|e'] eqn:Hm; simpl in Hpre;
      [|discriminate].
    assert (Hall : mapM (build_stmt ctx) (before ++ s :: after) = Raises e)
      by (apply mapM_first_error; exists before, s, after, bs; auto).
    rewrite Hall. reflexivity.
Qed.

(** A documentation string: an expression statement over a [Str]. *)
Definition is_docstring (s : ast.stmt) : bool :=
  match s with
  | ast.Expr _ _ value => StmtBuilder.is_Str value
  | _ => false
  end.

Lemma returns_not_None {A : Type} (m : outcome A) : returns m <> Ok None.
Proof. destruct m; simpl; discriminate. Qed.

Lemma build_stmt_None (ctx : SourceContext) (s : ast.stmt) (built : option Stmt) :
  build_stmt ctx s = Ok built ->
  (built = None <-> is_docstring s = true).
Proof.
  intros H. destruct s; cbn [build_stmt is_docstring] in *;
    try discriminate H;
    try (split; [intros ->; exfalso; eapply returns_not_None; exact H
                | discriminate]).
  unfold StmtBuilder.build_Expr in H.
  destruct (StmtBuilder.is_Str value).
  - injection H as <-. split; reflexivity.
  - inv_bind H. injection H as <-. split; discriminate.
Qed.

(** A block that translates yields one statement for each of its
    statements except the documentation strings, which are the only
    statements that vanish. *)
Theorem build_stmts_length (ctx : SourceContext) (stmts : list ast.stmt)
    (built : list Stmt) :
  build_stmts ctx stmts = Ok built ->
  (List.length built + List.length (filter is_docstring stmts))%nat
  = List.length stmts.
Proof.
  revert built. induction stmts as [|s stmts IH]; intros built H.
  - injection H as <-. reflexivity.
  - rewrite build_stmts_cons in H. inv_bind H. injection H as <-.
    specialize (IH _ Ha0). pose proof (build_stmt_None ctx s a Ha) as Hdoc.
    simpl. destruct a as [t|]; destruct (is_docstring s);
      simpl; try lia.
    + destruct Hdoc as [_ Hd]. discriminate (Hd eq_refl).
    + destruct Hdoc as [Hd _]. discriminate (Hd eq_refl).
Qed.

Lemma build_stmts_first_error_witness :
  build_stmts ctx_chain [ast.Pass 1 0; ast.Raise 1 0 None; ast.OtherStmt "Try" 1 0]
  = Raises (AttributeError "'NoneType' object has no attribute 'lineno'").
Proof.
  apply (proj2 (build_stmts_first_error ctx_chain
                  [ast.Pass 1 0; ast.Raise 1 0 None; ast.OtherStmt "Try" 1 0] _)).
  exists [ast.Pass 1 0], (ast.Raise 1 0 None), [ast.OtherStmt "Try" 1 0],
    [Pass (mkRange 0 4)].
  repeat split.
Defined.

Lemma build_stmts_length_witness :
  (List.length [Pass (mkRange 9 13)]
   + List.length (filter is_docstring [ast.Expr 1 0 (ast.Str 1 0 "doc"); ast.Pass 2 0]))%nat
  = 2%nat.
Proof.
  exact (build_stmts_length ctx_chain
           [ast.Expr 1 0 (ast.Str 1 0 "doc"); ast.Pass 2 0] _ eq_refl).
Defined.

(** ** Attribute names *)

Lemma skip_whitespace_Ok (src : string) (fuel : nat) (start_pos p : Z) :
  ExprBuilder.skip_whitespace src fuel start_pos = Ok p ->
  start_pos <= p
  /\ (exists ch, get_char src p = Some ch /\ in_whitespace ch = false)
  /\ (forall q, start_pos <= q < p ->
        exists ch, get_char src q = Some ch /\ in_whitespace ch = true).
Proof.
  revert start_pos. induction fuel as [|fuel IH]; intros pos H; simpl in H;
    destruct (get_char src pos) as [ch|] eqn:Hch; try discriminate;
    destruct (in_whitespace ch) eqn:Hws; try discriminate.
  - injection H as <-. split; [lia|]. split; [eauto | intros q Hq; lia].
  - destruct (IH _ H) as [Hle [Hp Hbetween]].
    split; [lia|]. split; [exact Hp|].
    intros q Hq. destruct (Z.eq_dec q pos) as [->|Hne]; [eauto|].
    apply Hbetween. lia.
  - injection H as <-. split; [lia|]. split; [eauto | intros q Hq; lia].
Qed.

(** An attribute access that translates is a [Select] on the built
    base; the range of the attribute's name has the length of the name
    and starts at the first character that is not whitespace, scanning
    from one past the end of the base's range. *)
Theorem build_Attribute_name_range (ctx : SourceContext) (lineno col_offset : Z)
    (value : ast.expr) (attr : string) (t : Expr) :
  build_expr ctx (ast.Attribute lineno col_offset value attr) = Ok t ->
  exists base p,
    build_expr ctx value = Ok base
    /\ t = Select base (Ident (mkRange p (p + len attr)) attr)
    /\ end_ (range base) + 1 <= p
    /\ (exists ch, get_char (encode_utf8 (source ctx)) p = Some ch
                   /\ in_whitespace ch = false)
    /\ (forall q, end_ (range base) + 1 <= q < p ->
          exists ch, get_char (encode_utf8 (source ctx)) q = Some ch
                     /\ in_whitespace ch = true).
Proof.
  intros H. run_handler in H. inv_bind H. injection H as <-.
  destruct (skip_whitespace_Ok _ _ _ _ Ha0) as [Hle [Hp Hbetween]].
  exists a, a0. repeat split; assumption.
Qed.

Definition ctx_attribute : SourceContext :=
  mkSourceContext "a.  b" "attribute.py" 1 0 true.

Lemma build_Attribute_name_range_witness :
  exists base p,
    build_expr ctx_attribute (ast.Name 1 0 "a") = Ok base
    /\ Select (Var (Ident (mkRange 0 1) "a")) (Ident (mkRange 4 5) "b")
       = Select base (Ident (mkRange p (p + len "b")) "b").
Proof.
  destruct (build_Attribute_name_range ctx_attribute 1 0 (ast.Name 1 0 "a") "b" _ eq_refl)
    as [base [p [Hbase [Ht _]]]].
  exists base, p. split; assumption.
Defined.

(** ** Formatted strings *)

Definition is_FormattedValue (e : ast.expr) : bool :=
  match e with ast.FormattedValue _ _ _ _ _ => true | _ => false end.

(** The template of a formatted string: the literal segments as they
    are, and [{}] for every interpolated value. *)
Fixpoint template (values : list ast.expr) : string :=
  match values with
  | [] => ""
  | ast.FormattedValue _ _ _ _ _ :: values' => ("{}" ++ template values')%string
  | ast.Str _ _ seg :: values' | ast.Constant _ _ (ast.CStr seg) :: values' =>
      (seg ++ template values')%string
  | _ :: values' => template values'
  end.

Lemma string_app_assoc (a b c : string) :
  ((a ++ b) ++ c = a ++ (b ++ c))%string.
Proof. induction a as [|ch a IH]; simpl; [reflexivity | f_equal; exact IH]. Qed.

Lemma build_JoinedStr_loop_Ok (ctx : SourceContext) (values : list ast.expr)
    (s s' : string) (args args' : list Expr) :
  ExprBuilder.build_JoinedStr_loop build_expr ctx values s args = Ok (s', args') ->
  s' = (s ++ template values)%string
  /\ exists built,
       args' = args ++ built
       /\ List.length built = List.length (filter is_FormattedValue values).
Proof.
  revert s args. induction values as [|value values IH]; intros s args H.
  - simpl in H. injection H as <- <-. split.
    + simpl. induction s as [|ch s IHs]; simpl; [reflexivity | f_equal; exact IHs].
    + exists []. split; [symmetry; apply app_nil_r | reflexivity].
  - cbn [ExprBuilder.build_JoinedStr_loop] in H.
    destruct value; try discriminate.
    + destruct value; try discriminate.
      destruct (IH _ _ H) as [-> [built [-> Hlen]]].
      split; [apply string_app_assoc | exists built; split; [reflexivity | exact Hlen]].
    + destruct (IH _ _ H) as [-> [built [-> Hlen]]].
      split; [apply string_app_assoc | exists built; split; [reflexivity | exact Hlen]].
    + destruct (negb (conversion =? -1)); [discriminate|].
      destruct format_spec; [discriminate|].
      inv_bind H. destruct (IH _ _ H) as [-> [built [-> Hlen]]].
      split; [apply string_app_assoc|].
      exists (a :: built). split; [rewrite <- app_assoc; reflexivity|].
      simpl. f_equal. exact Hlen.
Qed.

(** A formatted string that translates is a call of [format] on the
    string literal of its template, in which literal segments stand
    unchanged (braces in them are not escaped) and every interpolated
    value is [{}]; the call has one positional argument per
    interpolated value and no keyword argument. *)
Theorem build_JoinedStr_template (ctx : SourceContext) (lineno col_offset : Z)
    (values : list ast.expr) (t : Expr) :
  build_expr ctx (ast.JoinedStr lineno col_offset values) = Ok t ->
  exists args,
    t = Apply (Select (StringLiteral (make_range ctx lineno col_offset (col_offset + 1))
                                     (template values))
                      (Ident (make_range ctx lineno col_offset (col_offset + 1)) "format"))
              args []
    /\ List.length args = List.length (filter is_FormattedValue values).
Proof.
  intros H. run_handler in H. inv_bind H. destruct a as [s args].
  injection H as <-.
  destruct (build_JoinedStr_loop_Ok _ _ _ _ _ _ Ha) as [-> [built [-> Hlen]]].
  exists built. split; [reflexivity | exact Hlen].
Qed.

Definition ctx_fstring : SourceContext :=
  mkSourceContext "f'{{}}{x}'" "fstring.py" 1 0 true.

Lemma build_JoinedStr_template_witness :
  exists args,
    Apply (Select (StringLiteral (mkRange 0 1) "{}{}") (Ident (mkRange 0 1) "format"))
          [Var (Ident (mkRange 7 8) "x")] []
    = Apply (Select (StringLiteral (mkRange 0 1) "{}{}") (Ident (mkRange 0 1) "format"))
            args []
    /\ List.length args = 1%nat.
Proof.
  exact (build_JoinedStr_template ctx_fstring 1 0
           [ast.Str 1 0 "{}"; ast.FormattedValue 1 6 (ast.Name 1 7 "x") (-1) None]
           _ eq_refl).
Defined.

(** ** Locating a substring before an offset *)

(** [s[n:]] *)
Fixpoint string_skip (n : nat) (s : string) : string :=
  match n, s with
  | O, _ => s
  | S _, EmptyString => EmptyString
  | S n', String _ s' => string_skip n' s'
  end.

(** [sub] occurs in [s] at offset [k]. *)
Definition occurs_at (sub s : string) (k : nat) : Prop :=
  (k <= String.length s)%nat /\ String.prefix sub (string_skip k s) = true.

Lemma rindex_from_spec (s sub : string) (i : nat) :
  match rindex_from s sub i with
  | Some j =>
      (i <= j)%nat /\ occurs_at sub s (j - i)
      /\ (forall k, (j - i < k)%nat -> ~ occurs_at sub s k)
  | None => forall k, ~ occurs_at sub s k
  end.
Proof.
  revert i. induction s as [|a s IH]; intros i.
  - cbn [rindex_from]. destruct (String.prefix sub "") eqn:Hp.
    + split; [lia|]. rewrite Nat.sub_diag. split; [split; [simpl; lia | exact Hp]|].
      intros k Hk [Hle _]. simpl in Hle. lia.
    + intros k [Hle Hk]. simpl in Hle. assert (k = 0%nat) by lia. subst k.
      cbn [string_skip] in Hk. congruence.
  - cbn [rindex_from]. specialize (IH (S i)).
    destruct (rindex_from s sub (S i)) as [j|].
    + destruct IH as [Hle [[Hlen Hocc] Hlast]].
      split; [lia|]. replace (j - i)%nat with (S (j - S i)) by lia.
      split; [split; [simpl; lia | exact Hocc]|].
      intros k Hk [Hklen Hkocc]. destruct k as [|k]; [lia|].
      apply (Hlast k); [lia|]. split; [simpl in Hklen; lia | exact Hkocc].
    + destruct (String.prefix sub (String a s)) eqn:Hp.
      * split; [lia|]. rewrite Nat.sub_diag.
        split; [split; [simpl; lia | exact Hp]|].
        intros k Hk [Hklen Hkocc]. destruct k as [|k]; [lia|].
        apply (IH k). split; [simpl in Hklen; lia | exact Hkocc].
      * intros k [Hklen Hkocc]. destruct k as [|k].
        -- cbn [string_skip] in Hkocc. congruence.
        -- apply (IH k). split; [simpl in Hklen; lia | exact Hkocc].
Qed.

(** [find_before] returns the range around the last occurrence of
    [substr] in the source text before [pos], shifted by the two
    offsets, and raises [ValueError] exactly when [substr] does not
    occur there. *)
Theorem find_before_last_occurrence (ctx : SourceContext) (pos : Z) (substr : string)
    (offsets : Z * Z) :
  match find_before ctx pos substr offsets with
  | Ok r =>
      exists p : nat,
        r = mkRange (Z.of_nat p + fst offsets)
                    (Z.of_nat p + len substr + snd offsets)
        /\ occurs_at substr (slice_to (source ctx) pos) p
        /\ (forall k, (p < k)%nat -> ~ occurs_at substr (slice_to (source ctx) pos) k)
  | Raises e =>
      e = ValueError "substring not found"
      /\ (forall k, ~ occurs_at substr (slice_to (source ctx) pos) k)
  end.
Proof.
  unfold find_before, rindex.
  pose proof (rindex_from_spec (slice_to (source ctx) pos) substr 0) as Hspec.
  destruct (rindex_from (slice_to (source ctx) pos) substr 0) as [j|]; simpl.
  - destruct Hspec as [_ [Hocc Hlast]]. rewrite Nat.sub_0_r in Hocc, Hlast.
    exists j. split; [reflexivity|]. split; assumption.
  - split; [reflexivity | exact Hspec].
Qed.

(** ** Dimensions of a subscript *)

(** The number of index expressions of a subscript: the elements of a
    tuple index, the components of an extended slice, and one
    otherwise. *)
Definition dimensions (s : ast.slice) : nat :=
  match s with
  | ast.Index (ast.Tuple _ _ elts) => List.length elts
  | ast.Index _ | ast.Slice _ _ _ => 1
  | ast.ExtSlice dims => List.length dims
  | ast.SliceEllipsis => 0
  end.

(** In an extended slice a slice or an ellipsis has no location of its
    own: its view is built with the range of the base. *)
Definition located_at_base (base : Expr) (dim : ast.slice) (t : Expr) : Prop :=
  match dim with
  | ast.Slice _ _ _ =>
      exists lower upper step, t = SliceExpr (range base) lower upper step
  | ast.SliceEllipsis => t = Dots (range base)
  | _ => True
  end.

(** A subscript that translates is a [Subscript] on the built base with
    one index expression per dimension; in an extended slice, the view
    of a slice or an ellipsis component is built with the base's
    range. *)
Theorem build_Subscript_dimensions (ctx : SourceContext) (lineno col_offset : Z)
    (value : ast.expr) (slice_ : ast.slice) (t : Expr) :
  build_expr ctx (ast.Subscript lineno col_offset value slice_) = Ok t ->
  exists base indices,
    build_expr ctx value = Ok base
    /\ t = Subscript base indices
    /\ List.length indices = dimensions slice_
    /\ (forall dims, slice_ = ast.ExtSlice dims ->
          Forall2 (located_at_base base) dims indices).
Proof.
  intros H. run_handler in H. inv_bind H. exists a.
  destruct slice_ as [index|lower upper step|dims|].
  - destruct index;
      try (inv_bind H; injection H as <-; eexists; repeat split; try eassumption;
           discriminate).
    inv_bind H. injection H as <-. eexists. repeat split; try eassumption.
    + eapply mapM_length; eassumption.
    + discriminate.
  - inv_bind H. injection H as <-. eexists. repeat split; try eassumption.
    discriminate.
  - inv_bind H. injection H as <-. exists a0. repeat split; try assumption.
    + eapply mapM_length; eassumption.
    + intros dims' Heq. injection Heq as <-.
      unfold ExprBuilder.build_ExtSlice in Ha0. revert a0 Ha0.
      induction dims as [|d dims IH]; intros ts Hts; simpl in Hts.
      * injection Hts as <-. constructor.
      * inv_bind Hts. injection Hts as <-. constructor; [|apply IH; assumption].
        destruct d as [v|lo up st|ds|]; simpl; try exact I.
        -- simpl in Ha0. unfold ExprBuilder.build_SliceExpr in Ha0.
           inv_bind Ha0. injection Ha0 as <-. eauto.
        -- simpl in Ha0. injection Ha0 as <-. reflexivity.
  - discriminate.
Qed.

Definition ctx_extslice : SourceContext :=
  mkSourceContext "x[1:2, i]" "extslice.py" 1 0 true.

Lemma build_Subscript_dimensions_witness :
  exists base indices,
    build_expr ctx_extslice (ast.Name 1 0 "x") = Ok base
    /\ List.length indices = 2%nat
    /\ Forall2 (located_at_base base)
         [ast.Slice (Some (ast.Num 1 2 (ast.CInt 1))) (Some (ast.Num 1 4 (ast.CInt 2))) None;
          ast.Index (ast.Name 1 7 "i")]
         indices.
Proof.
  destruct (build_Subscript_dimensions ctx_extslice 1 0 (ast.Name 1 0 "x")
              (ast.ExtSlice
                 [ast.Slice (Some (ast.Num 1 2 (ast.CInt 1)))
                            (Some (ast.Num 1 4 (ast.CInt 2))) None;
                  ast.Index (ast.Name 1 7 "i")])
              _ eq_refl)
    as [base [indices [Hbase [_ [Hlen Hdims]]]]].
  exists base, indices. split; [exact Hbase|]. split; [exact Hlen|].
  apply Hdims. reflexivity.
Defined.

(** ** Nodes without a handler *)

Lemma node_start_token_nonempty (node_type : string) :
  1 <= len (table_get node_start_tokens node_type " ").
Proof.
  unfold node_start_tokens. cbn [table_get].
  repeat match goal with
         | |- context [String.eqb ?k node_type] =>
             destruct (String.eqb k node_type); [vm_compute; discriminate|]
         end.
  vm_compute. discriminate.
Qed.

(** A statement or an expression of a class without a handler raises
    [UnsupportedNodeError], a [NotSupportedError], whose range starts at
    the node and is as wide as the class's leading keyword, one
    character when it has none; the message names the class by its
    table entry, or else by its class name. *)
Theorem dispatch_miss (ctx : SourceContext) (class_name : string)
    (lineno col_offset : Z) :
  let width := len (table_get node_start_tokens class_name " ") in
  let r := make_range ctx lineno col_offset (col_offset + width) in
  let msg := (table_get pretty_node_names class_name class_name
              ++ " aren't supported")%string in
  build_stmt ctx (ast.OtherStmt class_name lineno col_offset)
  = Raises (UnsupportedNodeError r msg)
  /\ build_expr ctx (ast.OtherExpr class_name lineno col_offset)
     = Raises (UnsupportedNodeError r msg)
  /\ is_NotSupportedError (UnsupportedNodeError r msg) = true
  /\ start r < end_ r
  /\ (In class_name (map fst node_start_tokens) \/ end_ r - start r = 1).
Proof.
  cbv zeta. pose proof (node_start_token_nonempty class_name) as Hw.
  pose proof (make_range_width ctx lineno col_offset
                (len (table_get node_start_tokens class_name " "))) as Hwidth.
  split; [reflexivity|]. split; [reflexivity|]. split; [reflexivity|].
  split; [lia|]. rewrite Hwidth.
  unfold node_start_tokens. cbn [table_get map fst].
  repeat match goal with
         | |- context [String.eqb ?k class_name] =>
             let E := fresh "E" in
             destruct (String.eqb k class_name) eqn:E;
             [apply String.eqb_eq in E; subst; left; simpl; tauto|]
         end.
  right. reflexivity.
Qed.

(** ** With items *)

(** A with-item that translates is built with a range that starts at
    its context expression and is as wide as the pretty name of the
    [with] statement, fifteen characters; the bound name is present
    exactly when the item has one. *)
Theorem build_withitem_range (ctx : SourceContext) (context_expr : ast.expr)
    (optional_vars : option ast.expr) (item : withitem_t) :
  build_withitem ctx (ast.mk_withitem context_expr optional_vars) = Ok item ->
  exists r target var,
    item = WithItem r target var
    /\ build_expr ctx context_expr = Ok target
    /\ optM (build_expr ctx) optional_vars = Ok var
    /\ r = make_range ctx (ast.expr_lineno context_expr)
                      (ast.expr_col_offset context_expr)
                      (ast.expr_col_offset context_expr + len "with statements")
    /\ end_ r - start r = 15.
Proof.
  intros H. unfold build_withitem, WithItemBuilder.build_withitem in H.
  inv_bind H. injection H as <-. do 3 eexists.
  split; [reflexivity|]. split; [eassumption|]. split; [eassumption|].
  split; [reflexivity|]. apply make_range_width.
Qed.

Definition ctx_with : SourceContext :=
  mkSourceContext "with a: pass" "with.py" 1 0 true.

Lemma build_withitem_range_witness :
  exists r target var,
    WithItem (mkRange 5 20) (Var (Ident (mkRange 5 6) "a")) None
    = WithItem r target var
    /\ end_ r - start r = 15.
Proof.
  destruct (build_withitem_range ctx_with (ast.Name 1 5 "a") None _ eq_refl)
    as [r [target [var [Hitem [_ [_ [_ Hwidth]]]]]]].
  exists r, target, var. split; assumption.
Defined.

(** ** Names *)



(** ** Parameters without annotation *)

(** The parameter the builder makes of an argument without annotation:
    typed by the enclosing class when it is [self] in a method, and by
    the empty annotation otherwise. *)
Definition plain_param (ctx : SourceContext) (self_name : option string)
    (kwarg_only : bool) (a : ast.arg) : param_t :=
  let r := name_span ctx a in
  let type :=
    match self_name with
    | Some self_name =>
        if String.eqb (ast.arg_name a) "self" then Var (Ident r self_name)
        else EmptyTypeAnnotation r
    | None => EmptyTypeAnnotation r
    end in
  Param type (Ident r (ast.arg_name a)) kwarg_only.

Lemma build_params_plain (ctx : SourceContext) (self_name : option string)
    (kwarg_only : bool) (l : list ast.arg) :
  Forall (fun a => ast.annotation a = None) l ->
  mapM (fun a => build_param ctx a self_name kwarg_only) l
  = Ok (map (plain_param ctx self_name kwarg_only) l).
Proof.
  induction 1 as [|a l Ha _ IH]; [reflexivity|].
  simpl. unfold build_param at 1. rewrite Ha, IH.
  unfold plain_param, name_span.
  destruct self_name as [self_name|]; [destruct (String.eqb (ast.arg_name a) "self")|];
    reflexivity.
Qed.


Definition ctx_method : SourceContext :=
  mkSourceContext "def f(self, x): pass" "method.py" 1 0 true.


(** ** Unused functions *)

Section Unused.

Variable parse_type_comment : string -> outcome decl_t.
Variable merge_type_from_type_comment : decl_t -> decl_t -> bool -> outcome decl_t.

(** The parameter of a dropped function: typed by the stub's [Any],
    located where the stub has it. *)
Definition any_param (ctx : SourceContext) (kwarg_only : bool) (a : ast.arg) : param_t :=
  Param (Var (Ident (make_range ctx 1 20 (20 + len "Any")) "Any"))
        (Ident (name_span ctx a) (ast.arg_name a)) kwarg_only.

(** The body of a dropped function: the [raise] of the stub, located
    where the stub has it. *)
Definition unused_body (ctx : SourceContext) : list Stmt :=
  [Raise (make_range ctx 2 1 (1 + len "raise"))
     (Apply (Var (Ident (make_range ctx 2 7 (7 + len "RuntimeError")) "RuntimeError"))
            [StringLiteral (make_range ctx 2 20 (20 + 1)) "Cannot call @unused methods"]
            [])].

Lemma build_params_any (ctx : SourceContext) (self_name : option string)
    (kwarg_only : bool) (l : list ast.arg) :
  mapM (fun a => build_param ctx a self_name kwarg_only)
       (map (set_annotation (Some (ast.Name 1 20 "Any"))) l)
  = Ok (map (any_param ctx kwarg_only) l).
Proof.
  induction l as [|a l IH]; [reflexivity|].
  cbn [map mapM]. rewrite IH. reflexivity.
Qed.

Lemma build_unused_body (ctx : SourceContext) (constant_nodes : bool) :
  build_stmts ctx (FunctionDef.body (unused_fn_def constant_nodes))
  = Ok (unused_body ctx).
Proof. destruct constant_nodes; reflexivity. Qed.

(** A function that is dropped translates whatever its body, its
    annotations and its variadic parameters are, as long as it has no
    keyword-only default and its return annotation translates: every
    parameter, [self] included, is typed [Any] and the body is the one
    [raise] of the stub.  A keyword-only default is not removed by the
    rewrite and still stops the translation with
    [NotSupportedError]. *)
Theorem get_jit_def_unused (source filename : string) (file_lineno : Z)
    (dedent_src : string) (fn_def : FunctionDef.t) (constant_nodes : bool)
    (def_name : string) (self_name : option string) :
  let ctx := mkSourceContext source filename file_lineno
               (len (first_line source) - len (first_line dedent_src)) true in
  let py_args := FunctionDef.args fn_def in
  let r := make_range ctx
             (FunctionDef.lineno fn_def
              + Z.of_nat (List.length (FunctionDef.decorator_list fn_def)))
             (FunctionDef.col_offset fn_def)
             (FunctionDef.col_offset fn_def + 3) in
  let result :=
    get_jit_def parse_type_comment merge_type_from_type_comment
      source filename file_lineno dedent_src [TopFunctionDef fn_def]
      None true constant_nodes def_name self_name in
  (forall return_type,
      Forall (fun d => d = None) (ast.kw_defaults py_args) ->
      optM (build_expr ctx) (FunctionDef.returns fn_def) = Ok return_type ->
      result
      = Built (Ok (Def (Ident r def_name)
                       (Decl r (map (any_param ctx false) (ast.args py_args)
                                ++ map (any_param ctx true) (ast.kwonlyargs py_args))
                             return_type)
                       (unused_body ctx))))
  /\ (forall before default after e,
        ast.kw_defaults py_args = before ++ Some default :: after ->
        Forall (fun d => d = None) before ->
        build_expr ctx default = Ok e ->
        result = Built (Raises (NotSupportedError (Some (range e)) _vararg_kwarg_err))).
Proof.
  cbv zeta. split.
  - intros return_type Hdefaults Hreturns.
    unfold get_jit_def, build_def, build_param_list. cbn -[make_range build_stmts mapM].
    rewrite (check_kw_defaults_None _ _ Hdefaults). cbn [bind].
    rewrite !build_params_any. cbn [bind]. rewrite Hreturns. cbn [bind].
    change (build_stmts ?c _) with
      (build_stmts c (FunctionDef.body (unused_fn_def constant_nodes))).
    rewrite build_unused_body. reflexivity.
  - intros before default after e Hdefaults Hbefore He.
    unfold get_jit_def, build_def, build_param_list. cbn -[make_range build_stmts mapM].
    rewrite Hdefaults.
    rewrite (check_kw_defaults_Some _ before after default e Hbefore He).
    reflexivity.
Qed.

End Unused.

Definition no_type_comment (line : string) : outcome decl_t :=
  Raises (ValueError line).

Definition keep_decl (decl comment : decl_t) (is_method : bool) : outcome decl_t :=
  Ok decl.

Definition unsupported_fn_def : FunctionDef.t :=
  FunctionDef.mk 1 0 "f"
    (ast.mk_arguments [ast.mk_arg 1 6 "x" (Some (ast.OtherExpr "Lambda" 1 9))]
                      (Some (ast.mk_arg 1 21 "rest" None)) [] [] None)
    [ast.OtherStmt "Try" 2 4] [] None.

Lemma get_jit_def_unused_witness :
  exists ctx r,
    get_jit_def no_type_comment keep_decl
      "def f(x: lambda: 0, *rest):" "unused.py" 1 "def f(x: lambda: 0, *rest):"
      [TopFunctionDef unsupported_fn_def] None true true "f" None
    = Built (Ok (Def (Ident r "f")
                     (Decl r [any_param ctx false (ast.mk_arg 1 6 "x" None)] None)
                     (unused_body ctx))).
Proof.
  do 2 eexists.
  apply (proj1 (get_jit_def_unused no_type_comment keep_decl
                  "def f(x: lambda: 0, *rest):" "unused.py" 1
                  "def f(x: lambda: 0, *rest):" unsupported_fn_def true "f" None)
               None (Forall_nil _) eq_refl).
Defined.

(** * Ranges of the produced nodes *)

(** The span the handler of [node] computes from the node's own
    location, [w] wide. *)
Definition token_span (ctx : SourceContext) (node : ast.expr) (w : Z) : Range :=
  make_range ctx (ast.expr_lineno node) (ast.expr_col_offset node)
             (ast.expr_col_offset node + w).

(** [d] is [e] or lies under it. *)
Definition under (d e : ast.expr) : Prop := d = e \/ subexpr d e.

(** No span computed for [node] or for an expression under it starts
    before [lo]. *)
Definition starts_from (ctx : SourceContext) (lo : Z) (node : ast.expr) : Prop :=
  forall d w, under d node -> token_width d = Some w ->
              lo <= start (token_span ctx d w).

(** No span computed for [node] or for an expression under it, and no
    range of an attribute name found by the scan, ends after [hi]. *)
Definition ends_by (ctx : SourceContext) (hi : Z) (node : ast.expr) : Prop :=
  (forall d w, under d node -> token_width d = Some w ->
               end_ (token_span ctx d w) <= hi)
  /\ (forall l c value attr base name_range,
         under (ast.Attribute l c value attr) node ->
         build_expr ctx (ast.Attribute l c value attr)
         = Ok (Select base (Ident name_range attr)) ->
         end_ name_range <= hi).

(** Every span computed for [node] and the expressions under it lies
    within the text. *)
Definition spans_within (ctx : SourceContext) (node : ast.expr) : Prop :=
  starts_from ctx 0 node /\ ends_by ctx (len (encode_utf8 (source ctx))) node.

(** No name and no number of [node] is spelled by the empty string. *)
Definition spelled (node : ast.expr) : Prop :=
  forall d, under d node -> ~ spelled_empty d.

Lemma under_child (d c e : ast.expr) :
  under d c -> In c (children e) -> under d e.
Proof.
  intros [->|Hd] Hc; right.
  - apply subexpr_child. exact Hc.
  - eapply subexpr_under; eassumption.
Qed.

Lemma under_subexpr (d c e : ast.expr) : under d c -> subexpr c e -> under d e.
Proof.
  intros [->|Hd] Hc; right; [exact Hc|]. eapply subexpr_trans; eassumption.
Qed.

Lemma token_width_nonneg (node : ast.expr) (w : Z) :
  token_width node = Some w ->
  0 <= w /\ (w = 0 -> is_ListComp node = true \/ spelled_empty node).
Proof.
  intros Hw.
  destruct node; simpl in Hw; try discriminate;
    try (injection Hw as <-; split;
         [first [apply len_nonneg | lia]
         | intros H0; first [discriminate H0
                            | left; reflexivity
                            | right; simpl; apply len_0; exact H0]]).
  - destruct op; simpl in Hw; try discriminate; injection Hw as <-;
      (split; [unfold len; simpl; lia | discriminate]).
  - destruct value; try discriminate; injection Hw as <-;
      (split; [first [apply len_nonneg | lia]
              | intros H0; first [discriminate H0
                                 | right; simpl; apply len_0; exact H0]]).
Qed.

(** ** The smallest range that holds given ranges *)

Lemma covers_refl (r : Range) : covers r r.
Proof. unfold covers. lia. Qed.

Lemma covers_trans (a b c : Range) : covers a b -> covers b c -> covers a c.
Proof. unfold covers. lia. Qed.

Lemma covers_merge_l (a b : Range) : covers (merge a b) a.
Proof. unfold covers, merge. simpl. lia. Qed.

Lemma covers_merge_r (a b : Range) : covers (merge a b) b.
Proof. unfold covers, merge. simpl. lia. Qed.

Lemma covers_merge_all (rs : list Range) (r : Range) : covers (merge_all r rs) r.
Proof.
  unfold merge_all. revert r. induction rs as [|x rs IH]; intros r; simpl.
  - apply covers_refl.
  - eapply covers_trans; [apply IH | apply covers_merge_l].
Qed.

Lemma covers_merge_all_In (rs : list Range) (r x : Range) :
  In x rs -> covers (merge_all r rs) x.
Proof.
  unfold merge_all. revert r. induction rs as [|y rs IH]; intros r Hx; simpl.
  - contradiction.
  - destruct Hx as [->|Hx]; [|apply IH; exact Hx].
    eapply covers_trans; [apply (covers_merge_all rs) | apply covers_merge_r].
Qed.

Section Bounded.

Variables (lo hi : Z) (BL BH ST : Prop).

(** A range that a view is built with: in order, and within the bounds
    that are asked for. *)
Definition span_bounded (r : Range) : Prop :=
  start r <= end_ r /\ (BL -> lo <= start r) /\ (BH -> end_ r <= hi).

(** The range of a view: moreover not empty, when that is asked for. *)
Definition bounded (r : Range) : Prop :=
  span_bounded r /\ (ST -> start r < end_ r).

Lemma bounded_span (r : Range) : bounded r -> span_bounded r.
Proof. intros [H _]. exact H. Qed.

Lemma bounded_merge (a b : Range) :
  span_bounded a -> bounded b -> bounded (merge a b).
Proof. unfold bounded, span_bounded, merge. simpl. intuition lia. Qed.

Lemma bounded_merge_span (a b : Range) :
  bounded a -> span_bounded b -> bounded (merge a b).
Proof. unfold bounded, span_bounded, merge. simpl. intuition lia. Qed.

Lemma bounded_merge_all (rs : list Range) (r : Range) :
  bounded r -> Forall span_bounded rs -> bounded (merge_all r rs).
Proof.
  unfold merge_all. intros Hr Hrs. revert r Hr.
  induction Hrs as [|x rs Hx _ IH]; intros r Hr; simpl; [exact Hr|].
  apply IH. apply bounded_merge_span; assumption.
Qed.

Lemma bounded_merge_all_cons (rs : list Range) (r x : Range) :
  span_bounded r -> bounded x -> Forall span_bounded rs ->
  bounded (merge_all r (x :: rs)).
Proof.
  intros Hr Hx Hrs. apply (bounded_merge_all rs (merge r x)); [|exact Hrs].
  apply bounded_merge; assumption.
Qed.

(** The gap between two ranges, merged with both. *)
Lemma bounded_gap (a b : Range) :
  bounded a -> bounded b ->
  bounded (merge (mkRange (end_ a) (start b)) (merge a b)).
Proof. unfold bounded, span_bounded, merge. simpl. intuition lia. Qed.

Lemma Forall_bounded_span (rs : list Range) :
  Forall bounded rs -> Forall span_bounded rs.
Proof. apply Forall_impl. exact bounded_span. Qed.

Lemma bounded_left_fold (op_token : string) (rest : list Expr) (first : Expr) :
  bounded (range first) -> Forall (fun b => bounded (range b)) rest ->
  bounded (range (left_fold op_token first rest)).
Proof.
  unfold left_fold. intros Hfirst Hrest. revert first Hfirst.
  induction Hrest as [|t ts Ht _ IH]; intros first Hfirst; [exact Hfirst|].
  simpl. apply IH. cbn [range].
  apply bounded_merge; [apply bounded_span|]; assumption.
Qed.

Lemma bounded_pairwise (lhs rhs : Expr) (op : ast.cmpop) :
  bounded (range lhs) -> bounded (range rhs) ->
  bounded (range (pairwise_comparison lhs op rhs)).
Proof.
  intros Hl Hr.
  assert (Hbin : bounded (merge (range lhs) (range rhs)))
    by (apply bounded_merge; [apply bounded_span|]; assumption).
  destruct op; cbn [pairwise_comparison range]; try exact Hbin.
  apply bounded_gap; assumption.
Qed.

Lemma bounded_zip3 (xs ys : list Expr) (ops : list ast.cmpop) :
  Forall (fun b => bounded (range b)) xs ->
  Forall (fun b => bounded (range b)) ys ->
  Forall (fun b => bounded (range b))
    (map (fun '(lhs, op, rhs) => pairwise_comparison lhs op rhs) (zip3 xs ops ys)).
Proof.
  intros Hxs. revert ops ys. induction Hxs as [|x xs Hx _ IH]; intros ops ys Hys.
  - constructor.
  - destruct ops as [|op ops]; [constructor|].
    destruct Hys as [|y ys Hy Hys]; [constructor|].
    simpl. constructor; [apply bounded_pairwise; assumption | apply IH; assumption].
Qed.

End Bounded.

(** ** Ranges of the produced expressions *)

Section ExprRanges.

Variables (ctx : SourceContext) (lo hi : Z) (BL BH ST : Prop) (root : ast.expr).

Hypothesis Hlo : BL -> starts_from ctx lo root.
Hypothesis Hhi : BH -> ends_by ctx hi root.
Hypothesis Hst : ST -> spelled root.

Local Abbreviation ok := (bounded lo hi BL BH ST).
Local Abbreviation span_ok := (span_bounded lo hi BL BH).

Lemma token_span_bounded (d : ast.expr) (w : Z) :
  under d root -> token_width d = Some w ->
  span_ok (token_span ctx d w)
  /\ (is_ListComp d = false -> ok (token_span ctx d w)).
Proof.
  intros Hd Hw.
  destruct (token_width_nonneg d w Hw) as [Hnonneg Hzero].
  pose proof (make_range_width ctx (ast.expr_lineno d) (ast.expr_col_offset d) w)
    as Hwidth.
  fold (token_span ctx d w) in Hwidth.
  assert (Hspan : span_ok (token_span ctx d w)).
  { split; [lia|]. split.
    - intros HBL. apply (Hlo HBL d w Hd Hw).
    - intros HBH. apply (proj1 (Hhi HBH) d w Hd Hw). }
  split; [exact Hspan|]. intros Hlc. split; [exact Hspan|].
  intros HST. destruct (Z.eq_dec w 0) as [H0|H0]; [|lia].
  destruct (Hzero H0) as [Hc|Hempty]; [congruence|].
  exfalso. exact (Hst HST d Hd Hempty).
Qed.

Let built_bounded (c : ast.expr) : Prop :=
  forall b, build_expr ctx c = Ok b -> ok (range b).

Lemma bounded_mapM (l : list ast.expr) (bs : list Expr) :
  (forall c, In c l -> built_bounded c) ->
  mapM (build_expr ctx) l = Ok bs ->
  Forall (fun b => ok (range b)) bs.
Proof. intros Hl H. eapply mapM_Forall; [|exact H]. exact Hl. Qed.

Lemma Forall_range_span (bs : list Expr) :
  Forall (fun b => ok (range b)) bs -> Forall span_ok (map range bs).
Proof.
  intros H. apply Forall_map. eapply Forall_impl; [|exact H].
  intros b. apply (bounded_span lo hi BL BH ST).
Qed.

Lemma bounded_optM (o : option ast.expr) (b : option Expr) :
  (forall c, In c (option_list o) -> built_bounded c) ->
  optM (build_expr ctx) o = Ok b ->
  Forall span_ok (match b with Some e => [range e] | None => [] end).
Proof.
  intros Ho H. destruct o as [c|]; simpl in H.
  - inv_bind H. injection H as <-. constructor; [|constructor].
    apply (bounded_span lo hi BL BH ST). apply (Ho c); [left; reflexivity | assumption].
  - injection H as <-. constructor.
Qed.

Lemma bounded_SliceExpr (base : Expr) (lower upper step : option ast.expr)
    (t : Expr) :
  ok (range base) ->
  (forall c, In c (option_list lower ++ option_list upper ++ option_list step) ->
             built_bounded c) ->
  ExprBuilder.build_SliceExpr build_expr ctx base lower upper step = Ok t ->
  ok (range t).
Proof.
  intros Hbase Hc H. unfold ExprBuilder.build_SliceExpr in H. inv_bind H.
  injection H as <-. cbn [range].
  apply bounded_merge_all; [exact Hbase|].
  repeat (apply Forall_app; split);
    [ apply (bounded_optM lower) | apply (bounded_optM upper)
    | apply (bounded_optM step) ];
    try assumption; intros c Hin; apply Hc; rewrite !in_app_iff; auto.
Qed.

Lemma bounded_ExtSlice (base : Expr) (dims : list ast.slice) (ts : list Expr) :
  ok (range base) ->
  (forall c, In c (List.concat (map slice_exprs dims)) -> built_bounded c) ->
  ExprBuilder.build_ExtSlice build_expr ctx base dims = Ok ts ->
  Forall (fun b => ok (range b)) ts.
Proof.
  intros Hbase Hc H. eapply mapM_Forall; [|exact H].
  intros d Hd t Ht.
  assert (Hd' : forall c, In c (slice_exprs d) -> built_bounded c).
  { intros c Hin. apply Hc. apply in_concat. exists (slice_exprs d).
    split; [apply in_map; exact Hd | exact Hin]. }
  destruct d as [value|lower upper step|dims'|]; simpl in Ht.
  - unfold ExprBuilder.build_Index in Ht.
    destruct (ExprBuilder.is_Tuple_or_List value); [discriminate|].
    apply (Hd' value); [left; reflexivity | exact Ht].
  - eapply bounded_SliceExpr; eassumption.
  - discriminate.
  - injection Ht as <-. exact Hbase.
Qed.

Definition keyword_range (kw : attribute_t) : Range :=
  match kw with
  | Attribute name value => merge (ident_range name) (range value)
  end.

Lemma bounded_keywords (keywords : list ast.keyword) (kwargs : list attribute_t) :
  (forall c, In c (map keyword_value keywords) -> built_bounded c) ->
  mapM (ExprBuilder.build_keyword build_expr ctx) keywords = Ok kwargs ->
  Forall span_ok (map keyword_range kwargs).
Proof.
  intros Hc H. apply Forall_map. eapply mapM_Forall; [|exact H].
  intros [arg value] Hkw kw Hbuilt. unfold ExprBuilder.build_keyword in Hbuilt.
  inv_bind Hbuilt.
  assert (Hok : ok (range a)).
  { apply (Hc value); [|assumption]. apply in_map_iff.
    exists (ast.mk_keyword arg value). split; [reflexivity | exact Hkw]. }
  destruct arg as [[|ch name]|]; try discriminate.
  injection Hbuilt as <-. cbn [keyword_range ident_range].
  apply (bounded_span lo hi BL BH ST). apply bounded_merge; [apply (bounded_span lo hi BL BH ST)|]; exact Hok.
Qed.

Lemma bounded_JoinedStr_loop (values : list ast.expr) (s s' : string)
    (args args' : list Expr) :
  (forall l c inner conversion format_spec,
      In (ast.FormattedValue l c inner conversion format_spec) values ->
      built_bounded inner) ->
  ExprBuilder.build_JoinedStr_loop build_expr ctx values s args = Ok (s', args') ->
  Forall (fun b => ok (range b)) args -> Forall (fun b => ok (range b)) args'.
Proof.
  revert s args. induction values as [|value values IH]; intros s args Hv H Hargs.
  - simpl in H. injection H as <- <-. exact Hargs.
  - assert (Hv' : forall l c inner conversion format_spec,
               In (ast.FormattedValue l c inner conversion format_spec) values ->
               built_bounded inner)
      by (intros; eapply Hv; right; eassumption).
    cbn [ExprBuilder.build_JoinedStr_loop] in H.
    destruct value; try discriminate.
    + destruct value; try discriminate. eapply IH; eassumption.
    + eapply IH; eassumption.
    + destruct (negb (conversion =? -1)); [discriminate|].
      destruct format_spec; [discriminate|].
      inv_bind H. eapply IH; [exact Hv' | exact H|].
      apply Forall_app. split; [exact Hargs|]. constructor; [|constructor].
      eapply Hv; [left; reflexivity | eassumption].
Qed.

Ltac child_bounded IHc :=
  match goal with
  | H : build_expr _ ?c = Ok ?b |- _ =>
      match goal with
      | _ : bounded _ _ _ _ _ (range b) |- _ => fail 1
      | _ =>
          let Hok := fresh "Hok" in
          assert (Hok : ok (range b))
            by (apply (IHc c); [simpl; rewrite ?in_app_iff; simpl; tauto | exact H])
      end
  end.

Ltac own_token Hunder :=
  match goal with
  | |- context [make_range ctx ?l ?c (?c + ?w)] =>
      let Htok := fresh "Htok" in
      pose proof (token_span_bounded _ w Hunder eq_refl) as Htok;
      unfold token_span in Htok;
      cbn [ast.expr_lineno ast.expr_col_offset is_ListComp] in Htok;
      destruct Htok as [Hspan Htok]; try specialize (Htok eq_refl)
  end.

Lemma build_expr_bounded (node : ast.expr) :
  under node root -> forall t, build_expr ctx node = Ok t -> ok (range t).
Proof.
  induction node as [node IH] using expr_subexpr_ind. intros Hunder t H.
  assert (IHd : forall d, subexpr d node ->
                forall b, build_expr ctx d = Ok b -> ok (range b))
    by (intros d Hd; apply IH; [exact Hd | eapply under_subexpr; [left; reflexivity|];
        destruct Hunder as [->|Hu]; [exact Hd | eapply subexpr_trans; eassumption]]).
  assert (IHc : forall c, In c (children node) ->
                forall b, build_expr ctx c = Ok b -> ok (range b))
    by (intros c Hc; apply IHd; apply subexpr_child; exact Hc).
  pose proof H as Hbuilt.
  destruct node; run_handler in H; cbn [children] in IHc.
  - (* Attribute *)
    inv_bind H. injection H as <-. repeat child_bounded IHc.
    apply skip_whitespace_Ok in Ha0. destruct Ha0 as [Hle _].
    cbn [range ident_range]. unfold make_raw_range.
    apply bounded_merge_span; [exact Hok|].
    pose proof (len_nonneg attr) as Hlen.
    destruct Hok as [[Horder [Hl Hh]] _].
    split; [simpl; lia|]. split; [intros HBL; specialize (Hl HBL); simpl; lia|].
    intros HBH.
    exact (proj2 (Hhi HBH) _ _ _ _ _ _ Hunder Hbuilt).
  - (* Call *)
    inv_bind H. injection H as <-. repeat child_bounded IHc.
    cbn [range]. apply bounded_merge_all; [exact Hok|].
    apply Forall_app. split.
    + apply Forall_range_span.
      assert (Hargs : Forall (fun b => ok (range b)) a0).
      { eapply bounded_mapM; [|eassumption].
        intros c Hc b Hb. apply (IHc c); [|exact Hb].
        simpl. rewrite !in_app_iff. auto. }
      destruct starargs as [starargs|].
      * inv_bind Ha1. injection Ha1 as <-. apply Forall_app. split; [exact Hargs|].
        constructor; [|constructor]. cbn [range]. repeat child_bounded IHc.
        apply bounded_merge; [apply (bounded_span lo hi BL BH ST)|]; assumption.
      * injection Ha1 as <-. exact Hargs.
    + apply (bounded_keywords keywords); [|assumption].
      intros c Hc b Hb. apply (IHc c); [|exact Hb].
      simpl. rewrite !in_app_iff. auto.
  - (* Ellipsis *)
    injection H as <-. cbn [range]. own_token Hunder. exact Htok.
  - (* Name *)
    unfold ExprBuilder.build_Name in H.
    destruct (startswith id _reserved_prefix); [discriminate|].
    destruct (String.eqb id "True"); [injection H as <-; own_token Hunder; exact Htok|].
    destruct (String.eqb id "False"); [injection H as <-; own_token Hunder; exact Htok|].
    destruct (String.eqb id "None"); injection H as <-; own_token Hunder; exact Htok.
  - (* NameConstant *)
    unfold ExprBuilder.build_NameConstant in H.
    destruct value as [|[|]| | | | | |]; try discriminate;
      injection H as <-; own_token Hunder; exact Htok.
  - (* BinOp *)
    inv_bind H. repeat child_bounded IHc.
    destruct (ExprBuilder.is_Div op && negb (uses_true_division ctx));
      [discriminate|].
    destruct op; simpl in H; injection H as <-; cbn [range];
      (apply bounded_merge; [apply (bounded_span lo hi BL BH ST)|]; assumption).
  - (* UnaryOp *)
    inv_bind H. repeat child_bounded IHc.
    destruct op; simpl in Ha0; try discriminate; injection Ha0 as <-;
      simpl in H; injection H as <-; cbn [range]; own_token Hunder;
      (apply bounded_merge_span; [exact Htok|];
       apply (bounded_span lo hi BL BH ST); assumption).
  - (* BoolOp *)
    destruct (Z.of_nat (List.length values) <? 2); [discriminate|].
    inv_bind H.
    assert (Hall : Forall (fun b => ok (range b)) a)
      by (eapply mapM_Forall; [|eassumption]; exact IHc).
    destruct a as [|sub0 [|sub1 rest]]; try discriminate.
    inversion Hall as [|? ? Hsub0 Hrest]; subst.
    destruct op; simpl in H; injection H as <-;
      apply (bounded_left_fold _ _ _ _ _ _ (sub1 :: rest) sub0); assumption.
  - (* IfExp *)
    inv_bind H. injection H as <-. repeat child_bounded IHc. cbn [range].
    apply bounded_merge_all; [assumption|].
    repeat constructor; apply (bounded_span lo hi BL BH ST); assumption.
  - (* Compare *)
    inv_bind H. repeat child_bounded IHc.
    assert (Hrest : Forall (fun b => ok (range b)) a1)
      by (eapply mapM_Forall; [|eassumption];
          intros c Hc; apply IHc; simpl; auto).
    rewrite build_cmp_expr_pairwise in Ha2. injection Ha2 as <-.
    rewrite build_Compare_loop_conjunction in H. injection H as <-.
    apply (bounded_left_fold _ _ _ _ _ "and").
    + apply bounded_pairwise; assumption.
    + apply (bounded_zip3 _ _ _ _ _ (a0 :: a1) a1 ops); [constructor|]; assumption.
  - (* Subscript *)
    inv_bind H. repeat child_bounded IHc.
    destruct slice_ as [value|lower upper step|dims|].
    + assert (Hplain : forall index,
                build_expr ctx value = Ok index ->
                ok (range (Subscript a [index]))).
      { intros index Hindex. cbn [range map].
        apply bounded_merge_all; [assumption|]. constructor; [|constructor].
        apply (bounded_span lo hi BL BH ST).
        apply (IHc value); [simpl; auto | exact Hindex]. }
      destruct value; try (inv_bind H; injection H as <-; apply Hplain; assumption).
      inv_bind H. injection H as <-. cbn [range].
      apply bounded_merge_all; [assumption|]. apply Forall_range_span.
      eapply bounded_mapM; [|eassumption].
      intros c Hc b Hb. eapply IHd; [|exact Hb].
      apply (subexpr_under c (ast.Tuple lineno0 col_offset0 elts));
        [apply subexpr_child; exact Hc | simpl; auto].
    + inv_bind H. injection H as <-. cbn [range map].
      apply bounded_merge_all; [assumption|]. constructor; [|constructor].
      apply (bounded_span lo hi BL BH ST).
      eapply bounded_SliceExpr; [| |eassumption]; [assumption|].
      intros c Hc b Hb. apply (IHc c); [right; exact Hc | exact Hb].
    + inv_bind H. injection H as <-. cbn [range].
      apply bounded_merge_all; [assumption|]. apply Forall_range_span.
      eapply bounded_ExtSlice; [| |eassumption]; [assumption|].
      intros c Hc b Hb. apply (IHc c); [right; exact Hc | exact Hb].
    + discriminate.
  - (* List *)
    inv_bind H. injection H as <-. cbn [range]. own_token Hunder.
    apply bounded_merge_all; [exact Htok|]. apply Forall_range_span.
    eapply bounded_mapM; eassumption.
  - (* Tuple *)
    inv_bind H. injection H as <-. cbn [range]. own_token Hunder.
    apply bounded_merge_all; [exact Htok|]. apply Forall_range_span.
    eapply bounded_mapM; eassumption.
  - (* Dict *)
    inv_bind H. injection H as <-. cbn [range]. own_token Hunder.
    apply bounded_merge_all; [exact Htok|]. apply Forall_app. split.
    + apply Forall_range_span. eapply mapM_Forall; [|eassumption].
      intros [k|] Hk b Hb; simpl in Hb; [|discriminate].
      apply (IHc k); [|exact Hb]. rewrite in_app_iff. left.
      apply in_concat. exists [k]. split; [|left; reflexivity].
      apply in_map_iff. exists (Some k). split; [reflexivity | exact Hk].
    + apply Forall_range_span. eapply bounded_mapM; [|eassumption].
      intros c Hc b Hb. apply (IHc c); [|exact Hb]. rewrite in_app_iff. auto.
  - (* Num *)
    injection H as <-. cbn [range]. own_token Hunder. exact Htok.
  - (* Constant *)
    unfold ExprBuilder.build_Constant in H.
    destruct value as [|[|]| | | | | |]; try discriminate;
      injection H as <-; cbn [range]; own_token Hunder; exact Htok.
  - (* Str *)
    injection H as <-. cbn [range]. own_token Hunder. exact Htok.
  - (* JoinedStr *)
    inv_bind H. destruct a as [s args]. injection H as <-.
    cbn [range ident_range map]. own_token Hunder.
    apply bounded_merge_all.
    + apply bounded_merge_span; [exact Htok | exact Hspan].
    + rewrite app_nil_r. apply Forall_range_span.
      eapply bounded_JoinedStr_loop; [|eassumption | constructor].
      intros l c inner conversion format_spec Hin b Hb.
      eapply IHd; [|exact Hb].
      eapply subexpr_under; [apply subexpr_child | exact Hin]. left. reflexivity.
  - (* FormattedValue *)
    discriminate.
  - (* ListComp *)
    destruct (Z.of_nat (List.length generators) >? 1); [discriminate|].
    destruct generators as [|[target iter ifs] generators]; [discriminate|].
    destruct (negb (Z.of_nat (List.length ifs) =? 0)); [discriminate|].
    inv_bind H. injection H as <-. repeat child_bounded IHc.
    destruct (token_span_bounded _ 0 Hunder eq_refl) as [Hspan _].
    unfold token_span in Hspan.
    cbn [ast.expr_lineno ast.expr_col_offset] in Hspan.
    rewrite Z.add_0_r in Hspan. cbn [range].
    apply bounded_merge_all_cons; [exact Hspan | assumption|].
    repeat constructor; apply (bounded_span lo hi BL BH ST); assumption.
  - (* Starred *)
    inv_bind H. injection H as <-. repeat child_bounded IHc.
    cbn [range]. own_token Hunder.
    apply bounded_merge_span; [exact Htok|].
    apply (bounded_span lo hi BL BH ST); assumption.
  - (* OtherExpr *)
    discriminate.
Qed.

End ExprRanges.

(** The range of a node covers the span its handler computes from the
    node's location. *)
Lemma build_expr_covers_token (ctx : SourceContext) (node : ast.expr) (t : Expr)
    (w : Z) :
  build_expr ctx node = Ok t ->
  token_width node = Some w ->
  covers (range t) (token_span ctx node w).
Proof.
  intros Hbuild Hw. unfold token_span.
  destruct node; simpl in Hw; try discriminate; run_handler in Hbuild;
    cbn [ast.expr_lineno ast.expr_col_offset].
  - (* Ellipsis *)
    injection Hw as <-. injection Hbuild as <-. apply covers_refl.
  - (* Name *)
    injection Hw as <-. unfold ExprBuilder.build_Name in Hbuild.
    destruct (startswith id _reserved_prefix); [discriminate|].
    destruct (String.eqb id "True"); [injection Hbuild as <-; apply covers_refl|].
    destruct (String.eqb id "False"); [injection Hbuild as <-; apply covers_refl|].
    destruct (String.eqb id "None"); injection Hbuild as <-; apply covers_refl.
  - (* NameConstant *)
    injection Hw as <-. unfold ExprBuilder.build_NameConstant in Hbuild.
    destruct value as [|[|]| | | | | |]; try discriminate;
      injection Hbuild as <-; apply covers_refl.
  - (* UnaryOp *)
    inv_bind Hbuild. destruct op; simpl in Hw; try discriminate;
      injection Hw as <-; simpl in Ha0; injection Ha0 as <-;
      simpl in Hbuild; injection Hbuild as <-; apply covers_merge_l.
  - (* List *)
    injection Hw as <-. inv_bind Hbuild. injection Hbuild as <-.
    apply covers_merge_all.
  - (* Tuple *)
    injection Hw as <-. inv_bind Hbuild. injection Hbuild as <-.
    apply covers_merge_all.
  - (* Dict *)
    injection Hw as <-. inv_bind Hbuild. injection Hbuild as <-.
    apply covers_merge_all.
  - (* Num *)
    injection Hw as <-. injection Hbuild as <-. apply covers_refl.
  - (* Constant *)
    unfold ExprBuilder.build_Constant in Hbuild.
    destruct value as [|[|]| | | | | |]; try discriminate;
      injection Hw as <-; injection Hbuild as <-; apply covers_refl.
  - (* Str *)
    injection Hw as <-. injection Hbuild as <-. apply covers_refl.
  - (* JoinedStr *)
    injection Hw as <-. inv_bind Hbuild. destruct a as [s args].
    injection Hbuild as <-. cbn [range ident_range].
    eapply covers_trans; [apply covers_merge_all | apply covers_merge_l].
  - (* ListComp *)
    injection Hw as <-.
    destruct (Z.of_nat (List.length generators) >? 1); [discriminate|].
    destruct generators as [|[target iter ifs] generators]; [discriminate|].
    destruct (negb (Z.of_nat (List.length ifs) =? 0)); [discriminate|].
    inv_bind Hbuild. injection Hbuild as <-. rewrite Z.add_0_r.
    apply covers_merge_all.
  - (* Starred *)
    injection Hw as <-. inv_bind Hbuild. injection Hbuild as <-.
    apply covers_merge_l.
Qed.

(** A range within the bounds [lo] and [hi], with no condition. *)
Lemma build_expr_range (ctx : SourceContext) (node : ast.expr) (t : Expr) :
  build_expr ctx node = Ok t ->
  start (range t) <= end_ (range t)
  /\ (spelled node -> start (range t) < end_ (range t))
  /\ (forall lo, starts_from ctx lo node -> lo <= start (range t))
  /\ (forall hi, ends_by ctx hi node -> end_ (range t) <= hi).
Proof.
  intros H. split; [|split; [|split]].
  - refine (proj1 (proj1 (build_expr_bounded ctx 0 0 False False False node
                            _ _ _ node (or_introl eq_refl) t H))); tauto.
  - intros Hs.
    refine (proj2 (build_expr_bounded ctx 0 0 False False True node
                     _ _ _ node (or_introl eq_refl) t H) I); tauto.
  - intros lo Hlo.
    refine (proj1 (proj2 (proj1 (build_expr_bounded ctx lo 0 True False False node
                                   _ _ _ node (or_introl eq_refl) t H))) I); tauto.
  - intros hi Hhi.
    refine (proj2 (proj2 (proj1 (build_expr_bounded ctx 0 hi False True False node
                                   _ _ _ node (or_introl eq_refl) t H))) I); tauto.
Qed.

(** ** Ranges of the produced statements *)

Scheme stmt_nested_ind := Induction for ast.stmt Sort Prop.

Definition withitem_exprs (item : ast.withitem) : list ast.expr :=
  match item with
  | ast.mk_withitem context_expr optional_vars =>
      context_expr :: option_list optional_vars
  end.

(** The expressions directly under a statement. *)
Definition stmt_exprs (s : ast.stmt) : list ast.expr :=
  match s with
  | ast.Expr _ _ value => [value]
  | ast.Assign _ _ targets value => value :: targets
  | ast.AnnAssign _ _ target annotation value =>
      option_list value ++ [target; annotation]
  | ast.Delete _ _ targets => targets
  | ast.Return _ _ value => option_list value
  | ast.Raise _ _ exc => option_list exc
  | ast.Assert _ _ test msg => test :: option_list msg
  | ast.AugAssign _ _ target _ value => [target; value]
  | ast.While _ _ test _ _ => [test]
  | ast.For _ _ target iter _ _ => [target; iter]
  | ast.If _ _ test _ _ => [test]
  | ast.Print _ _ _ values => values
  | ast.With _ _ items _ => flat_map withitem_exprs items
  | ast.Pass _ _ | ast.Break _ _ | ast.Continue _ _ | ast.OtherStmt _ _ _ => []
  end.

(** The statements directly under a statement that its handler
    translates. *)
Definition stmt_children (s : ast.stmt) : list ast.stmt :=
  match s with
  | ast.While _ _ _ body _ | ast.For _ _ _ _ body _ | ast.With _ _ _ body => body
  | ast.If _ _ _ body orelse => body ++ orelse
  | _ => []
  end.

(** [d] lies strictly under [s]. *)
Inductive substmt : ast.stmt -> ast.stmt -> Prop :=
| substmt_child (c s : ast.stmt) : In c (stmt_children s) -> substmt c s
| substmt_under (d c s : ast.stmt) :
    substmt d c -> In c (stmt_children s) -> substmt d s.

(** [d] is [s] or lies under it. *)
Definition stmt_under (d s : ast.stmt) : Prop := d = s \/ substmt d s.

Lemma substmt_trans (d c s : ast.stmt) : substmt d c -> substmt c s -> substmt d s.
Proof.
  intros Hdc Hcs. induction Hcs as [c s Hin | c c' s Hcc' IH Hin].
  - eapply substmt_under; eassumption.
  - eapply substmt_under; [apply IH; exact Hdc | exact Hin].
Qed.

Lemma stmt_under_child (c s root : ast.stmt) :
  In c (stmt_children s) -> stmt_under s root -> stmt_under c root.
Proof.
  intros Hc [->|Hs]; right.
  - apply substmt_child. exact Hc.
  - eapply substmt_trans; [apply substmt_child; exact Hc | exact Hs].
Qed.

Lemma stmt_children_ind (P : ast.stmt -> Prop) :
  (forall s, (forall c, In c (stmt_children s) -> P c) -> P s) ->
  forall s, P s.
Proof.
  intros Hstep.
  apply stmt_nested_ind; intros; apply Hstep; cbn [stmt_children];
    intros c Hc; try contradiction;
    repeat match goal with
           | H : list_all _ _ _ |- _ =>
               let H' := fresh in pose proof (list_all_In _ _ H) as H'; clear H
           end;
    split_in; eauto.
Qed.

(** The span of a with-item: at its context expression, as wide as the
    pretty name of the [with] statement. *)
Definition withitem_span (ctx : SourceContext) (item : ast.withitem) : Range :=
  match item with
  | ast.mk_withitem context_expr _ =>
      token_span ctx context_expr (len (table_get pretty_node_names "With" ""))
  end.

(** The spans the handler of a statement computes from locations: the
    leading keyword, and the with-items. *)
Definition stmt_spans (ctx : SourceContext) (s : ast.stmt) : list Range :=
  match stmt_token_width s with
  | Some (l, c, w) => [make_range ctx l c (c + w)]
  | None => []
  end
  ++ match s with
     | ast.With _ _ items _ => map (withitem_span ctx) items
     | _ => []
     end.

(** No span computed for [root], for a statement or for an expression
    under it starts before [lo]. *)
Definition stmt_starts_from (ctx : SourceContext) (lo : Z) (root : ast.stmt) : Prop :=
  forall s, stmt_under s root ->
    (forall r, In r (stmt_spans ctx s) -> lo <= start r)
    /\ (forall e, In e (stmt_exprs s) -> starts_from ctx lo e).

(** None of them ends after [hi]. *)
Definition stmt_ends_by (ctx : SourceContext) (hi : Z) (root : ast.stmt) : Prop :=
  forall s, stmt_under s root ->
    (forall r, In r (stmt_spans ctx s) -> end_ r <= hi)
    /\ (forall e, In e (stmt_exprs s) -> ends_by ctx hi e).

(** All of them lie within the text. *)
Definition stmt_spans_within (ctx : SourceContext) (root : ast.stmt) : Prop :=
  stmt_starts_from ctx 0 root
  /\ stmt_ends_by ctx (len (encode_utf8 (source ctx))) root.

(** No name and no number in [root] is spelled by the empty string. *)
Definition stmt_spelled (root : ast.stmt) : Prop :=
  forall s e, stmt_under s root -> In e (stmt_exprs s) -> spelled e.

Lemma stmt_spans_nonempty (ctx : SourceContext) (s : ast.stmt) (r : Range) :
  In r (stmt_spans ctx s) -> start r < end_ r.
Proof.
  unfold stmt_spans. intros Hr. apply in_app_or in Hr. destruct Hr as [Hr|Hr].
  - destruct s; simpl in Hr; try contradiction;
      destruct Hr as [<-|[]];
      match goal with
      | |- context [make_range ctx ?l ?c (?c + ?w)] =>
          pose proof (make_range_width ctx l c w) as Hw;
          assert (0 < w) by reflexivity; lia
      end.
  - destruct s; try contradiction.
    apply in_map_iff in Hr. destruct Hr as [[context_expr optional_vars] [<- _]].
    unfold withitem_span, token_span.
    match goal with
    | |- context [make_range ctx ?l ?c (?c + ?w)] =>
        pose proof (make_range_width ctx l c w) as Hw;
        assert (0 < w) by reflexivity; lia
    end.
Qed.

Section StmtRanges.

Variables (ctx : SourceContext) (lo hi : Z) (BL BH ST : Prop) (root : ast.stmt).

Hypothesis Hlo : BL -> stmt_starts_from ctx lo root.
Hypothesis Hhi : BH -> stmt_ends_by ctx hi root.
Hypothesis Hst : ST -> stmt_spelled root.

Local Abbreviation ok := (bounded lo hi BL BH ST).
Local Abbreviation span_ok := (span_bounded lo hi BL BH).

Lemma stmt_span_bounded (s : ast.stmt) (r : Range) :
  stmt_under s root -> In r (stmt_spans ctx s) -> ok r.
Proof.
  intros Hs Hr. pose proof (stmt_spans_nonempty ctx s r Hr) as Hne.
  split; [split; [lia|split]|intros _; exact Hne].
  - intros HBL. exact (proj1 (Hlo HBL s Hs) r Hr).
  - intros HBH. exact (proj1 (Hhi HBH s Hs) r Hr).
Qed.

Lemma stmt_expr_bounded (s : ast.stmt) (e : ast.expr) (t : Expr) :
  stmt_under s root -> In e (stmt_exprs s) ->
  build_expr ctx e = Ok t -> ok (range t).
Proof.
  intros Hs He Ht.
  apply (build_expr_bounded ctx lo hi BL BH ST e) with (node := e);
    [ intros HBL; exact (proj2 (Hlo HBL s Hs) e He)
    | intros HBH; exact (proj2 (Hhi HBH s Hs) e He)
    | intros HST; exact (Hst HST s e Hs He)
    | left; reflexivity
    | exact Ht ].
Qed.

Lemma stmt_exprs_mapM (s : ast.stmt) (l : list ast.expr) (bs : list Expr) :
  stmt_under s root -> (forall e, In e l -> In e (stmt_exprs s)) ->
  mapM (build_expr ctx) l = Ok bs ->
  Forall span_ok (map range bs).
Proof.
  intros Hs Hl H. apply Forall_map. eapply mapM_Forall; [|exact H].
  intros e He b Hb. apply (bounded_span lo hi BL BH ST).
  eapply stmt_expr_bounded; [exact Hs | apply Hl; exact He | exact Hb].
Qed.

Lemma stmt_exprs_optM (s : ast.stmt) (o : option ast.expr) (b : option Expr) :
  stmt_under s root -> (forall e, In e (option_list o) -> In e (stmt_exprs s)) ->
  optM (build_expr ctx) o = Ok b ->
  Forall span_ok (match b with Some e => [range e] | None => [] end).
Proof.
  intros Hs Ho H. destruct o as [c|]; simpl in H.
  - inv_bind H. injection H as <-. constructor; [|constructor].
    apply (bounded_span lo hi BL BH ST).
    eapply stmt_expr_bounded; [exact Hs | apply Ho; left; reflexivity | eassumption].
  - injection H as <-. constructor.
Qed.

Lemma filter_None_Forall {A : Type} (Q : A -> Prop) (l : list (option A)) :
  Forall (fun o => match o with Some a => Q a | None => True end) l ->
  Forall Q (filter_None l).
Proof.
  induction 1 as [|[a|] l Ha _ IH]; simpl; [constructor | | exact IH].
  constructor; assumption.
Qed.

Lemma block_bounded (body : list ast.stmt) (ss : list Stmt) :
  (forall c, In c body ->
     forall t, build_stmt ctx c = Ok (Some t) -> ok (stmt_range t)) ->
  build_stmts_with build_stmt ctx body = Ok ss ->
  Forall span_ok (map stmt_range ss).
Proof.
  intros Hbody H. unfold build_stmts_with in H. inv_bind H. injection H as <-.
  apply Forall_map. apply filter_None_Forall.
  eapply mapM_Forall; [|eassumption].
  intros c Hc [t|] Ht; [|exact I].
  apply (bounded_span lo hi BL BH ST). eapply Hbody; eassumption.
Qed.

Lemma withitems_bounded (s : ast.stmt) (items : list ast.withitem)
    (ts : list withitem_t) :
  stmt_under s root ->
  (forall item, In item items ->
     In (withitem_span ctx item) (stmt_spans ctx s)
     /\ forall e, In e (withitem_exprs item) -> In e (stmt_exprs s)) ->
  build_withitems ctx items = Ok ts ->
  Forall span_ok (map withitem_range ts).
Proof.
  intros Hs Hitems H. apply Forall_map. eapply mapM_Forall; [|exact H].
  intros [context_expr optional_vars] Hitem t Ht.
  destruct (Hitems _ Hitem) as [Hspan Hexprs].
  unfold build_withitem, WithItemBuilder.build_withitem in Ht.
  inv_bind Ht. injection Ht as <-. cbn [withitem_range].
  apply (bounded_span lo hi BL BH ST). apply bounded_merge_all.
  - exact (stmt_span_bounded s _ Hs Hspan).
  - constructor.
    + apply (bounded_span lo hi BL BH ST).
      eapply stmt_expr_bounded; [exact Hs | apply Hexprs; left; reflexivity
                                | eassumption].
    + eapply stmt_exprs_optM; [exact Hs | | eassumption].
      intros e He. apply Hexprs. right. exact He.
Qed.

Ltac stmt_child_bounded Hunder :=
  match goal with
  | H : build_expr _ ?c = Ok ?b |- _ =>
      match goal with
      | _ : bounded _ _ _ _ _ (range b) |- _ => fail 1
      | _ =>
          let Hok := fresh "Hok" in
          assert (Hok : ok (range b))
            by (apply (stmt_expr_bounded _ c b Hunder);
                [simpl; rewrite ?in_app_iff; simpl; tauto | exact H])
      end
  end.

Ltac keyword_span Hunder :=
  match goal with
  | |- context [make_range ctx ?l ?c (?c + ?w)] =>
      let Hkw := fresh "Hkw" in
      assert (Hkw : ok (make_range ctx l c (c + w)))
        by (apply (stmt_span_bounded _ _ Hunder); left; reflexivity)
  end.

Lemma build_stmt_bounded (node : ast.stmt) :
  stmt_under node root ->
  forall t, build_stmt ctx node = Ok (Some t) -> ok (stmt_range t).
Proof.
  induction node as [node IH] using stmt_children_ind. intros Hunder t H.
  assert (IHc : forall c, In c (stmt_children node) ->
                forall b, build_stmt ctx c = Ok (Some b) -> ok (stmt_range b))
    by (intros c Hc; apply IH; [exact Hc | eapply stmt_under_child; eassumption]).
  destruct node; run_handler in H; unfold returns in H; cbn [stmt_children] in IHc.
  - (* Expr *)
    destruct (StmtBuilder.is_Str value); [discriminate|].
    inv_bind H. injection H as <-. repeat stmt_child_bounded Hunder.
    cbn [stmt_range]. assumption.
  - (* Assign *)
    inv_bind H. injection H as <-. inv_bind Ha. injection Ha as <-.
    repeat stmt_child_bounded Hunder. cbn [stmt_range].
    apply bounded_merge_all; [assumption|]. rewrite app_nil_r.
    eapply stmt_exprs_mapM; [exact Hunder | | eassumption].
    intros e He. right. exact He.
  - (* AnnAssign *)
    destruct value as [value|]; [|discriminate].
    inv_bind H. injection H as <-. inv_bind Ha. injection Ha as <-.
    repeat stmt_child_bounded Hunder. cbn [stmt_range map app].
    apply bounded_merge_all; [assumption|].
    repeat constructor; apply (bounded_span lo hi BL BH ST); assumption.
  - (* Delete *)
    destruct (Z.of_nat (List.length targets) >? 1); [discriminate|].
    destruct targets as [|target targets]; [discriminate|].
    inv_bind H. injection H as <-. inv_bind Ha. injection Ha as <-.
    repeat stmt_child_bounded Hunder. cbn [stmt_range]. assumption.
  - (* Return *)
    inv_bind H. injection H as <-. inv_bind Ha. injection Ha as <-.
    cbn [stmt_range]. keyword_span Hunder.
    apply bounded_merge_all; [exact Hkw|].
    eapply stmt_exprs_optM; [exact Hunder | | eassumption]. intros e He. exact He.
  - (* Raise *)
    inv_bind H. injection H as <-. inv_bind Ha. injection Ha as <-.
    destruct exc as [exc|]; [|discriminate]. simpl in Ha0.
    repeat stmt_child_bounded Hunder.
    cbn [stmt_range]. keyword_span Hunder.
    apply bounded_merge_span; [exact Hkw|].
    apply (bounded_span lo hi BL BH ST); assumption.
  - (* Assert *)
    inv_bind H. injection H as <-. inv_bind Ha. injection Ha as <-.
    repeat stmt_child_bounded Hunder.
    cbn [stmt_range]. keyword_span Hunder.
    apply bounded_merge_all; [exact Hkw|]. constructor.
    + apply (bounded_span lo hi BL BH ST); assumption.
    + eapply stmt_exprs_optM; [exact Hunder | | eassumption].
      intros e He. right. exact He.
  - (* AugAssign *)
    inv_bind H. injection H as <-. inv_bind Ha.
    repeat stmt_child_bounded Hunder.
    destruct (StmtBuilder.augassign_map op); [|inv_bind Ha; discriminate].
    injection Ha as <-. cbn [stmt_range].
    apply bounded_merge; [apply (bounded_span lo hi BL BH ST)|]; assumption.
  - (* While *)
    destruct orelse; [|discriminate].
    inv_bind H. injection H as <-. inv_bind Ha. injection Ha as <-.
    repeat stmt_child_bounded Hunder.
    cbn [stmt_range]. keyword_span Hunder.
    apply bounded_merge_all; [exact Hkw|]. constructor.
    + apply (bounded_span lo hi BL BH ST); assumption.
    + eapply block_bounded; [|eassumption]. exact IHc.
  - (* For *)
    inv_bind H. injection H as <-. inv_bind Ha. injection Ha as <-.
    repeat stmt_child_bounded Hunder.
    cbn [stmt_range map app]. keyword_span Hunder.
    apply bounded_merge_all; [exact Hkw|].
    constructor; [apply (bounded_span lo hi BL BH ST); assumption|].
    constructor; [apply (bounded_span lo hi BL BH ST); assumption|].
    eapply block_bounded; [|eassumption]. exact IHc.
  - (* If *)
    inv_bind H. injection H as <-. inv_bind Ha. injection Ha as <-.
    repeat stmt_child_bounded Hunder.
    cbn [stmt_range]. keyword_span Hunder.
    apply bounded_merge_all; [exact Hkw|]. constructor.
    + apply (bounded_span lo hi BL BH ST); assumption.
    + apply Forall_app. split; (eapply block_bounded; [|eassumption]);
        intros c Hc; apply IHc; rewrite in_app_iff; auto.
  - (* Print *)
    inv_bind H. injection H as <-.
    destruct dest; [discriminate|]. inv_bind Ha. injection Ha as <-.
    cbn [stmt_range range ident_range]. keyword_span Hunder.
    apply bounded_merge_all; [exact Hkw|]. rewrite app_nil_r.
    eapply stmt_exprs_mapM; [exact Hunder | | eassumption].
    intros e He. exact He.
  - (* Pass *)
    injection H as <-. cbn [stmt_range]. keyword_span Hunder. exact Hkw.
  - (* Break *)
    injection H as <-. cbn [stmt_range]. keyword_span Hunder. exact Hkw.
  - (* Continue *)
    injection H as <-. cbn [stmt_range]. keyword_span Hunder. exact Hkw.
  - (* With *)
    inv_bind H. injection H as <-. inv_bind Ha. injection Ha as <-.
    cbn [stmt_range]. keyword_span Hunder.
    apply bounded_merge_all; [exact Hkw|]. apply Forall_app. split.
    + eapply withitems_bounded; [exact Hunder | | eassumption].
      intros item Hitem. split.
      * unfold stmt_spans. apply in_or_app. right. apply in_map. exact Hitem.
      * intros e He. cbn [stmt_exprs]. apply in_flat_map. eauto.
    + eapply block_bounded; [|eassumption]. exact IHc.
  - (* OtherStmt *)
    discriminate.
Qed.

End StmtRanges.

(** The range of a statement with a leading keyword covers the span of
    the keyword, which is not empty. *)
Lemma build_stmt_covers_token (ctx : SourceContext) (node : ast.stmt) (s : Stmt)
    (l c w : Z) :
  build_stmt ctx node = Ok (Some s) ->
  stmt_token_width node = Some (l, c, w) ->
  covers (stmt_range s) (make_range ctx l c (c + w)) /\ 0 < w.
Proof.
  intros Hbuild Hw.
  destruct node; simpl in Hw; try discriminate; injection Hw as <- <- <-;
    (split; [|reflexivity]);
    run_handler in Hbuild; unfold returns in Hbuild.
  - inv_bind Hbuild. injection Hbuild as <-. inv_bind Ha. injection Ha as <-.
    apply covers_merge_all.
  - inv_bind Hbuild. injection Hbuild as <-. inv_bind Ha. injection Ha as <-.
    apply covers_merge_l.
  - inv_bind Hbuild. injection Hbuild as <-. inv_bind Ha. injection Ha as <-.
    apply covers_merge_all.
  - inv_bind Hbuild. injection Hbuild as <-.
    destruct orelse; [|discriminate]. inv_bind Ha. injection Ha as <-.
    apply covers_merge_all.
  - inv_bind Hbuild. injection Hbuild as <-. inv_bind Ha. injection Ha as <-.
    apply covers_merge_all.
  - inv_bind Hbuild. injection Hbuild as <-. inv_bind Ha. injection Ha as <-.
    apply covers_merge_all.
  - inv_bind Hbuild. injection Hbuild as <-.
    destruct dest; [discriminate|]. inv_bind Ha. injection Ha as <-.
    apply covers_merge_all.
  - injection Hbuild as <-. apply covers_refl.
  - injection Hbuild as <-. apply covers_refl.
  - injection Hbuild as <-. apply covers_refl.
  - inv_bind Hbuild. injection Hbuild as <-. inv_bind Ha. injection Ha as <-.
    apply covers_merge_all.
Qed.

Lemma build_stmt_range (ctx : SourceContext) (node : ast.stmt) (s : Stmt) :
  build_stmt ctx node = Ok (Some s) ->
  start (stmt_range s) <= end_ (stmt_range s)
  /\ (stmt_spelled node -> start (stmt_range s) < end_ (stmt_range s))
  /\ (forall lo, stmt_starts_from ctx lo node -> lo <= start (stmt_range s))
  /\ (forall hi, stmt_ends_by ctx hi node -> end_ (stmt_range s) <= hi).
Proof.
  intros H. split; [|split; [|split]].
  - refine (proj1 (proj1 (build_stmt_bounded ctx 0 0 False False False node
                            _ _ _ node (or_introl eq_refl) s H))); tauto.
  - intros Hs.
    refine (proj2 (build_stmt_bounded ctx 0 0 False False True node
                     _ _ _ node (or_introl eq_refl) s H) I); tauto.
  - intros lo Hlo.
    refine (proj1 (proj2 (proj1 (build_stmt_bounded ctx lo 0 True False False node
                                   _ _ _ node (or_introl eq_refl) s H))) I); tauto.
  - intros hi Hhi.
    refine (proj2 (proj2 (proj1 (build_stmt_bounded ctx 0 hi False True False node
                                   _ _ _ node (or_introl eq_refl) s H))) I); tauto.
Qed.

(** ** The invariant of ranges *)

Definition ctx_hex : SourceContext :=
  mkSourceContext "0xFFFFFFFFFF" "hex.py" 1 0 true.

Definition hex_node : ast.expr := ast.Num 1 0 (ast.CInt 1099511627775).

Definition ctx_del : SourceContext :=
  mkSourceContext "del x" "del.py" 1 0 true.

Definition del_node : ast.stmt := ast.Delete 1 0 [ast.Name 1 4 "x"].



Lemma subexpr_inv (d e : ast.expr) :
  subexpr d e -> exists c, In c (children e) /\ under d c.
Proof.
  intros [c e' Hin | d' c e' Hd Hin]; exists c; split; try assumption.
  - left. reflexivity.
  - right. exact Hd.
Qed.

Lemma substmt_inv (d s : ast.stmt) :
  substmt d s -> exists c, In c (stmt_children s) /\ stmt_under d c.
Proof.
  intros [c s' Hin | d' c s' Hd Hin]; exists c; split; try assumption.
  - left. reflexivity.
  - right. exact Hd.
Qed.

(** The nodes at and under a given syntax tree, one by one. *)
Ltac enum_under :=
  repeat match goal with
         | H : In _ [] |- _ => contradiction H
         | H : In _ (_ :: _) |- _ => destruct H as [H|H]
         | H : In _ (children _) |- _ =>
             progress cbn [children comprehension_exprs List.concat map app
                           option_list] in H
         | H : In _ (stmt_children _) |- _ => progress cbn [stmt_children app] in H
         | H : In _ (stmt_exprs _) |- _ =>
             progress cbn [stmt_exprs option_list app flat_map withitem_exprs] in H
         | H : ?x = _ :> ast.expr |- _ => is_var x; subst x
         | H : _ = ?x :> ast.expr |- _ => is_var x; subst x
         | H : ?x = _ :> ast.stmt |- _ => is_var x; subst x
         | H : _ = ?x :> ast.stmt |- _ => is_var x; subst x
         | H : ast.Attribute _ _ _ _ = _ |- _ =>
             first [discriminate H | injection H as -> -> -> ->]
         | H : under _ ?e |- _ => tryif is_var e then fail else destruct H as [H|H]
         | H : stmt_under _ ?e |- _ =>
             tryif is_var e then fail else destruct H as [H|H]
         | H : subexpr _ ?e |- _ =>
             tryif is_var e then fail
             else (apply subexpr_inv in H; destruct H as [? [? H]])
         | H : substmt _ ?e |- _ =>
             tryif is_var e then fail
             else (apply substmt_inv in H; destruct H as [? [? H]])
         end.

Definition ctx_listcomp : SourceContext :=
  mkSourceContext "[y.T for y in z]" "listcomp.py" 1 0 true.

Definition listcomp_node : ast.expr :=
  ast.ListComp 1 0 (ast.Attribute 1 1 (ast.Name 1 1 "y") "T")
    [ast.mk_comprehension (ast.Name 1 9 "y") (ast.Name 1 14 "z") []].

Definition ctx_return : SourceContext :=
  mkSourceContext "return x" "return.py" 1 0 true.

Definition return_node : ast.stmt := ast.Return 1 0 (Some (ast.Name 1 7 "x")).

